(** * ETL pipeline of the quiz application (src/etl/pipeline.py, src/app.py)

    A shallow embedding of [extract], [transform], [load], [run_pipeline]
    and [append_raw_row], with the pandas primitives they call modelled on
    row lists, of the answer form and the results tab of the application,
    and the properties of the consolidation step. A file is the text it
    holds: [to_csv] writes it as [csv.writer] does, and [pd.read_csv] lays
    out on the labels of the first line the fields its tokenizer cuts, the
    tokenizer being a parameter. *)

From Stdlib Require Import ZArith String Ascii List Sorted Permutation Lia.
From Stdlib Require OrderedTypeEx.
From stdpp Require Import base option list strings gmap sorting pretty.

Local Open Scope Z_scope.

(** ** Strings

    A Python [str] is modelled as a [string]; every character stands for the
    code point of the same number, and strings are ordered by code points as
    Python orders them. *)

(** [str.isspace] on one code point below 256: tab to carriage return, the
    separators 28 to 31, the space, NEL (133) and the no-break space (160). *)
Definition is_space (c : ascii) : bool :=
  let n := nat_of_ascii c in
  ((9 <=? n)%nat && (n <=? 13)%nat) || ((28 <=? n)%nat && (n <=? 32)%nat)
  || (n =? 133)%nat || (n =? 160)%nat.

Fixpoint lstrip (s : string) : string :=
  match s with
  | String c s' => if is_space c then lstrip s' else s
  | EmptyString => EmptyString
  end.

Fixpoint rstrip (s : string) : string :=
  match s with
  | EmptyString => EmptyString
  | String c s' =>
      match rstrip s' with
      | EmptyString => if is_space c then EmptyString else String c EmptyString
      | t => String c t
      end
  end.

(** [str.strip()] *)
Definition strip (s : string) : string := rstrip (lstrip s).

(** ** Cells, series and data frames *)

(** One value of a pandas column: missing ([pd.NA] / NaN), text or integer. *)
Inductive cell : Type :=
  | NA
  | Str (s : string)
  | Int (z : Z).

#[global] Instance cell_eq_dec : EqDecision cell.
Proof. solve_decision. Defined.

(** A [pd.Series] is the list of its values, a [pd.DataFrame] the list of its
    column labels and the list of its rows, every row aligned with the
    labels. *)
Definition Series := list cell.

Record DataFrame : Type := mkDataFrame {
  columns : list string;
  rows : list (list cell)
}.

#[global] Instance DataFrame_eq_dec : EqDecision DataFrame.
Proof. solve_decision. Defined.

(** Every row has one cell per column label. *)
Definition aligned (df : DataFrame) : Prop :=
  Forall (fun r => length r = length (columns df)) (rows df).

(** [df.shape[0]] *)
Definition shape0 (df : DataFrame) : Z := Z.of_nat (length (rows df)).

(** Position of the first column labelled [c]. *)
Fixpoint col_index (c : string) (cols : list string) : option nat :=
  match cols with
  | [] => None
  | c' :: cols' =>
      if String.eqb c c' then Some 0%nat else S <$> col_index c cols'
  end.

(** [c in df.columns] *)
Definition has_column (df : DataFrame) (c : string) : bool :=
  bool_decide (is_Some (col_index c (columns df))).

Definition at_col (i : nat) (r : list cell) : cell := default NA (r !! i).

(** [df[c]]: [None] stands for the [KeyError] of a missing label. *)
Definition getitem (df : DataFrame) (c : string) : option Series :=
  i ← col_index c (columns df); Some (at_col i <$> rows df).

(** [df[c] = s]: replaces the column when the label exists, appends it as the
    last column otherwise. *)
Definition setitem (df : DataFrame) (c : string) (s : Series) : DataFrame :=
  match col_index c (columns df) with
  | Some i =>
      mkDataFrame (columns df) (zip_with (fun r v => <[i:=v]> r) (rows df) s)
  | None =>
      mkDataFrame (columns df ++ [c]) (zip_with (fun r v => r ++ [v]) (rows df) s)
  end.

(** [df[c] = v] with a scalar [v], broadcast to every row. *)
Definition setitem_scalar (df : DataFrame) (c : string) (v : cell) : DataFrame :=
  setitem df c (replicate (length (rows df)) v).

(** [df[cs]] with a list of labels: the columns in the order asked. *)
Definition select (df : DataFrame) (cs : list string) : option DataFrame :=
  idx ← mapM (fun c => col_index c (columns df)) cs;
  Some (mkDataFrame cs ((fun r => (fun i => at_col i r) <$> idx) <$> rows df)).

(** [df[mask]] with a boolean series. *)
Definition boolean_index (df : DataFrame) (mask : list bool) : DataFrame :=
  mkDataFrame (columns df) (fst <$> filter (fun p => snd p = true) (zip (rows df) mask)).

(** [s.astype("string")] *)
Definition astype_string (s : Series) : Series :=
  (fun c => match c with
            | NA => NA
            | Str t => Str t
            | Int z => Str (pretty z)
            end) <$> s.

(** [s.fillna(v)] *)
Definition fillna (v : cell) (s : Series) : Series :=
  (fun c => match c with NA => v | _ => c end) <$> s.

(** [s.str.strip()]: a value that is not text becomes missing. *)
Definition str_strip (s : Series) : Series :=
  (fun c => match c with Str t => Str (strip t) | _ => NA end) <$> s.

(** [s != t], elementwise. *)
Definition ne_str (t : string) (s : Series) : list bool :=
  (fun c => bool_decide (c <> Str t)) <$> s.

(** A signed 64-bit integer, as a mathematical integer after wrap-around. *)
Definition wrap64 (z : Z) : Z := (z + 2 ^ 63) mod 2 ^ 64 - 2 ^ 63.

(** [s.astype("int64")]: [None] stands for the error pandas raises when a
    value is missing or is not a number. *)
Definition astype_int64 (s : Series) : option Series :=
  mapM (fun c => match c with Int z => Some (Int (wrap64 z)) | _ => None end) s.

(** [s.sum()] of an int64 series, with the wrap-around of 64-bit addition. *)
Definition sum_int64 (s : Series) : Z :=
  fold_left (fun acc c => match c with Int z => wrap64 (acc + z) | _ => acc end) s 0.

(** ** Ordering of cells and rows *)

(** Order of the values of one sort key. Text is compared by code points and
    missing values come last ([na_position="last"]). A number is placed
    before a text: pandas refuses to sort such a mixed column, and the key
    columns of [transform] hold text only (see [limpeza_basica]). *)
Definition cell_compare (a b : cell) : comparison :=
  match a, b with
  | NA, NA => Eq
  | NA, _ => Gt
  | _, NA => Lt
  | Int x, Int y => Z.compare x y
  | Int _, Str _ => Lt
  | Str _, Int _ => Gt
  | Str s, Str t => String.compare s t
  end.

(** Keys with several columns are compared column by column, the first
    column that differs decides. *)
Fixpoint key_compare (k1 k2 : list cell) : comparison :=
  match k1, k2 with
  | [], [] => Eq
  | [], _ :: _ => Lt
  | _ :: _, [] => Gt
  | a :: k1', b :: k2' =>
      match cell_compare a b with
      | Eq => key_compare k1' k2'
      | c => c
      end
  end.

(** The cells of a row at the positions [idx]. *)
Definition row_key (idx : list nat) (r : list cell) : list cell :=
  (fun i => at_col i r) <$> idx.

Definition key_le (idx : list nat) (r1 r2 : list cell) : Prop :=
  key_compare (row_key idx r1) (row_key idx r2) <> Gt.

#[global] Instance key_le_dec idx : RelDecision (key_le idx).
Proof. intros r1 r2. unfold key_le. apply _. Defined.

(** [df.sort_values(by=cs)], ascending. *)
Definition sort_values (cs : list string) (df : DataFrame) : option DataFrame :=
  idx ← mapM (fun c => col_index c (columns df)) cs;
  Some (mkDataFrame (columns df) (merge_sort (key_le idx) (rows df))).

(** The rows that no later row repeats on [key], in their original order. *)
Fixpoint keep_last {K : Type} `{EqDecision K}
    (key : list cell -> K) (l : list (list cell)) : list (list cell) :=
  match l with
  | [] => []
  | r :: l' =>
      if bool_decide (Exists (fun r' => key r' = key r) l')
      then keep_last key l'
      else r :: keep_last key l'
  end.

(** [df.drop_duplicates(subset=cs, keep="last")] *)
Definition drop_duplicates (cs : list string) (df : DataFrame) : option DataFrame :=
  idx ← mapM (fun c => col_index c (columns df)) cs;
  Some (mkDataFrame (columns df) (keep_last (row_key idx) (rows df))).

(** ** The pipeline *)

Definition REQUIRED_COLUMNS : list string :=
  ["timestamp"; "turma"; "aluno"; "bloco"; "question_id"; "pergunta";
   "tipo"; "resposta_aluno"; "gabarito"; "acertou"].

(** The metrics dictionary of [transform], with its four keys. *)
Record Metrics : Type := mkMetrics {
  linhas_raw : Z;
  linhas_curated : Z;
  duplicados_removidos : Z;
  total_acertos : Z
}.

#[global] Instance Metrics_eq_dec : EqDecision Metrics.
Proof. solve_decision. Defined.

Section Transform.

(** The numeric parser behind [pd.to_numeric]: the integer a text stands
    for once cast to an integer, [None] for a text that is not a number. *)
Variable parse_number : string -> option Z.

(** [pd.to_numeric(s, errors="coerce")]: a text that does not parse
    becomes missing. *)
Definition to_numeric (s : Series) : Series :=
  (fun c => match c with
            | NA => NA
            | Int z => Int z
            | Str t => match parse_number t with
                       | Some z => Int z
                       | None => NA
                       end
            end) <$> s.

(** "limpeza básica": the loop over the eight text columns. *)
Definition limpeza_basica (df : DataFrame) : option DataFrame :=
  foldl (fun acc col =>
           df ← acc;
           s ← getitem df col;
           Some (setitem df col (str_strip (fillna (Str "") (astype_string s)))))
        (Some df)
        ["turma"; "aluno"; "bloco"; "question_id"; "pergunta"; "tipo";
         "resposta_aluno"; "gabarito"].

(** "acertou -> int" *)
Definition acertou_int (df : DataFrame) : option DataFrame :=
  s ← getitem df "acertou";
  a ← astype_int64 (fillna (Int 0) (to_numeric s));
  Some (setitem df "acertou" a).

(** "remove linhas sem aluno" *)
Definition remove_sem_aluno (df : DataFrame) : option DataFrame :=
  s ← getitem df "aluno";
  Some (boolean_index df (ne_str "" s)).

Definition transform (df_raw : DataFrame) : option (DataFrame * Metrics) :=
  df ← limpeza_basica df_raw;
  df ← acertou_int df;
  df ← remove_sem_aluno df;
  let before := shape0 df in
  df ← drop_duplicates ["aluno"; "question_id"] df;
  let after := shape0 df in
  acertou ← getitem df "acertou";
  let metrics :=
    {| linhas_raw := before;
       linhas_curated := after;
       duplicados_removidos := before - after;
       total_acertos := sum_int64 acertou |} in
  df ← sort_values ["turma"; "aluno"; "bloco"; "question_id"] df;
  Some (df, metrics).

End Transform.

(** A parser of plain decimal integers, with an optional minus sign. On
    these texts it gives the number pandas reads; it is the parser of the
    worked examples below. *)
Definition digit_of (c : ascii) : option Z :=
  let n := nat_of_ascii c in
  if ((48 <=? n)%nat && (n <=? 57)%nat)%bool then Some (Z.of_nat n - 48) else None.

Fixpoint digits_value (acc : Z) (s : string) : option Z :=
  match s with
  | EmptyString => Some acc
  | String c s' => d ← digit_of c; digits_value (10 * acc + d) s'
  end.

Definition int_literal (s : string) : option Z :=
  match s with
  | EmptyString => None
  | String "-" EmptyString => None
  | String "-" s' => Z.opp <$> digits_value 0 s'
  | _ => digits_value 0 s
  end.

(** ** Files

    The content of a file is its text. [to_csv] writes it through Python's
    [csv.writer] with the settings of pandas on a POSIX system: fields
    separated by commas, lines ended by a line feed, a field quoted only
    when it has to be. [pd.read_csv] cuts the text into lines of fields
    with the tokenizer of pandas, which is a parameter of what follows, and
    lays the fields out on the labels of the first line. *)

(** A path is the list of its components; [[]] is the directory the
    relative paths start from. *)
Definition path : Type := list string.

Record FileSystem : Type := mkFileSystem {
  dirs : gset (list string);
  files : gmap (list string) string
}.

Record ETLPaths : Type := mkETLPaths {
  raw_csv : path;
  curated_csv : path
}.

(** [path.parent] *)
Definition parent (p : path) : path := removelast p.

(** A directory and the directories above it. *)
Definition ancestors (d : path) : list path :=
  (fun n => take n d) <$> seq 0 (S (length d)).

(** [path.exists()] *)
Definition path_exists (fs : FileSystem) (p : path) : bool :=
  bool_decide (is_Some (files fs !! p) \/ p ∈ dirs fs).

(** [d.mkdir(parents=True, exist_ok=True)]: [None] stands for the error
    raised when [d] or a directory above it is a regular file. *)
Definition mkdir_parents (d : path) (fs : FileSystem) : option FileSystem :=
  if bool_decide (Exists (fun a => is_Some (files fs !! a)) (ancestors d))
  then None
  else Some (mkFileSystem (list_to_set (ancestors d) ∪ dirs fs) (files fs)).

Definition ensure_parent_dir (p : path) (fs : FileSystem) : option FileSystem :=
  mkdir_parents (parent p) fs.

(** *** Writing *)

(** The line feed, the carriage return, the double quote and the null
    character. *)
Definition LF : ascii := "010"%char.

Definition CR : ascii := "013"%char.

Definition QUOTE : ascii := "034"%char.

Definition NUL : ascii := "000"%char.

(** [csv.writer] quotes a field that holds the delimiter, the quote
    character or a character of the line terminator, which is the line
    feed alone. A carriage return does not make it quote the field
    (CPython 3.11). *)
Fixpoint needs_quotes (s : string) : bool :=
  match s with
  | EmptyString => false
  | String c s' =>
      Ascii.eqb c "," || Ascii.eqb c QUOTE || Ascii.eqb c LF || needs_quotes s'
  end.

(** Inside the quotes every quote character is written twice. *)
Fixpoint double_quotes (s : string) : string :=
  match s with
  | EmptyString => EmptyString
  | String c s' =>
      if Ascii.eqb c QUOTE then String QUOTE (String QUOTE (double_quotes s'))
      else String c (double_quotes s')
  end.

Definition write_field (s : string) : string :=
  if needs_quotes s
  then String QUOTE (double_quotes s +:+ String QUOTE EmptyString)
  else s.

Fixpoint join_fields (l : list string) : string :=
  match l with
  | [] => EmptyString
  | [f] => f
  | f :: l' => f +:+ String "," (join_fields l')
  end.

(** [writer.writerow(r)]: a row made of one empty field is written as a
    pair of quotes. *)
Definition write_record (r : list string) : string :=
  match r with
  | [EmptyString] => String QUOTE (String QUOTE (String LF EmptyString))
  | _ => join_fields (write_field <$> r) +:+ String LF EmptyString
  end.

(** The text of a sequence of rows. *)
Definition csv_write (lines : list (list string)) : string :=
  foldr (fun r t => write_record r +:+ t) EmptyString lines.

(** The text [to_csv] writes for one value: nothing for a missing value. *)
Definition cell_text (c : cell) : string :=
  match c with
  | NA => ""
  | Str s => s
  | Int z => pretty z
  end.

(** The text of the rows of a table, as [to_csv] writes them. *)
Definition rows_text (df : DataFrame) : list (list string) :=
  (fun r : list cell => cell_text <$> r) <$> rows df.

(** [df.to_csv(p, index=False)]: the line of the labels, then one line for
    each row. *)
Definition to_csv (df : DataFrame) : string :=
  csv_write (columns df :: rows_text df).

(** Opening [p] for writing and replacing its content: [None] stands for
    the error raised when the parent directory is missing or [p] is a
    directory. *)
Definition write_file (p : path) (t : string) (fs : FileSystem) : option FileSystem :=
  if bool_decide (parent p ∈ dirs fs /\ p ∉ dirs fs)
  then Some (mkFileSystem (dirs fs) (<[p:=t]> (files fs)))
  else None.

Definition load (df_curated : DataFrame) (curated_csv : path) (fs : FileSystem)
  : option FileSystem :=
  fs ← ensure_parent_dir curated_csv fs;
  write_file curated_csv (to_csv df_curated) fs.

(** *** Reading *)

(** The number of fields pandas gives to every record: the tokenizer
    completes the first record to the number of labels and every later
    record to the number of fields of the record before it. *)
Definition width (hdr : list string) (recs : list (list string)) : nat :=
  match recs with
  | [] => length hdr
  | r :: _ => Nat.max (length hdr) (length r)
  end.

(** When the records have more fields than there are labels, the labels
    name the last fields and the fields before them become the index. *)
Definition leading (hdr : list string) (recs : list (list string)) : nat :=
  (width hdr recs - length hdr)%nat.

(** The cells of a record: its fields, completed with empty texts to
    [width] fields, without the [leading] ones. *)
Definition read_record (hdr : list string) (recs : list (list string))
    (r : list string) : list cell :=
  Str <$> drop (leading hdr recs)
               (r ++ replicate (width hdr recs - length r) EmptyString).

(** [pd.DataFrame([row], columns=cs)]: a label absent from the dictionary
    gives a missing value. *)
Definition frame_of_record (row : gmap string cell) (cs : list string) : DataFrame :=
  mkDataFrame cs [(fun c => default NA (row !! c)) <$> cs].

(** The rows of [df] laid out on the labels [cs]. *)
Definition reindex (cs : list string) (df : DataFrame) : list (list cell) :=
  (fun r => (fun c => match col_index c (columns df) with
                      | Some i => at_col i r
                      | None => NA
                      end) <$> cs) <$> rows df.

(** [pd.concat([a, b], ignore_index=True)]: the labels of [a], then the
    labels only [b] has; the rows of [a], then the rows of [b]. *)
Definition concat (a b : DataFrame) : DataFrame :=
  let cs := columns a ++ filter (fun c => col_index c (columns a) = None) (columns b) in
  mkDataFrame cs (reindex cs a ++ reindex cs b).

Section Reading.

(** The tokenizer of [pd.read_csv]: the lines of the text that are not
    blank, in their order, each as the list of its fields; [None] stands
    for the error raised on a text it cannot cut. *)
Variable tokenize : string -> option (list (list string)).

(** [pd.read_csv(p, dtype="string", keep_default_na=False)] on the text of
    a file. The first line gives the labels. Every field is read as text;
    a record with fewer fields than [width] is completed with empty texts,
    and the [leading] fields of every record are set aside as the index.
    [None] stands for the errors of pandas: the tokenizer's, no line at
    all, or a record with more than [width] fields. pandas renames a
    repeated label to [label.N] and an empty one to [Unnamed: N]; none of
    these is a required label, so the labels are kept as they are and a
    label denotes its first column. The text is taken to be read in one
    block, as pandas reads a file that is not large. *)
Definition read_csv (t : string) : option DataFrame :=
  lines ← tokenize t;
  match lines with
  | [] => None
  | hdr :: recs =>
      if bool_decide (Forall (fun r => (length r <= width hdr recs)%nat) recs)
      then Some (mkDataFrame hdr (read_record hdr recs <$> recs))
      else None
  end.

Definition extract (raw_csv : path) (fs : FileSystem) : option DataFrame :=
  if negb (path_exists fs raw_csv) then Some (mkDataFrame REQUIRED_COLUMNS [])
  else
    t ← files fs !! raw_csv;
    df ← read_csv t;
    let df := foldl (fun df col =>
                       if has_column df col then df
                       else setitem_scalar df col (Str ""))
                    df REQUIRED_COLUMNS in
    select df REQUIRED_COLUMNS.

Definition append_raw_row (paths : ETLPaths) (row : gmap string cell)
    (fs : FileSystem) : option FileSystem :=
  fs ← ensure_parent_dir (raw_csv paths) fs;
  df_existing ← extract (raw_csv paths) fs;
  let df_new := frame_of_record row REQUIRED_COLUMNS in
  let df_out := concat df_existing df_new in
  write_file (raw_csv paths) (to_csv df_out) fs.

Section Pipeline.

Variable parse_number : string -> option Z.

Definition run_pipeline (paths : ETLPaths) (fs : FileSystem)
  : option (FileSystem * (DataFrame * Metrics)) :=
  df_raw ← extract (raw_csv paths) fs;
  res ← transform parse_number df_raw;
  fs ← load res.1 (curated_csv paths) fs;
  Some (fs, res).

End Pipeline.

End Reading.

(** *** A tokenizer

    The worked examples below read their files with this tokenizer, which
    follows the states of the one of pandas for a comma-separated text: a
    field in quotes runs to the closing quote, a doubled quote inside
    standing for one; a line ends at a line feed, at a carriage return or
    at the two in a row; an empty line and a line of spaces and tabs are
    skipped; a field ends at its first null character. Two things of
    pandas are left out: the byte order mark it skips at the start of a
    text, and its step back to the start of a line that begins with spaces
    or tabs and holds a field, in place of which the characters read are
    kept; the fields are the same when the line before ended in a line
    feed. *)

Inductive tok_mode : Type :=
  | StartRecord
  | StartField
  | InField
  | InQuoted
  | QuoteInQuoted
  | EatCRNL
  | EatCRNLNop
  | WhitespaceLine.

(** The state of the tokenizer: its mode, the characters of the field
    being read, the fields of the line being read, and the lines read. *)
Record tok_state : Type := mkTok {
  t_mode : tok_mode;
  t_field : string;
  t_line : list string;
  t_lines : list (list string)
}.

Fixpoint until_nul (s : string) : string :=
  match s with
  | EmptyString => EmptyString
  | String c s' => if Ascii.eqb c NUL then EmptyString else String c (until_nul s')
  end.

Definition push_char (c : ascii) (m : tok_mode) (st : tok_state) : tok_state :=
  mkTok m (t_field st +:+ String c EmptyString) (t_line st) (t_lines st).

Definition end_field (m : tok_mode) (st : tok_state) : tok_state :=
  mkTok m EmptyString (t_line st ++ [until_nul (t_field st)]) (t_lines st).

Definition end_line (m : tok_mode) (st : tok_state) : tok_state :=
  mkTok m EmptyString [] (t_lines st ++ [t_line st]).

Definition set_mode (m : tok_mode) (st : tok_state) : tok_state :=
  mkTok m (t_field st) (t_line st) (t_lines st).

Definition is_blank (c : ascii) : bool := Ascii.eqb c " " || Ascii.eqb c "009".

Definition in_field (c : ascii) (st : tok_state) : tok_state :=
  if Ascii.eqb c LF then end_line StartRecord (end_field StartRecord st)
  else if Ascii.eqb c CR then end_field EatCRNL st
  else if Ascii.eqb c "," then end_field StartField st
  else push_char c InField st.

Definition start_field (c : ascii) (st : tok_state) : tok_state :=
  if Ascii.eqb c QUOTE then set_mode InQuoted st else in_field c st.

Definition start_record (c : ascii) (st : tok_state) : tok_state :=
  if Ascii.eqb c LF then set_mode StartRecord st
  else if Ascii.eqb c CR then set_mode EatCRNLNop st
  else if is_blank c then push_char c WhitespaceLine st
  else start_field c st.

Definition tok_step (st : tok_state) (c : ascii) : tok_state :=
  match t_mode st with
  | StartRecord => start_record c st
  | StartField => start_field c st
  | InField => in_field c st
  | InQuoted =>
      if Ascii.eqb c QUOTE then set_mode QuoteInQuoted st
      else push_char c InQuoted st
  | QuoteInQuoted =>
      if Ascii.eqb c QUOTE then push_char c InQuoted st else in_field c st
  | EatCRNL =>
      if Ascii.eqb c LF then end_line StartRecord st
      else if Ascii.eqb c "," then end_field StartField (end_line StartField st)
      else start_record c (end_line StartRecord st)
  | EatCRNLNop =>
      if Ascii.eqb c LF || Ascii.eqb c "," then set_mode StartRecord st
      else start_record c (set_mode StartRecord st)
  | WhitespaceLine =>
      if Ascii.eqb c LF then mkTok StartRecord EmptyString (t_line st) (t_lines st)
      else if Ascii.eqb c CR then mkTok EatCRNLNop EmptyString (t_line st) (t_lines st)
      else if is_blank c then push_char c WhitespaceLine st
      else in_field c st
  end.

Fixpoint tok_run (st : tok_state) (s : string) : tok_state :=
  match s with
  | EmptyString => st
  | String c s' => tok_run (tok_step st c) s'
  end.

(** The end of the text: an open quote is an error, an open field or line
    is closed. *)
Definition tok_finish (st : tok_state) : option (list (list string)) :=
  match t_mode st with
  | StartRecord | EatCRNLNop | WhitespaceLine => Some (t_lines st)
  | InQuoted => None
  | StartField | InField | QuoteInQuoted =>
      Some (t_lines (end_line StartRecord (end_field StartRecord st)))
  | EatCRNL => Some (t_lines (end_line StartRecord st))
  end.

Definition csv_tokenize (t : string) : option (list (list string)) :=
  tok_finish (tok_run (mkTok StartRecord EmptyString [] []) t).

(** ** Terms of the properties *)

(** A table with the schema of the Raw Store. *)
Definition raw_table (df : DataFrame) : Prop :=
  columns df = REQUIRED_COLUMNS /\ aligned df.

(** The fields of a row laid out on [REQUIRED_COLUMNS]. *)
Definition turma (r : list cell) : cell := at_col 1 r.

Definition aluno (r : list cell) : cell := at_col 2 r.

Definition bloco (r : list cell) : cell := at_col 3 r.

Definition question_id (r : list cell) : cell := at_col 4 r.

Definition acertou (r : list cell) : cell := at_col 9 r.

(** What "limpeza básica" does to the value of a text column. *)
Definition clean_text (c : cell) : string :=
  match c with
  | NA => ""
  | Str t => strip t
  | Int z => strip (pretty z)
  end.

Definition clean_cell (c : cell) : cell := Str (clean_text c).

Definition clean_row (r : list cell) : list cell :=
  foldl (fun r i => <[i:=clean_cell (at_col i r)]> r) r
        [1; 2; 3; 4; 5; 6; 7; 8]%nat.

Section Stages.

Variable parse_number : string -> option Z.

(** What "acertou -> int" does to the value of [acertou]. *)
Definition coerce (c : cell) : Z :=
  match c with
  | NA => 0
  | Int z => wrap64 z
  | Str t => match parse_number t with
             | Some z => wrap64 z
             | None => 0
             end
  end.

Definition coerce_row (r : list cell) : list cell :=
  <[9%nat:=Int (coerce (acertou r))]> r.

(** The rows after cleaning, coercion and the removal of the rows without
    [aluno], in the order of the input. *)
Definition remaining (l : list (list cell)) : list (list cell) :=
  filter (fun r => aluno r <> Str "") (coerce_row <$> (clean_row <$> l)).

Definition deduplicated (l : list (list cell)) : list (list cell) :=
  keep_last (row_key [2; 4]%nat) (remaining l).

Definition curated_rows (l : list (list cell)) : list (list cell) :=
  merge_sort (key_le [1; 2; 3; 4]%nat) (deduplicated l).

End Stages.

(** Ascending order of two tuples of four texts, the first component that
    differs deciding, each component compared as text. *)
Definition str_lt (s t : string) : Prop := String.compare s t = Lt.

Definition tuple4_le (a b : string * string * string * string) : Prop :=
  let '(a1, a2, a3, a4) := a in
  let '(b1, b2, b3, b4) := b in
  str_lt a1 b1 \/ (a1 = b1 /\
  (str_lt a2 b2 \/ (a2 = b2 /\
  (str_lt a3 b3 \/ (a3 = b3 /\
  (str_lt a4 b4 \/ a4 = b4)))))).

(** The sort key of a row, as texts. *)
Definition sort_key (r : list cell) : string * string * string * string :=
  (cell_text (turma r), cell_text (aluno r), cell_text (bloco r),
   cell_text (question_id r)).

(** A row as [transform] leaves it: the timestamp untouched, eight texts
    and an integer. *)
Definition curated_row (r : list cell) : Prop :=
  exists ts s1 s2 s3 s4 s5 s6 s7 s8 z,
    r = [ts; Str s1; Str s2; Str s3; Str s4; Str s5; Str s6; Str s7; Str s8; Int z].

(** The value [extract] gives to column [c] of a row read from a file with
    the labels [cs]. *)
Definition extracted_cell (cs : list string) (r : list cell) (c : string) : cell :=
  match col_index c cs with
  | Some i => at_col i r
  | None => Str ""
  end.

Definition extracted_row (cs : list string) (r : list cell) : list cell :=
  extracted_cell cs r <$> REQUIRED_COLUMNS.

(** A frame whose rows are completed with empty texts for the labels
    [extra]. *)
Definition padded (cs : list string) (l : list (list cell)) (extra : list string)
  : DataFrame :=
  mkDataFrame (cs ++ extra)
    ((fun r => r ++ replicate (length extra) (Str "")) <$> l).

(** [p] can be written: it is a proper path, it is not a directory, and no
    directory above it is a regular file. *)
Definition writable (fs : FileSystem) (p : path) : Prop :=
  p <> [] /\ (p ∉ dirs fs) /\
  Forall (fun a => files fs !! a = None) (ancestors (parent p)).

(** The file system once the directories above [p] exist. *)
Definition with_parents (p : path) (fs : FileSystem) : FileSystem :=
  mkFileSystem (list_to_set (ancestors (parent p)) ∪ dirs fs) (files fs).

Definition empty_table : DataFrame := mkDataFrame REQUIRED_COLUMNS [].

Definition zero_metrics : Metrics :=
  {| linhas_raw := 0; linhas_curated := 0; duplicados_removidos := 0;
     total_acertos := 0 |}.

(** The record written for a dictionary: the text of each required field,
    in the order of [REQUIRED_COLUMNS]; nothing for an absent field. *)
Definition record_text (row : gmap string cell) : list string :=
  (fun c => cell_text (default NA (row !! c))) <$> REQUIRED_COLUMNS.

(** The record [extract] and [to_csv] make of a record [rec] of a file with
    the labels [hdr] and the records [recs]: for each required label the
    field under the first column of that label, counted after the
    [leading] fields of the index, the empty text when the record is too
    short or the label is absent. *)
Definition normalized_record (hdr : list string) (recs : list (list string))
    (rec : list string) : list string :=
  (fun c => match col_index c hdr with
            | Some j => default EmptyString (rec !! (leading hdr recs + j)%nat)
            | None => EmptyString
            end) <$> REQUIRED_COLUMNS.

(** A field that is read back as it was written: no carriage return, which
    [csv.writer] leaves outside quotes and the tokenizer takes for the end
    of a line, and no null character, at which the tokenizer cuts a
    field. *)
Fixpoint safe_field (s : string) : Prop :=
  match s with
  | EmptyString => True
  | String c s' => c <> CR /\ c <> NUL /\ safe_field s'
  end.

(** A row that is read back as it was written: at least one field, every
    field safe, and no space or tab at the start of the first one. *)
Definition safe_row (r : list string) : Prop :=
  Forall safe_field r /\
  match r with
  | [] => False
  | EmptyString :: _ => True
  | String c _ :: _ => is_blank c = false
  end.

(** The table [extract] makes of the lines [hdr :: recs] of a file. *)
Definition normalized_table (hdr : list string) (recs : list (list string))
  : DataFrame :=
  mkDataFrame REQUIRED_COLUMNS
    ((fun rec : list string => Str <$> normalized_record hdr recs rec) <$> recs).

#[global] Instance safe_field_dec (s : string) : Decision (safe_field s).
Proof. induction s as [|c s IH]; cbn [safe_field]; apply _. Defined.

#[global] Instance safe_row_dec (r : list string) : Decision (safe_row r).
Proof. unfold safe_row. destruct r as [|[|c s] r]; apply _. Defined.

(** What the properties about files read again assume of the tokenizer:
    it gives back the lines of a text that [csv.writer] wrote for the ten
    labels and records of ten fields, when the records are safe. *)
Definition reads_back (tokenize : string -> option (list (list string))) : Prop :=
  forall recs : list (list string),
    Forall safe_row recs ->
    Forall (fun rec => length rec = 10%nat) recs ->
    tokenize (csv_write (REQUIRED_COLUMNS :: recs)) = Some (REQUIRED_COLUMNS :: recs).

(** * [transform] on data frame objects

    In Python a data frame is an object reached through references, and
    assigning a column changes the object in place. Here the objects live in
    a store, [transform] takes a reference to its input, and every statement
    of the source allocates or updates the object the source allocates or
    updates. *)

Module Store.

Abbreviation ref := nat.
Abbreviation store := (list DataFrame).

(** A computation on the store: its result, [None] when an exception is
    raised, and the store it leaves. *)
Definition M (A : Type) : Type := store -> option A * store.

Definition ret {A} (a : A) : M A := fun h => (Some a, h).

Definition bind {A B} (m : M A) (k : A -> M B) : M B :=
  fun h => match m h with
           | (Some a, h') => k a h'
           | (None, h') => (None, h')
           end.

Definition lift {A} (o : option A) : M A := fun h => (o, h).

Notation "'let*' x ':=' m 'in' k" := (bind m (fun x => k))
  (at level 10, x name, m at level 100, k at level 200).

(** A new object. *)
Definition new (df : DataFrame) : M ref := fun h => (Some (length h), h ++ [df]).

Definition deref (r : ref) : M DataFrame := fun h => (h !! r, h).

(** The object at [r] is replaced: an update in place. *)
Definition assign (r : ref) (df : DataFrame) : M unit :=
  fun h => (Some tt, <[r:=df]> h).

Fixpoint for_each {A} (l : list A) (body : A -> M unit) : M unit :=
  match l with
  | [] => ret tt
  | a :: l' => let* _ := body a in for_each l' body
  end.

(** [df.copy()] *)
Definition df_copy (r : ref) : M ref :=
  let* df := deref r in new df.

(** [df[c]] *)
Definition df_getitem (r : ref) (c : string) : M Series :=
  let* df := deref r in lift (getitem df c).

(** [df[c] = s] *)
Definition df_setitem (r : ref) (c : string) (s : Series) : M unit :=
  let* df := deref r in assign r (setitem df c s).

(** [df[mask]] *)
Definition df_boolean_index (r : ref) (mask : list bool) : M ref :=
  let* df := deref r in new (boolean_index df mask).

(** [df.shape[0]] *)
Definition df_shape0 (r : ref) : M Z :=
  let* df := deref r in ret (shape0 df).

(** [df.drop_duplicates(subset=cs, keep="last")] *)
Definition df_drop_duplicates (cs : list string) (r : ref) : M ref :=
  let* df := deref r in
  let* d := lift (drop_duplicates cs df) in
  new d.

(** [df.sort_values(by=cs)] *)
Definition df_sort_values (cs : list string) (r : ref) : M ref :=
  let* df := deref r in
  let* d := lift (sort_values cs df) in
  new d.

Section TransformRef.

Variable parse_number : string -> option Z.

Definition transform_ref (df_raw : ref) : M (ref * Metrics) :=
  let* df := df_copy df_raw in
  let* _ :=
    for_each ["turma"; "aluno"; "bloco"; "question_id"; "pergunta"; "tipo";
              "resposta_aluno"; "gabarito"]
      (fun col =>
         let* s := df_getitem df col in
         df_setitem df col (str_strip (fillna (Str "") (astype_string s)))) in
  let* s := df_getitem df "acertou" in
  let* a := lift (astype_int64 (fillna (Int 0) (to_numeric parse_number s))) in
  let* _ := df_setitem df "acertou" a in
  let* s := df_getitem df "aluno" in
  let* kept := df_boolean_index df (ne_str "" s) in
  let* df := df_copy kept in
  let* before := df_shape0 df in
  let* df := df_drop_duplicates ["aluno"; "question_id"] df in
  let* after := df_shape0 df in
  let* acertou := df_getitem df "acertou" in
  let metrics :=
    {| linhas_raw := before;
       linhas_curated := after;
       duplicados_removidos := before - after;
       total_acertos := sum_int64 acertou |} in
  let* df := df_sort_values ["turma"; "aluno"; "bloco"; "question_id"] df in
  ret (df, metrics).

End TransformRef.

(** [keeps h0 m Q]: run from a store that extends [h0], [m] leaves a store
    that extends [h0], and its result satisfies [Q]. *)
Definition keeps {A} (h0 : store) (m : M A) (Q : A -> Prop) : Prop :=
  forall h, h0 `prefix_of` h ->
    h0 `prefix_of` (m h).2 /\ forall a, (m h).1 = Some a -> Q a.

(** [runs m h a h']: from the store [h], [m] returns [a] and leaves [h']. *)
Definition runs {A} (m : M A) (h : store) (a : A) (h' : store) : Prop :=
  m h = (Some a, h').

End Store.

(** ** Further terms of the properties *)

(** A text that does not start with a space character. *)
Definition no_leading_space (s : string) : Prop :=
  match s with
  | String c _ => is_space c = false
  | EmptyString => True
  end.

(** The shape of a curated row. *)
Definition curated_shape (r : list cell) : Prop :=
  exists c0 s1 s2 s3 s4 s5 s6 s7 s8 z,
    r = [c0; Str s1; Str s2; Str s3; Str s4; Str s5; Str s6; Str s7; Str s8; Int z] /\
    - 2 ^ 63 <= z < 2 ^ 63.

(** ** The results tab (src/app.py) *)

(** [df.empty] *)
Definition df_empty (df : DataFrame) : bool :=
  bool_decide (columns df = [] \/ rows df = []).

(** [s.nunique()]: the number of distinct values, missing ones apart. *)
Definition nunique (s : Series) : Z :=
  Z.of_nat (length (remove_dups (filter (fun c => c <> NA) s))).

(** The three counters at the top of the results tab. *)
Record Panel : Type := mkPanel {
  respostas : Z;
  alunos : Z;
  acertos : Z
}.

Section Results.

Variable tokenize : string -> option (list (list string)).

Variable parse_number : string -> option Z.

(** [load_processed] of the application, on the curated path. *)
Definition load_processed (curated_csv : path) (fs : FileSystem) : option DataFrame :=
  if path_exists fs curated_csv then
    t ← files fs !! curated_csv;
    df ← read_csv tokenize t;
    if has_column df "acertou" then acertou_int parse_number df else Some df
  else Some (mkDataFrame [] []).

(** The results tab up to its counters: [Some None] stands for the warning
    shown when there is no curated table, [None] for an exception. The
    percentage, which is a floating-point number, and the charts are left
    out; they are computed after the counters. *)
Definition results_panel (curated_csv : path) (fs : FileSystem)
  : option (option Panel) :=
  df ← load_processed curated_csv fs;
  if df_empty df then Some None
  else
    df ← acertou_int parse_number df;
    aluno ← getitem df "aluno";
    acertou ← getitem df "acertou";
    Some (Some {| respostas := shape0 df;
                  alunos := nunique aluno;
                  acertos := sum_int64 acertou |}).

End Results.

(** The sum of the integers of a series, without wrap-around. *)
Definition sum_Z (s : Series) : Z :=
  foldr (fun c acc => match c with Int z => z + acc | _ => acc end) 0 s.

(** ** The answer form (src/app.py)

    A question of [perguntas.json], with the fields the recorder reads:
    [tipo] is optional. *)
Record Question : Type := mkQuestion {
  q_id : string;
  q_pergunta : string;
  q_tipo : option string;
  q_gabarito : string
}.

(** [1 if choice == q["gabarito"] else 0] *)
Definition mark (q : Question) (choice : string) : Z :=
  if String.eqb choice (q_gabarito q) then 1 else 0.

(** The dictionary built for one answer. *)
Definition answer_row (ts turma aluno bloco : string) (q : Question)
    (choice : string) : gmap string cell :=
  list_to_map
    [("timestamp", Str ts); ("turma", Str (strip turma));
     ("aluno", Str (strip aluno)); ("bloco", Str (strip bloco));
     ("question_id", Str (q_id q)); ("pergunta", Str (q_pergunta q));
     ("tipo", Str (default "multipla" (q_tipo q)));
     ("resposta_aluno", Str choice); ("gabarito", Str (q_gabarito q));
     ("acertou", Int (mark q choice))].

(** The state of the loop over the answers: the file system, the feedback
    list, the running total and the number of readings of the clock. *)
Record Progress : Type := mkProgress {
  p_fs : FileSystem;
  p_feedback : list (Question * string * Z);
  p_total : Z;
  p_calls : nat
}.

(** What pressing the button leads to: one of the two error messages
    followed by [st.stop()], or the answers recorded. *)
Inductive Submission : Type :=
  | NoName
  | Unanswered
  | Recorded (fs : FileSystem) (feedback : list (Question * string * Z))
             (total_acertos : Z).

Section Form.

Variable tokenize : string -> option (list (list string)).

(** The text [utc_now_iso()] returns at its n-th call. *)
Variable utc_now_iso : nat -> string.

Variable paths : ETLPaths.

Variables turma aluno bloco : string.

(** One turn of the loop over the answers. *)
Definition record_answer (st : Progress) (qc : Question * string) : option Progress :=
  let acertou := mark qc.1 qc.2 in
  let row := answer_row (utc_now_iso (p_calls st)) turma aluno bloco qc.1 qc.2 in
  fs ← append_raw_row tokenize paths row (p_fs st);
  Some {| p_fs := fs;
          p_feedback := p_feedback st ++ [(qc.1, qc.2, acertou)];
          p_total := p_total st + acertou;
          p_calls := S (p_calls st) |}.

(** The handler of the submit button; [None] stands for an exception of
    [append_raw_row]. *)
Definition submit (answers : list (Question * option string)) (fs : FileSystem)
  : option Submission :=
  if bool_decide (strip aluno = "") then Some NoName
  else
    match mapM (fun qa : Question * option string => c ← qa.2; Some (qa.1, c)) answers with
    | None => Some Unanswered
    | Some chosen =>
        st ← foldl (fun acc qc => st ← acc; record_answer st qc)
                   (Some {| p_fs := fs; p_feedback := []; p_total := 0;
                            p_calls := 0 |})
                   chosen;
        Some (Recorded (p_fs st) (p_feedback st) (p_total st))
    end.

(** The record written for one answer. *)
Definition answer_text (ts : string) (qc : Question * string) : list string :=
  [ts; strip turma; strip aluno; strip bloco; q_id qc.1; q_pergunta qc.1;
   default "multipla" (q_tipo qc.1); qc.2; q_gabarito qc.1;
   if String.eqb qc.2 (q_gabarito qc.1) then "1" else "0"].

End Form.

(** ** Worked inputs *)

Definition row10 (ts turma aluno bloco qid pergunta tipo resp gab acertou : string)
  : list cell :=
  [Str ts; Str turma; Str aluno; Str bloco; Str qid; Str pergunta; Str tipo;
   Str resp; Str gab; Str acertou].

(** A raw table of five answers: two for the same question by the same
    student, one without student, one whose [acertou] is not a number. *)
Definition sample_raw : DataFrame :=
  mkDataFrame REQUIRED_COLUMNS
    [row10 "t1" " B " "ana" "b1" "q1" "p" "m" "a" "a" "1";
     row10 "t2" "A" " ana " "b1" "q1" "p" "m" "b" "a" "0";
     row10 "t3" "A" "  " "b1" "q1" "p" "m" "b" "a" "1";
     row10 "t4" "A" "bob" "b1" "q1" "p" "m" "b" "a" "x";
     row10 "t5" "A" "ana" "b1" "q0" "p" "m" "a" "a" "1"].

Definition sample_curated : DataFrame :=
  mkDataFrame REQUIRED_COLUMNS
    [[Str "t5"; Str "A"; Str "ana"; Str "b1"; Str "q0"; Str "p"; Str "m";
      Str "a"; Str "a"; Int 1];
     [Str "t2"; Str "A"; Str "ana"; Str "b1"; Str "q1"; Str "p"; Str "m";
      Str "b"; Str "a"; Int 0];
     [Str "t4"; Str "A"; Str "bob"; Str "b1"; Str "q1"; Str "p"; Str "m";
      Str "b"; Str "a"; Int 0]].

Definition sample_metrics : Metrics :=
  {| linhas_raw := 4; linhas_curated := 3; duplicados_removidos := 1;
     total_acertos := 1 |}.

(** A raw table of one answer whose [acertou] is the number 2. *)
Definition two_raw : DataFrame :=
  mkDataFrame REQUIRED_COLUMNS
    [row10 "t1" "A" "ana" "b1" "q1" "p" "m" "a" "a" "2"].

(** The paths of the application, relative to its directory. *)
Definition app_paths : ETLPaths :=
  mkETLPaths ["data"; "raw"; "respostas_raw.csv"]
             ["data"; "curated"; "respostas_curadas.csv"].

(** A file system with no file and no directory. *)
Definition fs_new : FileSystem := mkFileSystem ∅ ∅.

(** A Raw Store written with an older schema: three of the required
    columns, one column that is not required, and a record cut short. *)
Definition old_file : string :=
  "aluno,nota,question_id,acertou" +:+ String LF
    ("ana,10,q1,1" +:+ String LF ("bob,7" +:+ String LF EmptyString)).



Definition fs_old : FileSystem :=
  mkFileSystem {[ []; ["data"]; ["data"; "raw"] ]}
               {[ ["data"; "raw"; "respostas_raw.csv"] := old_file ]}.

(** A Raw Store of zero bytes. *)
Definition fs_blank : FileSystem :=
  mkFileSystem {[ []; ["data"]; ["data"; "raw"] ]}
               {[ ["data"; "raw"; "respostas_raw.csv"] := EmptyString ]}.

(** A Raw Store whose first record has one field more than there are
    labels: pandas takes the first field of every record for the index. *)
Definition wide_file : string :=
  "aluno,acertou" +:+ String LF
    ("ana,1,zzz" +:+ String LF ("bob,0" +:+ String LF EmptyString)).

Definition wide_header : list string := ["aluno"; "acertou"].

Definition wide_records : list (list string) := [["ana"; "1"; "zzz"]; ["bob"; "0"]].

Definition fs_wide : FileSystem :=
  mkFileSystem {[ []; ["data"]; ["data"; "raw"] ]}
               {[ ["data"; "raw"; "respostas_raw.csv"] := wide_file ]}.

(** A Raw Store whose second record has one field more than the first. *)
Definition ragged_file : string :=
  "aluno,acertou" +:+ String LF
    ("ana,1" +:+ String LF ("bob,0,zzz" +:+ String LF EmptyString)).

Definition fs_ragged : FileSystem :=
  mkFileSystem {[ []; ["data"]; ["data"; "raw"] ]}
               {[ ["data"; "raw"; "respostas_raw.csv"] := ragged_file ]}.

(** A record as the form submits it. *)
Definition sample_record : gmap string cell :=
  list_to_map
    [("timestamp", Str "2026-02-12T16:00:00Z"); ("turma", Str "Turma A");
     ("aluno", Str "ana"); ("bloco", Str "b1"); ("question_id", Str "q2");
     ("pergunta", Str "p"); ("tipo", Str "multipla");
     ("resposta_aluno", Str "a"); ("gabarito", Str "b"); ("acertou", Int 0)].

(** A raw table as the answer form writes it: "0" or "1" in [acertou]. *)
Definition bits_raw : DataFrame :=
  mkDataFrame REQUIRED_COLUMNS
    [row10 "t1" "A" "ana" "b1" "q1" "p" "m" "a" "a" "1";
     row10 "t2" "A" "ana" "b1" "q1" "p" "m" "b" "a" "0";
     row10 "t3" "A" "bob" "b1" "q1" "p" "m" "a" "a" "1"].

(** A form of two questions, both answered, the first one correctly. *)
Definition sample_answers : list (Question * option string) :=
  [(mkQuestion "q1" "p1" None "a", Some "a");
   (mkQuestion "q2" "p2" (Some "vf") "b", Some "a")].

Definition sample_clock (n : nat) : string :=
  match n with
  | O => "2026-02-12T16:00:00Z"
  | _ => "2026-02-12T16:00:01Z"
  end.

(** * Properties *)

(** ** Columns and rows *)

Lemma getitem_index df c i :
  col_index c (columns df) = Some i -> getitem df c = Some (at_col i <$> rows df).
Proof. intros H. unfold getitem. now rewrite H. Qed.

Lemma zip_with_insert_fmap (i : nat) (f : list cell -> cell) (l : list (list cell)) :
  zip_with (fun r v => <[i:=v]> r) l (f <$> l) = (fun r => <[i:=f r]> r) <$> l.
Proof. induction l as [|r l IH]; csimpl; [reflexivity | now rewrite IH]. Qed.

(** Assigning to an existing column a series computed from the frame itself
    rewrites that cell of every row. *)
Lemma setitem_index cs l c i (f : list cell -> cell) :
  col_index c cs = Some i ->
  setitem (mkDataFrame cs l) c (f <$> l)
  = mkDataFrame cs ((fun r => <[i:=f r]> r) <$> l).
Proof.
  intros H. unfold setitem. cbn [columns rows]. rewrite H.
  now rewrite zip_with_insert_fmap.
Qed.

Lemma boolean_index_fmap (p : list cell -> bool) (l : list (list cell)) :
  fst <$> filter (fun q => snd q = true) (zip l (p <$> l))
  = filter (fun r => p r = true) l.
Proof.
  induction l as [|r l IH]; csimpl; [reflexivity|].
  rewrite !filter_cons. simpl. destruct (decide (p r = true)); csimpl; now rewrite IH.
Qed.

Lemma length10 (r : list cell) :
  length r = 10%nat ->
  exists c0 c1 c2 c3 c4 c5 c6 c7 c8 c9, r = [c0; c1; c2; c3; c4; c5; c6; c7; c8; c9].
Proof.
  intros H.
  do 10 (destruct r as [|? r]; [discriminate H|]).
  destruct r; [|discriminate H]. eauto 12.
Qed.

(** ** The stages of [transform], row by row *)

Lemma clean_series s :
  str_strip (fillna (Str "") (astype_string s)) = clean_cell <$> s.
Proof.
  unfold str_strip, fillna, astype_string. rewrite <- !list_fmap_compose.
  apply list_fmap_ext. now intros ? [| |] ?.
Qed.

Section TransformFacts.

Variable parse_number : string -> option Z.

Lemma coerce_series s :
  astype_int64 (fillna (Int 0) (to_numeric parse_number s))
  = Some ((fun c => Int (coerce parse_number c)) <$> s).
Proof.
  unfold astype_int64, fillna, to_numeric. apply mapM_Some.
  induction s as [|c s IH]; csimpl; constructor; [|exact IH].
  destruct c as [|t|z]; simpl; try reflexivity.
  now destruct (parse_number t).
Qed.

Lemma limpeza_step cs l c i :
  col_index c cs = Some i ->
  (s ← getitem (mkDataFrame cs l) c;
   Some (setitem (mkDataFrame cs l) c
           (str_strip (fillna (Str "") (astype_string s)))))
  = Some (mkDataFrame cs ((fun r => <[i:=clean_cell (at_col i r)]> r) <$> l)).
Proof.
  intros H. rewrite (getitem_index _ _ i) by exact H. csimpl.
  rewrite clean_series, <- list_fmap_compose.
  now rewrite (setitem_index cs l c i (clean_cell ∘ at_col i) H).
Qed.

Lemma limpeza_fold cs cols idx : forall l,
  Forall2 (fun c i => col_index c cs = Some i) cols idx ->
  foldl (fun acc col =>
           df ← acc;
           s ← getitem df col;
           Some (setitem df col (str_strip (fillna (Str "") (astype_string s)))))
        (Some (mkDataFrame cs l)) cols
  = Some (mkDataFrame cs
            ((fun r => foldl (fun r i => <[i:=clean_cell (at_col i r)]> r) r idx)
               <$> l)).
Proof.
  intros l H. revert l.
  induction H as [|c i cols idx Hc _ IH]; intros l.
  - simpl. now rewrite list_fmap_id.
  - cbn [foldl]. change (Some (mkDataFrame cs l) ≫= _)
      with (s ← getitem (mkDataFrame cs l) c;
            Some (setitem (mkDataFrame cs l) c
                    (str_strip (fillna (Str "") (astype_string s))))).
    rewrite (limpeza_step cs l c i Hc).
    rewrite IH, <- list_fmap_compose. reflexivity.
Qed.

Lemma limpeza_basica_rows df :
  columns df = REQUIRED_COLUMNS ->
  limpeza_basica df = Some (mkDataFrame REQUIRED_COLUMNS (clean_row <$> rows df)).
Proof.
  destruct df as [cs l]. simpl. intros ->.
  unfold limpeza_basica.
  apply (limpeza_fold REQUIRED_COLUMNS _ [1; 2; 3; 4; 5; 6; 7; 8]%nat).
  repeat constructor.
Qed.

Lemma acertou_int_rows l :
  acertou_int parse_number (mkDataFrame REQUIRED_COLUMNS l)
  = Some (mkDataFrame REQUIRED_COLUMNS
            ((fun r => <[9%nat:=Int (coerce parse_number (acertou r))]> r) <$> l)).
Proof.
  unfold acertou_int.
  rewrite (getitem_index _ "acertou" 9) by reflexivity. csimpl.
  rewrite coerce_series. csimpl. rewrite <- list_fmap_compose.
  now rewrite (setitem_index REQUIRED_COLUMNS l "acertou" 9
                 ((fun c => Int (coerce parse_number c)) ∘ at_col 9)) by reflexivity.
Qed.

Lemma remove_sem_aluno_rows l :
  remove_sem_aluno (mkDataFrame REQUIRED_COLUMNS l)
  = Some (mkDataFrame REQUIRED_COLUMNS (filter (fun r => aluno r <> Str "") l)).
Proof.
  unfold remove_sem_aluno.
  rewrite (getitem_index _ "aluno" 2) by reflexivity. csimpl.
  unfold boolean_index, ne_str. cbn [columns rows]. do 2 f_equal.
  rewrite <- list_fmap_compose.
  rewrite (boolean_index_fmap ((fun c => bool_decide (c <> Str "")) ∘ at_col 2)).
  apply list_filter_iff. intros r. unfold aluno. apply bool_decide_eq_true.
Qed.

End TransformFacts.

(** ** Deduplication *)

Section KeepLast.

Context {K : Type} `{EqDecision K} (key : list cell -> K).

Lemma keep_last_sublist l : sublist (keep_last key l) l.
Proof.
  induction l as [|r l IH]; simpl; [constructor|].
  case_bool_decide; now constructor.
Qed.

(** Among the rows with a given key, exactly the last one is kept. *)
Lemma keep_last_filter (k : K) l :
  filter (fun r => key r = k) (keep_last key l)
  = option_list (last (filter (fun r => key r = k) l)).
Proof.
  induction l as [|r l IH]; [reflexivity|].
  simpl. rewrite (filter_cons _ r l). case_bool_decide as Hlater.
  - rewrite IH. destruct (decide (key r = k)) as [Hk|Hk]; [|reflexivity].
    destruct (filter (fun r0 => key r0 = k) l) as [|r1 t] eqn:Hf.
    + exfalso. apply Exists_exists in Hlater as (r' & Hin & Hr').
      apply (filter_nil_not_elem_of _ _ r' Hf); [congruence | exact Hin].
    + now rewrite last_cons_cons.
  - rewrite filter_cons. destruct (decide (key r = k)) as [Hk|Hk]; [|exact IH].
    rewrite IH.
    destruct (filter (fun r0 => key r0 = k) l) as [|r1 t] eqn:Hf; [reflexivity|].
    exfalso. apply Hlater, Exists_exists. exists r1.
    assert (Hr1 : r1 ∈ filter (fun r0 => key r0 = k) l) by (rewrite Hf; left).
    apply list_elem_of_filter in Hr1 as [Hr1 Hin]. split; [exact Hin | congruence].
Qed.

(** No key is repeated among the rows kept. *)
Lemma keep_last_NoDup l : NoDup (key <$> keep_last key l).
Proof.
  induction l as [|r l IH]; simpl; [constructor|].
  case_bool_decide as Hlater; [exact IH|].
  csimpl. constructor; [|exact IH].
  intros Hin. apply Hlater, Exists_exists.
  apply list_elem_of_fmap in Hin as (r' & Hk & Hr').
  exists r'. split; [|congruence].
  eapply elem_of_sublist; [exact Hr' | apply keep_last_sublist].
Qed.

End KeepLast.

(** ** The order of the sort *)

Lemma cell_compare_antisym a b : cell_compare a b = CompOpp (cell_compare b a).
Proof.
  destruct a, b; simpl; auto using String.compare_antisym, Z.compare_antisym.
Qed.

Lemma key_compare_antisym k1 : forall k2,
  key_compare k1 k2 = CompOpp (key_compare k2 k1).
Proof.
  induction k1 as [|a k1 IH]; intros [|b k2]; simpl; try reflexivity.
  rewrite (cell_compare_antisym a b).
  destruct (cell_compare b a); simpl; auto.
Qed.

#[global] Instance key_le_total idx : Total (key_le idx).
Proof.
  intros r1 r2. unfold key_le.
  rewrite (key_compare_antisym (row_key idx r2)).
  destruct (key_compare (row_key idx r1) (row_key idx r2)); simpl;
    (left; discriminate) || (right; discriminate).
Qed.

Lemma key_le_tuple4 r1 r2 :
  curated_row r1 -> curated_row r2 ->
  key_le [1; 2; 3; 4]%nat r1 r2 -> tuple4_le (sort_key r1) (sort_key r2).
Proof.
  intros (ts & a1 & a2 & a3 & a4 & ? & ? & ? & ? & ? & ->)
         (ts' & b1 & b2 & b3 & b4 & ? & ? & ? & ? & ? & ->).
  unfold key_le, sort_key, tuple4_le, str_lt. simpl.
  destruct (String.compare a1 b1) eqn:E1; [|now left|congruence].
  apply String.compare_eq_iff in E1 as ->. right; split; [reflexivity|].
  destruct (String.compare a2 b2) eqn:E2; [|now left|congruence].
  apply String.compare_eq_iff in E2 as ->. right; split; [reflexivity|].
  destruct (String.compare a3 b3) eqn:E3; [|now left|congruence].
  apply String.compare_eq_iff in E3 as ->. right; split; [reflexivity|].
  destruct (String.compare a4 b4) eqn:E4; [|now left|congruence].
  apply String.compare_eq_iff in E4 as ->. now right.
Qed.

Lemma Sorted_weaken {A} (R R' : relation A) (P : A -> Prop) l :
  Forall P l -> (forall x y, P x -> P y -> R x y -> R' x y) ->
  Sorted R l -> Sorted R' l.
Proof.
  intros HP HR HS. induction HS as [|x l HS IH Hhd]; [constructor|].
  apply Forall_cons in HP as [Hx Hl]. constructor; [now apply IH|].
  destruct Hhd as [|y l' Hxy]; constructor.
  apply Forall_cons in Hl as [Hy _]. now apply HR.
Qed.

(** ** [transform] on a table with the required columns *)

Section TransformRows.

Variable parse_number : string -> option Z.

Lemma transform_rows df :
  columns df = REQUIRED_COLUMNS ->
  transform parse_number df
  = Some (mkDataFrame REQUIRED_COLUMNS (curated_rows parse_number (rows df)),
          {| linhas_raw := Z.of_nat (length (remaining parse_number (rows df)));
             linhas_curated := Z.of_nat (length (deduplicated parse_number (rows df)));
             duplicados_removidos :=
               Z.of_nat (length (remaining parse_number (rows df)))
               - Z.of_nat (length (deduplicated parse_number (rows df)));
             total_acertos := sum_int64 (acertou <$> deduplicated parse_number (rows df)) |}).
Proof.
  intros Hc. unfold transform.
  rewrite (limpeza_basica_rows df Hc). cbn [mbind option_bind].
  rewrite acertou_int_rows. cbn [mbind option_bind].
  rewrite remove_sem_aluno_rows. cbn [mbind option_bind].
  reflexivity.
Qed.

End TransformRows.

(** ** Rows of a raw table through the stages *)

Lemma Forall_of_sublist {A} (P : A -> Prop) (l1 l2 : list A) :
  sublist l1 l2 -> Forall P l2 -> Forall P l1.
Proof.
  intros Hs H. apply Forall_forall. intros x Hx.
  eapply Forall_forall; [exact H|]. eapply elem_of_sublist; eassumption.
Qed.

Lemma wrap64_small z : - 2 ^ 63 <= z < 2 ^ 63 -> wrap64 z = z.
Proof.
  unfold wrap64. change (2 ^ 64) with (2 * 2 ^ 63).
  intros H. rewrite Z.mod_small; lia.
Qed.

Lemma sum_int64_bits_from (s : Series) : forall acc,
  Forall (fun c => c = Int 0 \/ c = Int 1) s ->
  0 <= acc -> acc + Z.of_nat (length s) < 2 ^ 63 ->
  acc <= fold_left (fun acc c => match c with
                                 | Int z => wrap64 (acc + z)
                                 | _ => acc
                                 end) s acc
      <= acc + Z.of_nat (length s).
Proof.
  induction s as [|c s IH]; intros acc Hs Hacc Hlen.
  - simpl. lia.
  - apply Forall_cons in Hs as [Hc Hs]. cbn [fold_left].
    rewrite length_cons, Nat2Z.inj_succ in Hlen |- *.
    destruct Hc as [-> | ->].
    + rewrite wrap64_small by lia. specialize (IH (acc + 0) Hs). lia.
    + rewrite wrap64_small by lia. specialize (IH (acc + 1) Hs). lia.
Qed.

Lemma sum_int64_bits (s : Series) :
  Forall (fun c => c = Int 0 \/ c = Int 1) s ->
  Z.of_nat (length s) < 2 ^ 63 ->
  0 <= sum_int64 s <= Z.of_nat (length s).
Proof.
  intros Hs Hlen. unfold sum_int64.
  pose proof (sum_int64_bits_from s 0 Hs). lia.
Qed.

Section RawRows.

Variable parse_number : string -> option Z.

Lemma clean_row_10 c0 c1 c2 c3 c4 c5 c6 c7 c8 c9 :
  coerce_row parse_number (clean_row [c0; c1; c2; c3; c4; c5; c6; c7; c8; c9])
  = [c0; Str (clean_text c1); Str (clean_text c2); Str (clean_text c3);
     Str (clean_text c4); Str (clean_text c5); Str (clean_text c6);
     Str (clean_text c7); Str (clean_text c8); Int (coerce parse_number c9)].
Proof. reflexivity. Qed.

Lemma curated_after_cleaning r :
  length r = 10%nat -> curated_row (coerce_row parse_number (clean_row r)).
Proof.
  intros H. apply length10 in H as (c0&c1&c2&c3&c4&c5&c6&c7&c8&c9&->).
  rewrite clean_row_10. unfold curated_row. eauto 12.
Qed.

Lemma acertou_after_cleaning r :
  length r = 10%nat ->
  acertou (coerce_row parse_number (clean_row r))
  = Int (coerce parse_number (acertou r)).
Proof.
  intros H. apply length10 in H as (c0&c1&c2&c3&c4&c5&c6&c7&c8&c9&->).
  reflexivity.
Qed.

Lemma cleaned_curated l :
  aligned (mkDataFrame REQUIRED_COLUMNS l) ->
  Forall curated_row (coerce_row parse_number <$> (clean_row <$> l)).
Proof.
  unfold aligned. cbn [columns rows]. intros H.
  rewrite <- list_fmap_compose. apply Forall_fmap.
  eapply Forall_impl; [exact H|]. intros r Hr. now apply curated_after_cleaning.
Qed.

Lemma remaining_curated l :
  aligned (mkDataFrame REQUIRED_COLUMNS l) ->
  Forall curated_row (remaining parse_number l).
Proof.
  intros H. eapply Forall_of_sublist; [apply sublist_filter|].
  now apply cleaned_curated.
Qed.

Lemma deduplicated_curated l :
  aligned (mkDataFrame REQUIRED_COLUMNS l) ->
  Forall curated_row (deduplicated parse_number l).
Proof.
  intros H. eapply Forall_of_sublist; [apply keep_last_sublist|].
  now apply remaining_curated.
Qed.

Lemma curated_rows_perm l :
  curated_rows parse_number l ≡ₚ deduplicated parse_number l.
Proof. apply merge_sort_Permutation. Qed.

Lemma curated_rows_curated l :
  aligned (mkDataFrame REQUIRED_COLUMNS l) ->
  Forall curated_row (curated_rows parse_number l).
Proof.
  intros H. rewrite curated_rows_perm. now apply deduplicated_curated.
Qed.

End RawRows.

(** ** The consolidation step *)

Section TransformClaims.

Variable parse_number : string -> option Z.

(** C1. On a raw table the stages of [transform] succeed; [rem] is the
    table left once the rows whose trimmed [aluno] is empty are dropped.
    For every key (aluno, question_id) the curated table holds exactly the
    last row of [rem] with that key: one row when the key occurs in [rem],
    none otherwise. *)
Theorem transform_keeps_last_answer (df : DataFrame) :
  raw_table df ->
  exists cleaned rem cur m,
    limpeza_basica df ≫= acertou_int parse_number = Some cleaned /\
    remove_sem_aluno cleaned = Some rem /\
    rows rem = filter (fun r => aluno r <> Str "") (rows cleaned) /\
    transform parse_number df = Some (cur, m) /\
    forall a q : cell,
      filter (fun r => aluno r = a /\ question_id r = q) (rows cur)
      = option_list
          (last (filter (fun r => aluno r = a /\ question_id r = q) (rows rem))).
Proof.
  intros [Hc _]. destruct df as [cs l]. cbn [columns] in Hc. subst cs.
  exists (mkDataFrame REQUIRED_COLUMNS (coerce_row parse_number <$> (clean_row <$> l))),
         (mkDataFrame REQUIRED_COLUMNS (remaining parse_number l)).
  eexists _, _. split; [|split; [|split; [|split]]].
  - rewrite limpeza_basica_rows by reflexivity. cbn [mbind option_bind rows].
    apply acertou_int_rows.
  - apply remove_sem_aluno_rows.
  - reflexivity.
  - now apply transform_rows.
  - intros a q. cbn [rows].
    assert (Hkey : forall r : list cell,
               row_key [2; 4]%nat r = [a; q] <-> aluno r = a /\ question_id r = q).
    { intros r. unfold row_key, aluno, question_id. csimpl. split.
      - intros [= -> ->]. now split.
      - intros [-> ->]. reflexivity. }
    rewrite <- !(fun l0 => list_filter_iff _ _ l0 Hkey).
    pose proof (keep_last_filter (row_key [2; 4]%nat) [a; q]
                  (remaining parse_number l)) as Hlast.
    fold (deduplicated parse_number l) in Hlast.
    assert (Hperm : filter (fun r => row_key [2; 4]%nat r = [a; q])
                      (curated_rows parse_number l)
                    ≡ₚ filter (fun r => row_key [2; 4]%nat r = [a; q])
                         (deduplicated parse_number l))
      by now rewrite curated_rows_perm.
    rewrite Hlast in Hperm.
    destruct (last _) as [r|]; cbn [option_list] in *.
    + now apply Permutation_singleton_r.
    + now apply Permutation_nil_r.
Qed.

(** C2, as amended. The metrics of [transform] satisfy
    linhas_raw - linhas_curated = duplicados_removidos, and
    linhas_curated is the number of curated rows. When every curated row
    holds 0 or 1 in [acertou] (and the rows are fewer than 2^63, so that the
    64-bit sum does not wrap), total_acertos <= linhas_curated. *)
Theorem transform_metrics_consistent (df cur : DataFrame) (m : Metrics) :
  raw_table df ->
  transform parse_number df = Some (cur, m) ->
  linhas_raw m - linhas_curated m = duplicados_removidos m /\
  linhas_curated m = shape0 cur /\
  (Forall (fun r => acertou r = Int 0 \/ acertou r = Int 1) (rows cur) ->
   linhas_curated m < 2 ^ 63 ->
   0 <= total_acertos m <= linhas_curated m).
Proof.
  intros [Hc _] Ht. rewrite (transform_rows parse_number df Hc) in Ht.
  injection Ht as <- <-. cbn [linhas_raw linhas_curated duplicados_removidos
                               total_acertos rows]. unfold shape0. cbn [rows].
  pose proof (curated_rows_perm parse_number (rows df)) as Hperm.
  split; [reflexivity|]. split; [now rewrite Hperm|].
  intros Hbits Hlen. rewrite Hperm in Hbits.
  pose proof (sum_int64_bits (acertou <$> deduplicated parse_number (rows df))) as Hsum.
  rewrite length_fmap in Hsum. apply Hsum; [|exact Hlen].
  now apply Forall_fmap.
Qed.

(** C5. On a raw table neither the coercion of [acertou] nor [transform]
    raises. Row by row the coerced value is an integer: 0 for a missing
    value and for a text that does not parse, the parsed number (as a
    64-bit integer) otherwise. Every curated row holds an integer. *)
Theorem transform_coerces_acertou (df : DataFrame) :
  raw_table df ->
  exists df1 df2 cur m,
    limpeza_basica df = Some df1 /\
    acertou_int parse_number df1 = Some df2 /\
    transform parse_number df = Some (cur, m) /\
    length (rows df2) = length (rows df) /\
    (forall (i : nat) (r : list cell), rows df !! i = Some r ->
       exists r2 z, rows df2 !! i = Some r2 /\ acertou r2 = Int z /\
         (acertou r = NA -> z = 0) /\
         (forall t, acertou r = Str t -> parse_number t = None -> z = 0) /\
         (forall t n, acertou r = Str t -> parse_number t = Some n -> z = wrap64 n)) /\
    Forall (fun r => exists z, acertou r = Int z) (rows cur).
Proof.
  intros [Hc Ha]. destruct df as [cs l]. cbn [columns] in Hc. subst cs.
  exists (mkDataFrame REQUIRED_COLUMNS (clean_row <$> l)),
         (mkDataFrame REQUIRED_COLUMNS (coerce_row parse_number <$> (clean_row <$> l))).
  eexists _, _. split; [|split; [|split; [|split; [|split]]]].
  - now apply limpeza_basica_rows.
  - apply acertou_int_rows.
  - now apply transform_rows.
  - cbn [rows]. now rewrite !length_fmap.
  - cbn [rows]. intros i r Hi.
    exists (coerce_row parse_number (clean_row r)), (coerce parse_number (acertou r)).
    assert (Hlen : length r = 10%nat).
    { unfold aligned in Ha. cbn [rows columns] in Ha.
      eapply Forall_lookup_1 in Ha; [exact Ha | exact Hi]. }
    split; [now rewrite !list_lookup_fmap, Hi|].
    split; [now apply acertou_after_cleaning|].
    unfold coerce. split; [now intros ->|]. split.
    + intros t -> Hp. now rewrite Hp.
    + intros t n -> Hp. now rewrite Hp.
  - cbn [rows]. eapply Forall_impl; [now apply curated_rows_curated|].
    intros r (ts&s1&s2&s3&s4&s5&s6&s7&s8&z&->). now exists z.
Qed.

(** C6. On a raw table [transform] returns a curated table whose
    consecutive rows are in ascending order of the tuple
    (turma, aluno, bloco, question_id), compared as texts in that
    priority; the four keys of every curated row are texts. *)
Theorem transform_sorted (df : DataFrame) :
  raw_table df ->
  exists cur m,
    transform parse_number df = Some (cur, m) /\
    Forall curated_row (rows cur) /\
    Sorted (fun r1 r2 => tuple4_le (sort_key r1) (sort_key r2)) (rows cur).
Proof.
  intros [Hc Ha]. destruct df as [cs l]. cbn [columns] in Hc. subst cs.
  eexists _, _. split; [now apply transform_rows|]. cbn [rows].
  pose proof (curated_rows_curated parse_number l Ha) as Hcur.
  split; [exact Hcur|].
  eapply (Sorted_weaken (key_le [1; 2; 3; 4]%nat)); [exact Hcur | |].
  - intros r1 r2. apply key_le_tuple4.
  - apply Sorted_merge_sort. apply _.
Qed.

End TransformClaims.

Lemma transform_keeps_last_answer_witness :
  raw_table sample_raw /\
  exists cleaned rem cur m,
    limpeza_basica sample_raw ≫= acertou_int int_literal = Some cleaned /\
    remove_sem_aluno cleaned = Some rem /\
    rows rem = filter (fun r => aluno r <> Str "") (rows cleaned) /\
    transform int_literal sample_raw = Some (cur, m) /\
    forall a q : cell,
      filter (fun r => aluno r = a /\ question_id r = q) (rows cur)
      = option_list
          (last (filter (fun r => aluno r = a /\ question_id r = q) (rows rem))).
Proof.
  split; [split; [reflexivity | repeat constructor]|].
  apply (transform_keeps_last_answer int_literal sample_raw).
  split; [reflexivity | repeat constructor].
Defined.

(** C2 as stated fails: one answer whose [acertou] is 2 gives
    total_acertos = 2 for a single curated row. *)
Lemma total_acertos_exceeds_rows :
  exists cur m,
    transform int_literal two_raw = Some (cur, m) /\
    linhas_curated m = 1 /\ total_acertos m = 2 /\
    ~ total_acertos m <= linhas_curated m.
Proof.
  eexists _, _. split; [vm_compute; reflexivity|].
  cbn [linhas_curated total_acertos]. repeat split. lia.
Qed.

Lemma transform_metrics_consistent_witness :
  raw_table sample_raw /\
  transform int_literal sample_raw = Some (sample_curated, sample_metrics) /\
  (linhas_raw sample_metrics - linhas_curated sample_metrics
   = duplicados_removidos sample_metrics /\
   linhas_curated sample_metrics = shape0 sample_curated /\
   (Forall (fun r => acertou r = Int 0 \/ acertou r = Int 1) (rows sample_curated) ->
    linhas_curated sample_metrics < 2 ^ 63 ->
    0 <= total_acertos sample_metrics <= linhas_curated sample_metrics)).
Proof.
  split; [split; [reflexivity | repeat constructor]|].
  split; [vm_compute; reflexivity|].
  apply (transform_metrics_consistent int_literal sample_raw).
  - split; [reflexivity | repeat constructor].
  - vm_compute; reflexivity.
Defined.

Lemma transform_coerces_acertou_witness :
  raw_table sample_raw /\
  exists df1 df2 cur m,
    limpeza_basica sample_raw = Some df1 /\
    acertou_int int_literal df1 = Some df2 /\
    transform int_literal sample_raw = Some (cur, m) /\
    length (rows df2) = length (rows sample_raw) /\
    (forall (i : nat) (r : list cell), rows sample_raw !! i = Some r ->
       exists r2 z, rows df2 !! i = Some r2 /\ acertou r2 = Int z /\
         (acertou r = NA -> z = 0) /\
         (forall t, acertou r = Str t -> int_literal t = None -> z = 0) /\
         (forall t n, acertou r = Str t -> int_literal t = Some n -> z = wrap64 n)) /\
    Forall (fun r => exists z, acertou r = Int z) (rows cur).
Proof.
  split; [split; [reflexivity | repeat constructor]|].
  apply (transform_coerces_acertou int_literal sample_raw).
  split; [reflexivity | repeat constructor].
Defined.

Lemma transform_sorted_witness :
  raw_table sample_raw /\
  exists cur m,
    transform int_literal sample_raw = Some (cur, m) /\
    Forall curated_row (rows cur) /\
    Sorted (fun r1 r2 => tuple4_le (sort_key r1) (sort_key r2)) (rows cur).
Proof.
  split; [split; [reflexivity | repeat constructor]|].
  apply (transform_sorted int_literal sample_raw).
  split; [reflexivity | repeat constructor].
Defined.

(** ** Extraction *)

Lemma col_index_lt c cs : forall i, col_index c cs = Some i -> (i < length cs)%nat.
Proof.
  induction cs as [|c' cs IH]; intros i; simpl; [discriminate|].
  destruct (String.eqb c c').
  - intros [= <-]. lia.
  - destruct (col_index c cs) as [j|]; [|discriminate].
    intros [= <-]. specialize (IH j eq_refl). lia.
Qed.

Lemma col_index_app c cs es :
  col_index c (cs ++ es)
  = match col_index c cs with
    | Some i => Some i
    | None => (fun j => (length cs + j)%nat) <$> col_index c es
    end.
Proof.
  induction cs as [|c' cs IH]; simpl.
  - now destruct (col_index c es).
  - destruct (String.eqb c c'); [reflexivity|]. rewrite IH.
    destruct (col_index c cs); [reflexivity|].
    now destruct (col_index c es).
Qed.

Lemma col_index_self c : col_index c [c] = Some 0%nat.
Proof. simpl. now rewrite String.eqb_refl. Qed.

Lemma mapM_Some_fn {A B} (f : A -> option B) (g : A -> B) (l : list A) :
  (forall x, x ∈ l -> f x = Some (g x)) -> mapM f l = Some (g <$> l).
Proof.
  intros H. apply mapM_Some. apply Forall2_fmap_r, Forall_Forall2_diag.
  apply Forall_forall. exact H.
Qed.

Lemma setitem_scalar_new cs l c v :
  col_index c cs = None ->
  setitem_scalar (mkDataFrame cs l) c v
  = mkDataFrame (cs ++ [c]) ((fun r => r ++ [v]) <$> l).
Proof.
  intros H. unfold setitem_scalar, setitem. cbn [columns rows]. rewrite H.
  f_equal. induction l as [|r l IH]; csimpl; [reflexivity | now rewrite IH].
Qed.

Lemma col_index_app_l c cs es :
  is_Some (col_index c cs) -> col_index c (cs ++ es) = col_index c cs.
Proof. intros [i Hi]. now rewrite col_index_app, Hi. Qed.

Lemma col_index_app_r c cs es :
  is_Some (col_index c es) -> is_Some (col_index c (cs ++ es)).
Proof.
  intros [j Hj]. rewrite col_index_app, Hj.
  destruct (col_index c cs); csimpl; eauto.
Qed.

Lemma setitem_scalar_padded cs l extra c :
  col_index c (cs ++ extra) = None ->
  setitem_scalar (padded cs l extra) c (Str "") = padded cs l (extra ++ [c]).
Proof.
  intros H. unfold padded. rewrite setitem_scalar_new by exact H.
  rewrite <- (assoc_L (++)). f_equal. rewrite <- list_fmap_compose.
  apply list_fmap_ext. intros _ r _. cbn [compose].
  rewrite <- (assoc_L (++)). f_equal.
  rewrite length_app. cbn [length]. rewrite Nat.add_1_r.
  now rewrite replicate_S_end.
Qed.

Lemma add_missing_padded cs l req : forall extra,
  exists more,
    foldl (fun df col =>
             if has_column df col then df else setitem_scalar df col (Str ""))
          (padded cs l extra) req
    = padded cs l (extra ++ more) /\
    (forall c, c ∈ req -> is_Some (col_index c (cs ++ extra ++ more))).
Proof.
  induction req as [|c req IH]; intros extra.
  - exists []. rewrite (right_id_L [] (++)). split; [reflexivity|].
    intros c Hc. now apply elem_of_nil in Hc.
  - cbn [foldl]. unfold has_column at 2. cbn [columns padded].
    case_bool_decide as Hhas.
    + destruct (IH extra) as (more & Hf & Hreq).
      exists more. split; [exact Hf|].
      intros c' [->|Hc']%elem_of_cons; [|now apply Hreq].
      rewrite (assoc_L (++)). now rewrite col_index_app_l.
    + assert (Hnone : col_index c (cs ++ extra) = None).
      { destruct (col_index c (cs ++ extra)) eqn:E; [|reflexivity].
        exfalso. apply Hhas. eauto. }
      fold (padded cs l extra). rewrite (setitem_scalar_padded _ _ _ _ Hnone).
      destruct (IH (extra ++ [c])) as (more & Hf & Hreq).
      exists ([c] ++ more). rewrite (assoc_L (++) extra). split; [exact Hf|].
      intros c' [->|Hc']%elem_of_cons; [|now apply Hreq].
      rewrite !(assoc_L (++)). rewrite col_index_app_l.
      * apply col_index_app_r. rewrite col_index_self. eauto.
      * apply col_index_app_r. rewrite col_index_self. eauto.
Qed.

Lemma padded_nil cs l : padded cs l [] = mkDataFrame cs l.
Proof.
  unfold padded. rewrite (right_id_L [] (++)). f_equal.
  rewrite <- (list_fmap_id l) at 2. apply list_fmap_ext.
  intros _ r _. cbn [length replicate]. now rewrite (right_id_L [] (++)).
Qed.

Lemma at_col_padded cs more (r : list cell) c :
  length r = length cs ->
  is_Some (col_index c (cs ++ more)) ->
  at_col (default 0%nat (col_index c (cs ++ more)))
         (r ++ replicate (length more) (Str ""))
  = extracted_cell cs r c.
Proof.
  intros Hlen Hsome. unfold extracted_cell, at_col.
  rewrite col_index_app in Hsome |- *.
  destruct (col_index c cs) as [i|] eqn:Hi; cbn [default from_option id].
  - apply col_index_lt in Hi. rewrite lookup_app_l by lia. reflexivity.
  - destruct (col_index c more) as [j|] eqn:Hj; [|now destruct Hsome].
    apply col_index_lt in Hj. cbn [fmap option_fmap option_map from_option id].
    rewrite lookup_app_r by lia.
    replace (length cs + j - length r)%nat with j by lia.
    now rewrite lookup_replicate_2.
Qed.

(** Adding the missing required columns and selecting the required ones
    lays every row out on [REQUIRED_COLUMNS]. *)
Lemma normalize_rows cs l :
  Forall (fun r => length r = length cs) l ->
  select (foldl (fun df col =>
                   if has_column df col then df
                   else setitem_scalar df col (Str ""))
                (mkDataFrame cs l) REQUIRED_COLUMNS)
         REQUIRED_COLUMNS
  = Some (mkDataFrame REQUIRED_COLUMNS (extracted_row cs <$> l)).
Proof.
  intros Hal. rewrite <- (padded_nil cs l).
  destruct (add_missing_padded cs l REQUIRED_COLUMNS []) as (more & -> & Hreq).
  cbn [app] in *. unfold select, padded. cbn [columns rows].
  rewrite (mapM_Some_fn _ (fun c => default 0%nat (col_index c (cs ++ more)))).
  2:{ intros c Hc. destruct (Hreq c Hc) as [i Hi]. now rewrite Hi. }
  cbn [mbind option_bind]. do 2 f_equal.
  rewrite <- list_fmap_compose. apply list_fmap_ext. intros k r Hr.
  cbn [compose]. unfold extracted_row. rewrite <- list_fmap_compose.
  apply list_fmap_ext. intros k' c Hc. cbn [compose].
  apply at_col_padded.
  - eapply Forall_lookup_1 in Hal; [exact Hal | exact Hr].
  - apply Hreq. eapply list_elem_of_lookup_2. exact Hc.
Qed.

Lemma width_ge (hdr : list string) (recs : list (list string)) :
  (length hdr <= width hdr recs)%nat.
Proof. unfold width. destruct recs; lia. Qed.

Lemma read_record_length hdr recs (r : list string) :
  (length r <= width hdr recs)%nat ->
  length (read_record hdr recs r) = length hdr.
Proof.
  intros H. pose proof (width_ge hdr recs). unfold read_record, leading.
  rewrite length_fmap, length_drop, length_app, length_replicate. lia.
Qed.

Lemma at_col_read_record hdr recs (r : list string) (j : nat) :
  (length r <= width hdr recs)%nat -> (j < length hdr)%nat ->
  at_col j (read_record hdr recs r)
  = Str (default EmptyString (r !! (leading hdr recs + j)%nat)).
Proof.
  intros Hr Hj. pose proof (width_ge hdr recs) as Hw.
  unfold at_col, read_record. rewrite list_lookup_fmap, lookup_drop.
  destruct (r !! (leading hdr recs + j)%nat) as [s|] eqn:E.
  - rewrite lookup_app_l by (eapply lookup_lt_Some; exact E).
    now rewrite E.
  - apply lookup_ge_None in E. rewrite lookup_app_r by lia.
    rewrite lookup_replicate_2; [reflexivity|]. unfold leading in *. lia.
Qed.

(** A record read and laid out on the required columns. *)
Lemma extracted_read_record hdr recs (r : list string) :
  (length r <= width hdr recs)%nat ->
  extracted_row hdr (read_record hdr recs r) = Str <$> normalized_record hdr recs r.
Proof.
  intros Hr. unfold extracted_row, normalized_record.
  rewrite <- list_fmap_compose. apply list_fmap_ext. intros _ c _.
  cbn [compose]. unfold extracted_cell.
  destruct (col_index c hdr) as [j|] eqn:E; [|reflexivity].
  apply at_col_read_record; [exact Hr | now apply col_index_lt in E].
Qed.

Lemma path_exists_file fs p (t : string) :
  files fs !! p = Some t -> path_exists fs p = true.
Proof. intros H. unfold path_exists. apply bool_decide_eq_true. left. eauto. Qed.

Lemma normalized_record_length hdr recs rec :
  length (normalized_record hdr recs rec) = 10%nat.
Proof. reflexivity. Qed.

Lemma normalized_table_raw hdr recs : raw_table (normalized_table hdr recs).
Proof.
  split; [reflexivity|]. unfold aligned, normalized_table. cbn [columns rows].
  apply Forall_fmap, Forall_forall. now intros r _.
Qed.

Lemma rows_text_normalized hdr recs :
  rows_text (normalized_table hdr recs) = normalized_record hdr recs <$> recs.
Proof.
  unfold rows_text, normalized_table. cbn [rows]. rewrite <- list_fmap_compose.
  apply list_fmap_ext. intros _ r _. cbn [compose].
  rewrite <- list_fmap_compose. apply list_fmap_id.
Qed.

Lemma empty_table_raw : raw_table empty_table.
Proof. split; [reflexivity | constructor]. Qed.

Section Extraction.

Variable tokenize : string -> option (list (list string)).

Lemma read_csv_lines t hdr recs :
  tokenize t = Some (hdr :: recs) ->
  Forall (fun r => (length r <= width hdr recs)%nat) recs ->
  read_csv tokenize t = Some (mkDataFrame hdr (read_record hdr recs <$> recs)).
Proof.
  intros Ht Hw. unfold read_csv. rewrite Ht. cbn [mbind option_bind].
  now rewrite bool_decide_eq_true_2.
Qed.

Lemma read_csv_Some t df :
  read_csv tokenize t = Some df ->
  exists hdr recs,
    tokenize t = Some (hdr :: recs) /\
    Forall (fun r => (length r <= width hdr recs)%nat) recs /\
    df = mkDataFrame hdr (read_record hdr recs <$> recs).
Proof.
  unfold read_csv. destruct (tokenize t) as [[|hdr recs]|];
    cbn [mbind option_bind]; try discriminate.
  case_bool_decide as Hw; [|discriminate]. intros [= <-]. eauto.
Qed.

Lemma read_csv_aligned t df : read_csv tokenize t = Some df -> aligned df.
Proof.
  intros (hdr & recs & _ & Hw & ->)%read_csv_Some. unfold aligned.
  cbn [columns rows]. apply Forall_fmap. eapply Forall_impl; [exact Hw|].
  intros r Hr. cbn [compose]. now apply read_record_length.
Qed.

(** What [extract] returns on a file that [read_csv] accepts. *)
Lemma extract_file fs p t hdr recs :
  files fs !! p = Some t ->
  tokenize t = Some (hdr :: recs) ->
  Forall (fun r => (length r <= width hdr recs)%nat) recs ->
  extract tokenize p fs = Some (normalized_table hdr recs).
Proof.
  intros Hf Ht Hw. unfold extract. rewrite (path_exists_file _ _ _ Hf).
  cbn [negb]. rewrite Hf. cbn [mbind option_bind].
  rewrite (read_csv_lines _ _ _ Ht Hw). cbn [mbind option_bind].
  rewrite normalize_rows.
  - unfold normalized_table. do 2 f_equal. rewrite <- list_fmap_compose.
    apply Forall_fmap_ext_1. eapply Forall_impl; [exact Hw|].
    intros r Hr. cbn [compose]. now apply extracted_read_record.
  - apply Forall_fmap. eapply Forall_impl; [exact Hw|].
    intros r Hr. cbn [compose]. now apply read_record_length.
Qed.

(** [extract] returns on a file only when [read_csv] accepts it. *)
Lemma extract_file_inv fs p t df :
  files fs !! p = Some t ->
  extract tokenize p fs = Some df ->
  exists hdr recs,
    tokenize t = Some (hdr :: recs) /\
    Forall (fun r => (length r <= width hdr recs)%nat) recs /\
    df = normalized_table hdr recs.
Proof.
  intros Hf Hx. pose proof Hx as Hx'. unfold extract in Hx'.
  rewrite (path_exists_file _ _ _ Hf), Hf in Hx'. cbn [negb mbind option_bind] in Hx'.
  destruct (read_csv tokenize t) as [df0|] eqn:Hr; [|discriminate].
  apply read_csv_Some in Hr as (hdr & recs & Ht & Hw & _).
  exists hdr, recs. split; [exact Ht|]. split; [exact Hw|].
  rewrite (extract_file _ _ _ _ _ Hf Ht Hw) in Hx. now injection Hx.
Qed.

Lemma extract_missing fs p :
  path_exists fs p = false -> extract tokenize p fs = Some empty_table.
Proof. intros H. unfold extract. now rewrite H. Qed.

(** The two ways [extract] returns. *)
Lemma extract_inv fs p df :
  extract tokenize p fs = Some df ->
  (path_exists fs p = false /\ df = empty_table) \/
  (exists t hdr recs,
     files fs !! p = Some t /\
     tokenize t = Some (hdr :: recs) /\
     Forall (fun r => (length r <= width hdr recs)%nat) recs /\
     df = normalized_table hdr recs).
Proof.
  intros Hx. destruct (path_exists fs p) eqn:He.
  - right. destruct (files fs !! p) as [t|] eqn:Hf.
    + destruct (extract_file_inv _ _ _ _ Hf Hx) as (hdr & recs & H).
      exists t, hdr, recs. tauto.
    + unfold extract in Hx. rewrite He, Hf in Hx. discriminate.
  - left. split; [reflexivity|]. rewrite (extract_missing _ _ He) in Hx.
    now injection Hx.
Qed.

(** Whatever [extract] returns is a raw table. *)
Lemma extract_raw_table fs p df : extract tokenize p fs = Some df -> raw_table df.
Proof.
  intros [[_ ->] | (t & hdr & recs & _ & _ & _ & ->)]%extract_inv.
  - apply empty_table_raw.
  - apply normalized_table_raw.
Qed.

(** Every value [extract] returns is a text: writing the rows and taking
    the fields as texts gives the rows back. *)
Lemma extract_rows_text fs p df :
  extract tokenize p fs = Some df ->
  (fun rec : list string => Str <$> rec) <$> rows_text df = rows df.
Proof.
  intros [[_ ->] | (t & hdr & recs & _ & _ & _ & ->)]%extract_inv.
  - reflexivity.
  - rewrite rows_text_normalized. unfold normalized_table. cbn [rows].
    now rewrite <- list_fmap_compose.
Qed.


End Extraction.

(** ** Writing files *)

Lemma ancestors_length (d a : path) :
  a ∈ ancestors d -> (length a <= length d)%nat.
Proof.
  unfold ancestors. intros (n & -> & Hn)%list_elem_of_fmap.
  rewrite length_take. lia.
Qed.

Lemma ancestors_self (d : path) : d ∈ ancestors d.
Proof.
  unfold ancestors. apply list_elem_of_fmap. exists (length d). split.
  - now rewrite firstn_all.
  - apply elem_of_seq. lia.
Qed.

Lemma parent_length (p : path) : p <> [] -> (length (parent p) < length p)%nat.
Proof.
  intros Hp. unfold parent.
  destruct p as [|x p] using rev_ind; [congruence|].
  rewrite removelast_last, length_app. cbn [length]. lia.
Qed.

Lemma not_own_ancestor (p : path) : p <> [] -> p ∉ ancestors (parent p).
Proof.
  intros Hp Hin. apply ancestors_length in Hin.
  pose proof (parent_length p Hp). lia.
Qed.

Lemma ensure_parent_dir_Some p fs :
  Forall (fun a => files fs !! a = None) (ancestors (parent p)) ->
  ensure_parent_dir p fs = Some (with_parents p fs).
Proof.
  intros H. unfold ensure_parent_dir, mkdir_parents.
  case_bool_decide as Hex; [|reflexivity].
  exfalso. apply Exists_exists in Hex as (a & Ha & [f Hf]).
  eapply Forall_forall in H; [|exact Ha]. congruence.
Qed.

Lemma ensure_parent_dir_inv p fs fs' :
  ensure_parent_dir p fs = Some fs' ->
  Forall (fun a => files fs !! a = None) (ancestors (parent p)) /\
  fs' = with_parents p fs.
Proof.
  unfold ensure_parent_dir, mkdir_parents.
  case_bool_decide as Hex; [discriminate|]. intros [= <-].
  split; [|reflexivity]. apply Forall_forall. intros a Ha.
  destruct (files fs !! a) eqn:E; [|reflexivity].
  exfalso. apply Hex, Exists_exists. eauto.
Qed.

Lemma write_file_with_parents p f fs :
  p <> [] -> p ∉ dirs fs ->
  write_file p f (with_parents p fs)
  = Some (mkFileSystem (dirs (with_parents p fs)) (<[p:=f]> (files fs))).
Proof.
  intros Hp Hd. unfold write_file. case_bool_decide as Hc; [reflexivity|].
  exfalso. apply Hc. cbn [with_parents dirs]. split.
  - apply elem_of_union_l, elem_of_list_to_set, ancestors_self.
  - intros [Hin%elem_of_list_to_set|Hin]%elem_of_union; [|contradiction].
    now apply (not_own_ancestor p Hp).
Qed.

Lemma write_file_inv p f fs fs' :
  write_file p f fs = Some fs' ->
  (p ∉ dirs fs) /\ fs' = mkFileSystem (dirs fs) (<[p:=f]> (files fs)).
Proof.
  unfold write_file. case_bool_decide as Hc; [|discriminate].
  intros [= <-]. now destruct Hc.
Qed.

Lemma load_writable df p fs :
  writable fs p ->
  load df p fs
  = Some (mkFileSystem (dirs (with_parents p fs)) (<[p:=to_csv df]> (files fs))).
Proof.
  intros (Hp & Hd & Hanc). unfold load.
  rewrite (ensure_parent_dir_Some _ _ Hanc). cbn [mbind option_bind].
  now apply write_file_with_parents.
Qed.

Lemma load_inv df p fs fs' :
  load df p fs = Some fs' ->
  Forall (fun a => files fs !! a = None) (ancestors (parent p)) /\
  (p ∉ dirs (with_parents p fs)) /\
  fs' = mkFileSystem (dirs (with_parents p fs)) (<[p:=to_csv df]> (files fs)).
Proof.
  unfold load. destruct (ensure_parent_dir p fs) as [fs1|] eqn:He; [|discriminate].
  cbn [mbind option_bind]. apply ensure_parent_dir_inv in He as [Hanc ->].
  intros [Hd ->]%write_file_inv. auto.
Qed.

(** ** The pipeline on the file system *)

Section PipelineClaims.

Variable tokenize : string -> option (list (list string)).

Variable parse_number : string -> option Z.

Lemma extract_ext p fs fs' :
  files fs' !! p = files fs !! p ->
  path_exists fs' p = path_exists fs p ->
  extract tokenize p fs' = extract tokenize p fs.
Proof. intros Hf He. unfold extract. now rewrite Hf, He. Qed.

Lemma extract_header_only fs p t hdr :
  files fs !! p = Some t -> tokenize t = Some [hdr] ->
  extract tokenize p fs = Some empty_table.
Proof.
  intros Hf Ht. now rewrite (extract_file tokenize _ _ _ _ _ Hf Ht (Forall_nil_2 _)).
Qed.

Lemma transform_empty :
  transform parse_number empty_table = Some (empty_table, zero_metrics).
Proof. unfold empty_table. now rewrite transform_rows. Qed.

(** C3, as amended. When the Raw Store file does not exist, or exists with
    a header line and no data row, and the curated file can be written,
    [run_pipeline] returns an empty curated table with the ten columns and
    metrics that are all zero, and writes a curated file of the header
    alone. *)
Theorem run_pipeline_empty (paths : ETLPaths) (fs : FileSystem) :
  writable fs (curated_csv paths) ->
  path_exists fs (raw_csv paths) = false \/
  (exists t hdr, files fs !! raw_csv paths = Some t /\ tokenize t = Some [hdr]) ->
  exists fs',
    run_pipeline tokenize parse_number paths fs
    = Some (fs', (empty_table, zero_metrics)) /\
    files fs' !! curated_csv paths = Some (csv_write [REQUIRED_COLUMNS]).
Proof.
  intros Hw Hraw.
  assert (He : extract tokenize (raw_csv paths) fs = Some empty_table).
  { destruct Hraw as [Hno | (t & hdr & Hf & Ht)].
    - now apply extract_missing.
    - now apply extract_header_only with t hdr. }
  unfold run_pipeline. rewrite He. cbn [mbind option_bind].
  rewrite transform_empty. cbn [mbind option_bind fst].
  rewrite (load_writable _ _ _ Hw). cbn [mbind option_bind].
  eexists. split; [reflexivity|]. cbn [files].
  now rewrite lookup_insert_eq.
Qed.

(** C8. When a run of the pipeline leaves the Raw Store as it found it, a
    second run returns the same table and metrics and leaves the whole file
    system, hence the content of the curated file, exactly as the first run
    left it; that content is what [to_csv] gives for the curated table. *)
Theorem run_pipeline_idempotent (paths : ETLPaths) (fs fs1 : FileSystem)
    (res : DataFrame * Metrics) :
  run_pipeline tokenize parse_number paths fs = Some (fs1, res) ->
  files fs1 !! raw_csv paths = files fs !! raw_csv paths ->
  path_exists fs1 (raw_csv paths) = path_exists fs (raw_csv paths) ->
  run_pipeline tokenize parse_number paths fs1 = Some (fs1, res) /\
  files fs1 !! curated_csv paths = Some (to_csv res.1).
Proof.
  unfold run_pipeline. intros Hrun Hfiles Hex.
  rewrite (extract_ext _ _ _ Hfiles Hex).
  destruct (extract tokenize (raw_csv paths) fs) as [df_raw|]; [|discriminate].
  cbn [mbind option_bind] in *.
  destruct (transform parse_number df_raw) as [res'|]; [|discriminate].
  cbn [mbind option_bind] in *.
  destruct (load res'.1 (curated_csv paths) fs) as [fs1'|] eqn:Hload; [|discriminate].
  cbn [mbind option_bind] in Hrun. injection Hrun as -> ->.
  apply load_inv in Hload as (Hanc & Hd & ->).
  set (p := curated_csv paths) in *. set (csv := to_csv res.1).
  split; [|cbn [files]; now rewrite lookup_insert_eq].
  assert (Hp : p <> []).
  { intros E. apply Hd. cbn [with_parents dirs]. rewrite E.
    apply elem_of_union_l, elem_of_list_to_set. apply ancestors_self. }
  rewrite load_writable.
  - cbn [mbind option_bind with_parents dirs files]. do 2 f_equal.
    f_equal; [|apply insert_insert_eq].
    apply set_eq. intros x. rewrite !elem_of_union. tauto.
  - split; [exact Hp|]. split; [exact Hd|]. cbn [files].
    apply Forall_forall. intros a Ha.
    rewrite lookup_insert_ne.
    + eapply Forall_forall in Hanc; [exact Hanc | exact Ha].
    + intros <-. now apply (not_own_ancestor p Hp).
Qed.

End PipelineClaims.

(** ** The Response Recorder *)

Lemma reindex_required l :
  Forall (fun r : list cell => length r = 10%nat) l ->
  reindex REQUIRED_COLUMNS (mkDataFrame REQUIRED_COLUMNS l) = l.
Proof.
  intros H. unfold reindex. cbn [columns rows].
  rewrite <- (list_fmap_id l) at 2. apply list_fmap_ext. intros i r Hr.
  eapply Forall_lookup_1 in H; [|exact Hr].
  apply length10 in H as (c0&c1&c2&c3&c4&c5&c6&c7&c8&c9&->). reflexivity.
Qed.

Lemma concat_required l1 l2 :
  Forall (fun r : list cell => length r = 10%nat) l1 ->
  Forall (fun r : list cell => length r = 10%nat) l2 ->
  concat (mkDataFrame REQUIRED_COLUMNS l1) (mkDataFrame REQUIRED_COLUMNS l2)
  = mkDataFrame REQUIRED_COLUMNS (l1 ++ l2).
Proof.
  intros H1 H2. unfold concat. cbn [columns].
  change (REQUIRED_COLUMNS
          ++ filter (fun c => col_index c REQUIRED_COLUMNS = None) REQUIRED_COLUMNS)
    with REQUIRED_COLUMNS.
  now rewrite !reindex_required.
Qed.

(** The text written for a raw table and a record after it. *)
Lemma append_frame df row :
  raw_table df ->
  to_csv (concat df (frame_of_record row REQUIRED_COLUMNS))
  = csv_write (REQUIRED_COLUMNS :: rows_text df ++ [record_text row]).
Proof.
  intros [Hc Ha]. destruct df as [cs l]. cbn [columns] in Hc. subst cs.
  unfold aligned in Ha. cbn [columns rows] in Ha.
  unfold frame_of_record. rewrite concat_required; [|exact Ha|].
  - unfold to_csv, rows_text, record_text. cbn [columns rows]. do 2 f_equal.
    rewrite fmap_app. f_equal.
  - constructor; [reflexivity | constructor].
Qed.

Lemma path_exists_with_parents p fs :
  p <> [] -> path_exists (with_parents p fs) p = path_exists fs p.
Proof.
  intros Hp. unfold path_exists. apply bool_decide_ext. cbn [with_parents files dirs].
  rewrite elem_of_union, elem_of_list_to_set.
  pose proof (not_own_ancestor p Hp). tauto.
Qed.

Section Recorder.

Variable tokenize : string -> option (list (list string)).

Lemma append_raw_row_inv paths row fs fs' :
  append_raw_row tokenize paths row fs = Some fs' ->
  exists df,
    extract tokenize (raw_csv paths) (with_parents (raw_csv paths) fs) = Some df /\
    fs' = mkFileSystem (dirs (with_parents (raw_csv paths) fs))
            (<[raw_csv paths :=
                 csv_write (REQUIRED_COLUMNS :: rows_text df ++ [record_text row])]>
               (files fs)).
Proof.
  unfold append_raw_row.
  destruct (ensure_parent_dir (raw_csv paths) fs) as [fs1|] eqn:He; [|discriminate].
  cbn [mbind option_bind]. apply ensure_parent_dir_inv in He as [_ ->].
  destruct (extract _ _ _) as [df|] eqn:Hx; [|discriminate].
  cbn [mbind option_bind].
  rewrite (append_frame df row (extract_raw_table _ _ _ _ Hx)).
  intros [_ ->]%write_file_inv. exists df. split; reflexivity.
Qed.

Lemma append_raw_row_writable paths row fs df :
  writable fs (raw_csv paths) ->
  extract tokenize (raw_csv paths) (with_parents (raw_csv paths) fs) = Some df ->
  append_raw_row tokenize paths row fs
  = Some (mkFileSystem (dirs (with_parents (raw_csv paths) fs))
            (<[raw_csv paths :=
                 csv_write (REQUIRED_COLUMNS :: rows_text df ++ [record_text row])]>
               (files fs))).
Proof.
  intros (Hp & Hd & Hanc) Hx. unfold append_raw_row.
  rewrite (ensure_parent_dir_Some _ _ Hanc). cbn [mbind option_bind].
  rewrite Hx. cbn [mbind option_bind].
  rewrite (append_frame df row (extract_raw_table _ _ _ _ Hx)).
  now apply write_file_with_parents.
Qed.

Lemma extract_with_parents p fs :
  p <> [] -> extract tokenize p (with_parents p fs) = extract tokenize p fs.
Proof.
  intros Hp. apply extract_ext; [reflexivity|]. now apply path_exists_with_parents.
Qed.


(** C10. After any append that succeeds, the Raw Store file is the line of
    the ten required labels followed by records of ten fields. When the
    file existed before, it was one that [pd.read_csv] accepts, it holds
    one record more than it did, and every record it had is rewritten in
    place on the ten labels: a required column present before keeps the
    field of the record under that label, counted after the leading fields
    pandas takes for the index when the records are longer than the line
    of the labels, and the empty text when the record was too short; a
    required column absent before holds the empty text; the columns outside
    the required set are gone. *)
Theorem append_raw_row_normalizes (paths : ETLPaths) (row : gmap string cell)
    (fs fs' : FileSystem) :
  append_raw_row tokenize paths row fs = Some fs' ->
  exists recs' : list (list string),
    files fs' !! raw_csv paths = Some (csv_write (REQUIRED_COLUMNS :: recs')) /\
    Forall (fun rec => length rec = 10%nat) recs' /\
    forall t : string, files fs !! raw_csv paths = Some t ->
      exists (hdr : list string) (recs : list (list string)),
        tokenize t = Some (hdr :: recs) /\
        Forall (fun r => (length r <= width hdr recs)%nat) recs /\
        length recs' = S (length recs) /\
        forall (i : nat) (rec : list string), recs !! i = Some rec ->
          exists rec', recs' !! i = Some rec' /\
            forall (k : nat) (c : string), REQUIRED_COLUMNS !! k = Some c ->
              rec' !! k = Some (match col_index c hdr with
                                | Some j => default EmptyString
                                              (rec !! (leading hdr recs + j)%nat)
                                | None => EmptyString
                                end).
Proof.
  intros (df & Hx & ->)%append_raw_row_inv.
  exists (rows_text df ++ [record_text row]). cbn [files].
  split; [now rewrite lookup_insert_eq|].
  pose proof (extract_raw_table _ _ _ _ Hx) as [Hc Ha]. split.
  - apply Forall_app. split; [|now repeat constructor].
    unfold rows_text. apply Forall_fmap. eapply Forall_impl; [exact Ha|].
    intros r Hr. cbn [compose]. rewrite length_fmap, Hr, Hc. reflexivity.
  - intros t Hf.
    assert (Hf' : files (with_parents (raw_csv paths) fs) !! raw_csv paths = Some t)
      by exact Hf.
    destruct (extract_file_inv _ _ _ _ _ Hf' Hx) as (hdr & recs & Ht & Hwd & ->).
    exists hdr, recs. split; [exact Ht|]. split; [exact Hwd|].
    rewrite rows_text_normalized. split.
    + rewrite length_app, length_fmap. cbn [length]. lia.
    + intros i rec Hi. eexists. split.
      * rewrite lookup_app_l.
        -- rewrite list_lookup_fmap, Hi. reflexivity.
        -- rewrite length_fmap. eapply lookup_lt_Some. exact Hi.
      * intros k c Hk. unfold normalized_record.
        rewrite list_lookup_fmap, Hk. reflexivity.
Qed.

End Recorder.

(** ** Reading back what [csv.writer] wrote *)

Lemma append_cons (x : ascii) (a b : string) :
  String x a +:+ b = String x (a +:+ b).
Proof. reflexivity. Qed.

Lemma append_nil_l (b : string) : EmptyString +:+ b = b.
Proof. reflexivity. Qed.

Lemma append_assoc_s (a b c : string) : (a +:+ b) +:+ c = a +:+ (b +:+ c).
Proof.
  induction a as [|x a IH]; [reflexivity|]. rewrite !append_cons. now rewrite IH.
Qed.

Lemma append_nil_r (s : string) : s +:+ EmptyString = s.
Proof.
  induction s as [|x s IH]; [reflexivity|]. rewrite append_cons. now rewrite IH.
Qed.

Lemma tok_run_app st (s1 s2 : string) :
  tok_run st (s1 +:+ s2) = tok_run (tok_run st s1) s2.
Proof.
  revert st. induction s1 as [|c s1 IH]; intros st; [reflexivity|].
  rewrite append_cons. cbn [tok_run]. apply IH.
Qed.

Lemma until_nul_safe (s : string) : safe_field s -> until_nul s = s.
Proof.
  induction s as [|c s IH]; [reflexivity|]. intros (_ & Hn & Hs). cbn.
  rewrite (proj2 (Ascii.eqb_neq _ _) Hn). now rewrite IH.
Qed.

Lemma needs_quotes_cons c s :
  needs_quotes (String c s) = false ->
  c <> ","%char /\ c <> QUOTE /\ c <> LF /\ needs_quotes s = false.
Proof. cbn. rewrite !orb_false_iff, !Ascii.eqb_neq. tauto. Qed.

Lemma in_field_plain c st :
  c <> LF -> c <> CR -> c <> ","%char -> in_field c st = push_char c InField st.
Proof.
  intros H1 H2 H3. unfold in_field.
  now rewrite (proj2 (Ascii.eqb_neq _ _) H1), (proj2 (Ascii.eqb_neq _ _) H2),
    (proj2 (Ascii.eqb_neq _ _) H3).
Qed.

(** The characters of a field written without quotes are taken one by
    one. *)
Lemma run_plain (s : string) :
  needs_quotes s = false -> safe_field s ->
  forall f l ls,
    tok_run (mkTok InField f l ls) s = mkTok InField (f +:+ s) l ls.
Proof.
  induction s as [|c s IH]; intros Hq Hs f l ls.
  - cbn. now rewrite append_nil_r.
  - apply needs_quotes_cons in Hq as (H1 & H2 & H3 & Hq).
    destruct Hs as (H4 & H5 & Hs).
    cbn [tok_run]. unfold tok_step. cbn [t_mode].
    rewrite in_field_plain by assumption.
    unfold push_char. cbn [t_field t_line t_lines].
    rewrite IH by assumption. now rewrite append_assoc_s.
Qed.

(** Between quotes every character is taken, a doubled quote as one. *)
Lemma run_quoted (s : string) :
  forall f l ls rest,
    tok_run (mkTok InQuoted f l ls) (double_quotes s +:+ rest)
    = tok_run (mkTok InQuoted (f +:+ s) l ls) rest.
Proof.
  induction s as [|c s IH]; intros f l ls rest.
  - cbn. now rewrite append_nil_r.
  - cbn [double_quotes]. destruct (Ascii.eqb c QUOTE) eqn:E.
    + apply Ascii.eqb_eq in E. subst c. rewrite ?append_cons, ?append_nil_l; cbn [tok_run].
      unfold tok_step at 2. cbn [t_mode]. rewrite Ascii.eqb_refl.
      unfold set_mode. cbn [t_field t_line t_lines].
      unfold tok_step at 1. cbn [t_mode]. rewrite Ascii.eqb_refl.
      unfold push_char. cbn [t_field t_line t_lines].
      rewrite IH. now rewrite append_assoc_s.
    + rewrite ?append_cons, ?append_nil_l; cbn [tok_run]. unfold tok_step at 1. cbn [t_mode].
      rewrite E. unfold push_char. cbn [t_field t_line t_lines].
      rewrite IH. now rewrite append_assoc_s.
Qed.

(** A written field and the separator [c] after it, a comma or a line
    feed: the tokenizer is where the field [s] followed by [c] leaves
    it. *)
Lemma run_field (s : string) (c : ascii) l ls rest :
  safe_field s -> c = ","%char \/ c = LF ->
  tok_run (mkTok StartField EmptyString l ls) (write_field s +:+ String c rest)
  = tok_run (in_field c (mkTok InField s l ls)) rest.
Proof.
  intros Hs Hc.
  assert (Hcq : Ascii.eqb c QUOTE = false) by (destruct Hc as [-> | ->]; reflexivity).
  unfold write_field. destruct (needs_quotes s) eqn:Hq.
  - rewrite ?append_cons, ?append_nil_l; cbn [tok_run]. unfold tok_step at 1. cbn [t_mode].
    unfold start_field. rewrite Ascii.eqb_refl. unfold set_mode.
    cbn [t_field t_line t_lines]. rewrite append_assoc_s, run_quoted.
    rewrite ?append_cons, ?append_nil_l; cbn [tok_run]. unfold tok_step at 2. cbn [t_mode].
    rewrite Ascii.eqb_refl. unfold set_mode. cbn [t_field t_line t_lines].
    unfold tok_step at 1. cbn [t_mode]. rewrite Hcq. reflexivity.
  - destruct s as [|a s].
    + rewrite ?append_cons, ?append_nil_l; cbn [tok_run]. unfold tok_step at 1. cbn [t_mode].
      unfold start_field. rewrite Hcq. reflexivity.
    + apply needs_quotes_cons in Hq as (H1 & H2 & H3 & Hq).
      destruct Hs as (H4 & H5 & Hs).
      rewrite ?append_cons, ?append_nil_l; cbn [tok_run]. unfold tok_step at 1. cbn [t_mode].
      unfold start_field. rewrite (proj2 (Ascii.eqb_neq _ _) H2).
      rewrite in_field_plain by assumption.
      unfold push_char. cbn [t_field t_line t_lines].
      rewrite tok_run_app, run_plain by assumption.
      rewrite ?append_cons, ?append_nil_l; cbn [tok_run]. reflexivity.
Qed.

Lemma join_fields_cons (x : string) (l : list string) (t : string) :
  join_fields (x :: l) +:+ t
  = x +:+ match l with
          | [] => t
          | _ :: _ => String "," (join_fields l +:+ t)
          end.
Proof.
  destruct l as [|y l]; [reflexivity|].
  cbn [join_fields]. now rewrite append_assoc_s.
Qed.

(** The fields of a written row, read from the start of a field. *)
Lemma run_fields (r : list string) :
  r <> [] -> Forall safe_field r ->
  forall l ls rest,
    tok_run (mkTok StartField EmptyString l ls)
            (join_fields (write_field <$> r) +:+ String LF rest)
    = tok_run (mkTok StartRecord EmptyString [] (ls ++ [l ++ r])) rest.
Proof.
  induction r as [|f r IH]; [easy|]. intros _ Hs l ls rest.
  apply Forall_cons in Hs as [Hf Hs].
  rewrite fmap_cons, join_fields_cons. destruct r as [|g r].
  - cbn [fmap list_fmap]. rewrite run_field by auto.
    unfold in_field, end_line, end_field. cbn. now rewrite until_nul_safe.
  - rewrite fmap_cons. rewrite run_field by auto.
    unfold in_field, end_field. cbn -[tok_run join_fields fmap].
    rewrite until_nul_safe by exact Hf.
    rewrite <- fmap_cons. rewrite IH by (easy || exact Hs).
    now rewrite <- (assoc_L (++)).
Qed.

Lemma start_record_as_field c ls :
  c <> LF -> c <> CR -> is_blank c = false ->
  tok_step (mkTok StartRecord EmptyString [] ls) c
  = tok_step (mkTok StartField EmptyString [] ls) c.
Proof.
  intros H1 H2 H3. unfold tok_step. cbn [t_mode]. unfold start_record.
  now rewrite (proj2 (Ascii.eqb_neq _ _) H1), (proj2 (Ascii.eqb_neq _ _) H2), H3.
Qed.

(** A written row is read back as it was. *)
Lemma run_record (r : list string) ls rest :
  safe_row r ->
  tok_run (mkTok StartRecord EmptyString [] ls) (write_record r +:+ rest)
  = tok_run (mkTok StartRecord EmptyString [] (ls ++ [r])) rest.
Proof.
  intros [Hs H1]. destruct r as [|f r]; [easy|].
  destruct (decide (f :: r = [EmptyString])) as [E|E].
  { injection E as -> ->. reflexivity. }
  assert (Hw : write_record (f :: r) +:+ rest
               = join_fields (write_field <$> (f :: r)) +:+ String LF rest).
  { unfold write_record.
    destruct f as [|a f]; [destruct r as [|g r]; [congruence|]|];
      now rewrite append_assoc_s. }
  rewrite Hw.
  assert (Hc : exists c s,
             join_fields (write_field <$> (f :: r)) +:+ String LF rest = String c s /\
             c <> LF /\ c <> CR /\ is_blank c = false).
  { rewrite fmap_cons, join_fields_cons. destruct f as [|a f].
    - destruct r as [|g r]; [congruence|]. eexists _, _.
      split; [reflexivity|]. repeat split; discriminate.
    - apply Forall_cons in Hs as [(H2 & _ & _) _]. unfold write_field.
      destruct (needs_quotes (String a f)) eqn:Hq.
      + eexists _, _. split; [reflexivity|]. repeat split; discriminate.
      + apply needs_quotes_cons in Hq as (_ & _ & H3 & _).
        eexists _, _. split; [reflexivity|]. auto. }
  destruct Hc as (c & s & Hcs & H2 & H3 & H4).
  rewrite <- (run_fields (f :: r)) with (l := []) by (easy || exact Hs).
  rewrite Hcs. cbn [tok_run]. now rewrite start_record_as_field.
Qed.

Lemma run_csv_write (lines : list (list string)) :
  Forall safe_row lines ->
  forall ls,
    tok_run (mkTok StartRecord EmptyString [] ls) (csv_write lines)
    = mkTok StartRecord EmptyString [] (ls ++ lines).
Proof.
  induction 1 as [|r lines Hr _ IH]; intros ls.
  - cbn. now rewrite (right_id_L [] (++)).
  - change (csv_write (r :: lines)) with (write_record r +:+ csv_write lines).
    rewrite run_record by exact Hr. rewrite IH.
    now rewrite <- (assoc_L (++)).
Qed.

(** The tokenizer of the worked examples reads back the rows [csv.writer]
    wrote, when they are safe. *)
Lemma csv_tokenize_written (lines : list (list string)) :
  Forall safe_row lines -> csv_tokenize (csv_write lines) = Some lines.
Proof.
  intros H. unfold csv_tokenize. now rewrite (run_csv_write lines H []).
Qed.

(** * The store is left as it was *)

Module StoreFacts.

Import Store.

Lemma keeps_ret {A} h0 (a : A) (Q : A -> Prop) : Q a -> keeps h0 (ret a) Q.
Proof. intros HQ h Hh. split; [exact Hh|]. now intros a' [= <-]. Qed.

Lemma keeps_lift {A} h0 (o : option A) : keeps h0 (lift o) (fun _ => True).
Proof. intros h Hh. split; [exact Hh | trivial]. Qed.

Lemma keeps_deref h0 r : keeps h0 (deref r) (fun _ => True).
Proof. intros h Hh. split; [exact Hh | trivial]. Qed.

Lemma keeps_new h0 df : keeps h0 (new df) (fun r => (length h0 <= r)%nat).
Proof.
  intros h Hh. unfold new. simpl. split.
  - now apply prefix_app_r.
  - intros r [= <-]. now apply prefix_length.
Qed.

Lemma keeps_assign h0 r df :
  (length h0 <= r)%nat -> keeps h0 (assign r df) (fun _ => True).
Proof.
  intros Hr h [k ->]. split; [|trivial].
  change (h0 `prefix_of` <[r:=df]> (h0 ++ k)).
  rewrite insert_app_r_alt by exact Hr. now apply prefix_app_r.
Qed.

Lemma keeps_bind {A B} h0 (m : M A) (k : A -> M B) (P : A -> Prop) (Q : B -> Prop) :
  keeps h0 m P -> (forall a, P a -> keeps h0 (k a) Q) -> keeps h0 (bind m k) Q.
Proof.
  intros Hm Hk h Hh. unfold bind. destruct (Hm h Hh) as [Hpre Hres].
  destruct (m h) as [[a|] h1]; cbn [fst snd] in *.
  - apply Hk; [now apply Hres | exact Hpre].
  - split; [exact Hpre | discriminate].
Qed.

Lemma keeps_weaken {A} h0 (m : M A) (P Q : A -> Prop) :
  keeps h0 m P -> (forall a, P a -> Q a) -> keeps h0 m Q.
Proof.
  intros Hm HPQ h Hh. destruct (Hm h Hh) as [Hpre Hres]. split; [exact Hpre|].
  intros a Ha. now apply HPQ, Hres.
Qed.

Lemma keeps_for_each {A} h0 (l : list A) (body : A -> M unit) :
  (forall a, keeps h0 (body a) (fun _ => True)) ->
  keeps h0 (for_each l body) (fun _ => True).
Proof.
  intros Hb. induction l as [|a l IH]; cbn [for_each].
  - now apply keeps_ret.
  - eapply keeps_bind; [apply Hb | intros _ _; exact IH].
Qed.

Lemma keeps_df_copy h0 r : keeps h0 (df_copy r) (fun r' => (length h0 <= r')%nat).
Proof. eapply keeps_bind; [apply keeps_deref | intros df _; apply keeps_new]. Qed.

Lemma keeps_df_getitem h0 r c : keeps h0 (df_getitem r c) (fun _ => True).
Proof. eapply keeps_bind; [apply keeps_deref | intros df _; apply keeps_lift]. Qed.

Lemma keeps_df_setitem h0 r c s :
  (length h0 <= r)%nat -> keeps h0 (df_setitem r c s) (fun _ => True).
Proof.
  intros Hr. eapply keeps_bind; [apply keeps_deref|].
  intros df _. now apply keeps_assign.
Qed.

Lemma keeps_df_boolean_index h0 r mask :
  keeps h0 (df_boolean_index r mask) (fun r' => (length h0 <= r')%nat).
Proof. eapply keeps_bind; [apply keeps_deref | intros df _; apply keeps_new]. Qed.

Lemma keeps_df_shape0 h0 r : keeps h0 (df_shape0 r) (fun _ => True).
Proof. eapply keeps_bind; [apply keeps_deref | intros df _; now apply keeps_ret]. Qed.

Lemma keeps_df_drop_duplicates h0 cs r :
  keeps h0 (df_drop_duplicates cs r) (fun r' => (length h0 <= r')%nat).
Proof.
  eapply keeps_bind; [apply keeps_deref|]. intros df _.
  eapply keeps_bind; [apply keeps_lift | intros d _; apply keeps_new].
Qed.

Lemma keeps_df_sort_values h0 cs r :
  keeps h0 (df_sort_values cs r) (fun r' => (length h0 <= r')%nat).
Proof.
  eapply keeps_bind; [apply keeps_deref|]. intros df _.
  eapply keeps_bind; [apply keeps_lift | intros d _; apply keeps_new].
Qed.

(** Whatever it reads, and whether or not it raises, [transform_ref] only
    allocates objects and updates objects it allocated. *)
Lemma keeps_transform_ref parse_number h0 r :
  keeps h0 (transform_ref parse_number r) (fun _ => True).
Proof.
  unfold transform_ref.
  eapply keeps_bind; [apply keeps_df_copy|]. intros df Hdf.
  eapply keeps_bind.
  { apply keeps_for_each. intros col.
    eapply keeps_bind; [apply keeps_df_getitem|].
    intros s _. now apply keeps_df_setitem. }
  intros _ _. eapply keeps_bind; [apply keeps_df_getitem|]. intros s _.
  eapply keeps_bind; [apply keeps_lift|]. intros a _.
  eapply keeps_bind; [now apply keeps_df_setitem|]. intros _ _.
  eapply keeps_bind; [apply keeps_df_getitem|]. intros s' _.
  eapply keeps_bind; [apply keeps_df_boolean_index|]. intros kept _.
  eapply keeps_bind; [apply keeps_df_copy|]. intros df2 _.
  eapply keeps_bind; [apply keeps_df_shape0|]. intros before _.
  eapply keeps_bind; [apply keeps_df_drop_duplicates|]. intros df3 _.
  eapply keeps_bind; [apply keeps_df_shape0|]. intros after _.
  eapply keeps_bind; [apply keeps_df_getitem|]. intros ac _.
  eapply keeps_bind; [apply keeps_df_sort_values|]. intros df4 _.
  now apply keeps_ret.
Qed.

Lemma runs_ret {A} (a : A) h : runs (ret a) h a h.
Proof. reflexivity. Qed.

Lemma runs_bind {A B} (m : M A) (k : A -> M B) h a h1 b h2 :
  runs m h a h1 -> runs (k a) h1 b h2 -> runs (bind m k) h b h2.
Proof. unfold runs, bind. now intros -> ->. Qed.

Lemma runs_lift {A} (o : option A) a h : o = Some a -> runs (lift o) h a h.
Proof. now intros ->. Qed.

Lemma runs_new df h : runs (new df) h (length h) (h ++ [df]).
Proof. reflexivity. Qed.

Lemma runs_deref r df h : h !! r = Some df -> runs (deref r) h df h.
Proof. unfold runs, deref. now intros ->. Qed.

Lemma runs_assign r df h : runs (assign r df) h tt (<[r:=df]> h).
Proof. reflexivity. Qed.

Lemma runs_df_copy r df h :
  h !! r = Some df -> runs (df_copy r) h (length h) (h ++ [df]).
Proof. intros H. eapply runs_bind; [apply runs_deref; exact H | apply runs_new]. Qed.

Lemma runs_df_getitem r c df s h :
  h !! r = Some df -> getitem df c = Some s -> runs (df_getitem r c) h s h.
Proof.
  intros H Hs. eapply runs_bind; [apply runs_deref; exact H | apply runs_lift; exact Hs].
Qed.

Lemma runs_df_setitem r c s df h :
  h !! r = Some df -> runs (df_setitem r c s) h tt (<[r:=setitem df c s]> h).
Proof. intros H. eapply runs_bind; [apply runs_deref; exact H | apply runs_assign]. Qed.

Lemma runs_df_boolean_index r mask df h :
  h !! r = Some df ->
  runs (df_boolean_index r mask) h (length h) (h ++ [boolean_index df mask]).
Proof. intros H. eapply runs_bind; [apply runs_deref; exact H | apply runs_new]. Qed.

Lemma runs_df_shape0 r df h :
  h !! r = Some df -> runs (df_shape0 r) h (shape0 df) h.
Proof. intros H. eapply runs_bind; [apply runs_deref; exact H | apply runs_ret]. Qed.

Lemma runs_df_drop_duplicates cs r df d h :
  h !! r = Some df -> drop_duplicates cs df = Some d ->
  runs (df_drop_duplicates cs r) h (length h) (h ++ [d]).
Proof.
  intros H Hd. eapply runs_bind; [apply runs_deref; exact H|].
  eapply runs_bind; [apply runs_lift; exact Hd | apply runs_new].
Qed.

Lemma runs_df_sort_values cs r df d h :
  h !! r = Some df -> sort_values cs df = Some d ->
  runs (df_sort_values cs r) h (length h) (h ++ [d]).
Proof.
  intros H Hd. eapply runs_bind; [apply runs_deref; exact H|].
  eapply runs_bind; [apply runs_lift; exact Hd | apply runs_new].
Qed.

Lemma foldl_raised {A} (body : option DataFrame -> A -> option DataFrame) l :
  (forall a, body None a = None) -> foldl body None l = None.
Proof. intros Hb. induction l as [|a l IH]; cbn [foldl]; [reflexivity|]. now rewrite Hb. Qed.

(** The loop of "limpeza básica" on the object [d] computes what the fold
    of [limpeza_basica] computes on its value. *)
Lemma runs_limpeza cols : forall x x' h d,
  h !! d = Some x ->
  foldl (fun acc col =>
           df ← acc;
           s ← getitem df col;
           Some (setitem df col (str_strip (fillna (Str "") (astype_string s)))))
        (Some x) cols = Some x' ->
  runs (for_each cols
          (fun col =>
             let* s := df_getitem d col in
             df_setitem d col (str_strip (fillna (Str "") (astype_string s)))))
       h tt (<[d:=x']> h).
Proof.
  induction cols as [|c cols IH]; intros x x' h d Hd Hfold.
  - cbn [foldl] in Hfold. injection Hfold as <-.
    rewrite list_insert_id by exact Hd. apply runs_ret.
  - cbn [foldl for_each] in *. cbn [mbind option_bind] in Hfold.
    destruct (getitem x c) as [s|] eqn:Hs.
    2:{ cbn [mbind option_bind] in Hfold. rewrite foldl_raised in Hfold;
          [discriminate | reflexivity]. }
    cbn [mbind option_bind] in Hfold.
    eapply runs_bind.
    { eapply runs_bind; [now apply (runs_df_getitem d c x s)|].
      now apply (runs_df_setitem d c _ x). }
    assert (Hlt : (d < length h)%nat) by (eapply lookup_lt_Some; exact Hd).
    pose proof (IH _ x' (<[d:=setitem x c
                  (str_strip (fillna (Str "") (astype_string s)))]> h) d
                  (list_lookup_insert_eq _ _ _ Hlt) Hfold) as Hrun.
    now rewrite list_insert_insert_eq in Hrun.
Qed.

Lemma insert_last (h : store) x y : <[length h:=y]> (h ++ [x]) = h ++ [y].
Proof.
  rewrite insert_app_r_alt by lia. now rewrite Nat.sub_diag.
Qed.

Lemma lookup_last (h : store) x : (h ++ [x]) !! length h = Some x.
Proof. now apply list_lookup_middle. Qed.

(** When [transform] succeeds on the value of the input object,
    [transform_ref] succeeds, returns the same metrics and a new object
    that holds the same curated table. *)
Lemma transform_ref_runs parse_number h r t cur m :
  h !! r = Some t ->
  transform parse_number t = Some (cur, m) ->
  exists r' h',
    runs (transform_ref parse_number r) h (r', m) h' /\
    h' !! r' = Some cur /\ (length h <= r')%nat.
Proof.
  intros Hr Ht. unfold transform in Ht.
  destruct (limpeza_basica t) as [x1|] eqn:H1; [|discriminate].
  cbn [mbind option_bind] in Ht.
  destruct (acertou_int parse_number x1) as [x2|] eqn:H2; [|discriminate].
  cbn [mbind option_bind] in Ht.
  destruct (remove_sem_aluno x2) as [x3|] eqn:H3; [|discriminate].
  cbn [mbind option_bind] in Ht.
  destruct (drop_duplicates ["aluno"; "question_id"] x3) as [x4|] eqn:H4;
    [|discriminate].
  cbn [mbind option_bind] in Ht.
  destruct (getitem x4 "acertou") as [ac|] eqn:H5; [|discriminate].
  cbn [mbind option_bind] in Ht.
  destruct (sort_values ["turma"; "aluno"; "bloco"; "question_id"] x4)
    as [x5|] eqn:H6; [|discriminate].
  cbn [mbind option_bind] in Ht. injection Ht as <- <-.
  unfold acertou_int in H2.
  destruct (getitem x1 "acertou") as [s1|] eqn:H2a; [|discriminate].
  cbn [mbind option_bind] in H2.
  destruct (astype_int64 (fillna (Int 0) (to_numeric parse_number s1)))
    as [a|] eqn:H2b; [|discriminate].
  cbn [mbind option_bind] in H2. injection H2 as <-.
  unfold remove_sem_aluno in H3.
  destruct (getitem (setitem x1 "acertou" a) "aluno") as [s2|] eqn:H3a;
    [|discriminate].
  cbn [mbind option_bind] in H3. injection H3 as <-.
  set (x2 := setitem x1 "acertou" a) in *.
  set (x3 := boolean_index x2 (ne_str "" s2)) in *.
  exists (length (((h ++ [x2]) ++ [x3]) ++ [x3]) + 1)%nat,
         (((((h ++ [x2]) ++ [x3]) ++ [x3]) ++ [x4]) ++ [x5]).
  split; [|split].
  - unfold transform_ref.
    eapply runs_bind; [now apply (runs_df_copy r t)|].
    eapply runs_bind.
    { apply (runs_limpeza _ t x1); [apply lookup_last | exact H1]. }
    rewrite insert_last.
    eapply runs_bind.
    { apply (runs_df_getitem _ _ x1 s1); [apply lookup_last | exact H2a]. }
    eapply runs_bind; [apply runs_lift; exact H2b|].
    eapply runs_bind; [apply (runs_df_setitem _ _ _ x1), lookup_last|].
    rewrite insert_last. fold x2.
    eapply runs_bind.
    { apply (runs_df_getitem _ _ x2 s2); [apply lookup_last | exact H3a]. }
    eapply runs_bind; [apply (runs_df_boolean_index _ _ x2), lookup_last|].
    fold x3. rewrite length_app. cbn [length].
    replace (length h + 1)%nat with (length (h ++ [x2]))
      by (rewrite length_app; reflexivity).
    eapply runs_bind; [apply (runs_df_copy _ x3), lookup_last|].
    eapply runs_bind; [apply (runs_df_shape0 _ x3), lookup_last|].
    eapply runs_bind.
    { apply (runs_df_drop_duplicates _ _ x3 x4); [apply lookup_last | exact H4]. }
    eapply runs_bind; [apply (runs_df_shape0 _ x4), lookup_last|].
    eapply runs_bind.
    { apply (runs_df_getitem _ _ x4 ac); [apply lookup_last | exact H5]. }
    eapply runs_bind.
    { apply (runs_df_sort_values _ _ x4 x5); [apply lookup_last | exact H6]. }
    rewrite (length_app _ [x4]). cbn [length]. apply runs_ret.
  - replace (length (((h ++ [x2]) ++ [x3]) ++ [x3]) + 1)%nat
      with (length ((((h ++ [x2]) ++ [x3]) ++ [x3]) ++ [x4]))
      by (rewrite (length_app _ [x4]); reflexivity).
    apply lookup_last.
  - rewrite !length_app. lia.
Qed.

(** C9. [transform] does not change its input. Called on a reference to a
    table, whether it returns or raises, it leaves every object that was in
    the store, the input among them, exactly as it was: the trimming, the
    coercion, the filtering and the deduplication happen on objects it
    allocates itself. When [transform] succeeds on the value of the input,
    the call returns the same metrics and a reference, distinct from the
    input, to a new object holding the curated table. *)
Theorem transform_ref_preserves_input (parse_number : string -> option Z)
    (h : store) (r : ref) (t : DataFrame) :
  h !! r = Some t ->
  (transform_ref parse_number r h).2 !! r = Some t /\
  (forall (l : ref) (d : DataFrame), h !! l = Some d ->
     (transform_ref parse_number r h).2 !! l = Some d) /\
  (forall cur m, transform parse_number t = Some (cur, m) ->
     exists r',
       (transform_ref parse_number r h).1 = Some (r', m) /\ r' <> r /\
       (transform_ref parse_number r h).2 !! r' = Some cur).
Proof.
  intros Hr.
  assert (Hkept : forall (l : ref) (d : DataFrame), h !! l = Some d ->
            (transform_ref parse_number r h).2 !! l = Some d).
  { intros l d Hl.
    destruct (keeps_transform_ref parse_number h r h) as [Hpre _]; [reflexivity|].
    eapply prefix_lookup_Some; [exact Hl | exact Hpre]. }
  split; [now apply Hkept|]. split; [exact Hkept|].
  intros cur m Ht.
  destruct (transform_ref_runs parse_number h r t cur m Hr Ht)
    as (r' & h' & Hrun & Hcur & Hge).
  unfold runs in Hrun. exists r'. rewrite Hrun. cbn [fst snd].
  split; [reflexivity|]. split; [|exact Hcur].
  apply lookup_lt_Some in Hr. lia.
Qed.

End StoreFacts.

Lemma transform_ref_preserves_input_witness :
  [sample_raw] !! 0%nat = Some sample_raw /\
  (Store.transform_ref int_literal 0%nat [sample_raw]).2 !! 0%nat = Some sample_raw /\
  (forall (l : nat) (d : DataFrame), [sample_raw] !! l = Some d ->
     (Store.transform_ref int_literal 0%nat [sample_raw]).2 !! l = Some d) /\
  (forall cur m, transform int_literal sample_raw = Some (cur, m) ->
     exists r',
       (Store.transform_ref int_literal 0%nat [sample_raw]).1 = Some (r', m) /\
       r' <> 0%nat /\
       (Store.transform_ref int_literal 0%nat [sample_raw]).2 !! r' = Some cur).
Proof.
  split; [reflexivity|].
  apply (StoreFacts.transform_ref_preserves_input int_literal [sample_raw] 0%nat sample_raw).
  reflexivity.
Defined.

(** * Worked cases *)

Ltac by_computation :=
  match goal with
  | |- ?P => apply (@bool_decide_unpack P _); vm_compute; exact I
  end.


(** The Raw Store of the older schema as [extract] returns it: the record
    cut short has empty texts in the columns it lacks. *)
Example extract_old_file :
  extract csv_tokenize (raw_csv app_paths) fs_old
  = Some (mkDataFrame REQUIRED_COLUMNS
            [row10 "" "" "ana" "" "q1" "" "" "" "" "1";
             row10 "" "" "bob" "" "" "" "" "" "" ""]).
Proof. vm_compute. reflexivity. Qed.

(** The Raw Store with the longer records: the labels name the last two
    fields of every record. *)
Example extract_wide_file :
  extract csv_tokenize (raw_csv app_paths) fs_wide
  = Some (mkDataFrame REQUIRED_COLUMNS
            [row10 "" "" "1" "" "" "" "" "" "" "zzz";
             row10 "" "" "0" "" "" "" "" "" "" ""]).
Proof. vm_compute. reflexivity. Qed.

(** C3 as stated fails on a Raw Store that exists and holds no data row
    because it holds nothing at all: [read_csv] raises on it, and so does
    [run_pipeline]. *)
Lemma run_pipeline_blank_file_raises :
  files fs_blank !! raw_csv app_paths = Some EmptyString /\
  csv_tokenize EmptyString = Some [] /\
  writable fs_blank (curated_csv app_paths) /\
  run_pipeline csv_tokenize int_literal app_paths fs_blank = None.
Proof.
  split; [vm_compute; reflexivity|]. split; [reflexivity|].
  split; [|vm_compute; reflexivity].
  unfold writable. by_computation.
Qed.

Lemma run_pipeline_empty_witness :
  writable fs_new (curated_csv app_paths) /\
  (path_exists fs_new (raw_csv app_paths) = false \/
   (exists t hdr, files fs_new !! raw_csv app_paths = Some t /\
                  csv_tokenize t = Some [hdr])) /\
  exists fs',
    run_pipeline csv_tokenize int_literal app_paths fs_new
    = Some (fs', (empty_table, zero_metrics)) /\
    files fs' !! curated_csv app_paths = Some (csv_write [REQUIRED_COLUMNS]).
Proof.
  assert (Hw : writable fs_new (curated_csv app_paths))
    by (unfold writable; by_computation).
  split; [exact Hw|]. split; [left; vm_compute; reflexivity|].
  apply (run_pipeline_empty csv_tokenize int_literal app_paths fs_new Hw).
  left. vm_compute. reflexivity.
Defined.



Lemma run_pipeline_idempotent_witness :
  exists fs1 res,
    run_pipeline csv_tokenize int_literal app_paths fs_old = Some (fs1, res) /\
    files fs1 !! raw_csv app_paths = files fs_old !! raw_csv app_paths /\
    path_exists fs1 (raw_csv app_paths) = path_exists fs_old (raw_csv app_paths) /\
    run_pipeline csv_tokenize int_literal app_paths fs1 = Some (fs1, res) /\
    files fs1 !! curated_csv app_paths = Some (to_csv res.1).
Proof.
  eexists _, _. split; [vm_compute; reflexivity|].
  split; [vm_compute; reflexivity|]. split; [vm_compute; reflexivity|].
  apply (run_pipeline_idempotent csv_tokenize int_literal app_paths fs_old);
    vm_compute; reflexivity.
Defined.

Lemma append_raw_row_normalizes_witness :
  exists fs',
    append_raw_row csv_tokenize app_paths sample_record fs_wide = Some fs' /\
    exists recs' : list (list string),
      files fs' !! raw_csv app_paths = Some (csv_write (REQUIRED_COLUMNS :: recs')) /\
      Forall (fun rec => length rec = 10%nat) recs' /\
      forall t : string, files fs_wide !! raw_csv app_paths = Some t ->
        exists (hdr : list string) (recs : list (list string)),
          csv_tokenize t = Some (hdr :: recs) /\
          Forall (fun r => (length r <= width hdr recs)%nat) recs /\
          length recs' = S (length recs) /\
          forall (i : nat) (rec : list string), recs !! i = Some rec ->
            exists rec', recs' !! i = Some rec' /\
              forall (k : nat) (c : string), REQUIRED_COLUMNS !! k = Some c ->
                rec' !! k = Some (match col_index c hdr with
                                  | Some j => default EmptyString
                                                (rec !! (leading hdr recs + j)%nat)
                                  | None => EmptyString
                                  end).
Proof.
  eexists. split; [vm_compute; reflexivity|].
  apply (append_raw_row_normalizes csv_tokenize app_paths sample_record fs_wide).
  vm_compute; reflexivity.
Defined.

(** The Raw Store of the older schema, once a record is appended: the
    column that is not required is gone and the missing ones are empty. *)
Example append_to_old_file :
  (fs ← append_raw_row csv_tokenize app_paths sample_record fs_old;
   files fs !! raw_csv app_paths)
  = Some (csv_write
            [REQUIRED_COLUMNS;
             [""; ""; "ana"; ""; "q1"; ""; ""; ""; ""; "1"];
             [""; ""; "bob"; ""; ""; ""; ""; ""; ""; ""];
             ["2026-02-12T16:00:00Z"; "Turma A"; "ana"; "b1"; "q2"; "p";
              "multipla"; "a"; "b"; "0"]]).
Proof. vm_compute. reflexivity. Qed.

(** The Raw Store with the longer records, once a record is appended: the
    field under [aluno] is the second field of each old record. *)
Example append_to_wide_file :
  (fs ← append_raw_row csv_tokenize app_paths sample_record fs_wide;
   files fs !! raw_csv app_paths)
  = Some (csv_write
            [REQUIRED_COLUMNS;
             [""; ""; "1"; ""; ""; ""; ""; ""; ""; "zzz"];
             [""; ""; "0"; ""; ""; ""; ""; ""; ""; ""];
             ["2026-02-12T16:00:00Z"; "Turma A"; "ana"; "b1"; "q2"; "p";
              "multipla"; "a"; "b"; "0"]]).
Proof. vm_compute. reflexivity. Qed.

(** A field with a carriage return is written without quotes, one with a
    line feed between quotes. *)
Example write_record_carriage_return :
  write_record [String "a" (String CR "b"); String "c" (String LF "d")]
  = String "a" (String CR (String "b" (String "," (String QUOTE
      (String "c" (String LF (String "d" (String QUOTE (String LF EmptyString))))))))).
Proof. reflexivity. Qed.

Example transform_sample :
  transform int_literal sample_raw = Some (sample_curated, sample_metrics).
Proof. vm_compute. reflexivity. Qed.

Ltac in_list := apply list_elem_of_In; cbn [In]; auto 12.

(** * Further properties *)

(** ** When [transform] raises *)

Lemma col_index_None c cs : col_index c cs = None <-> c ∉ cs.
Proof.
  induction cs as [|c' cs IH]; simpl.
  - split; [intros _; apply not_elem_of_nil | reflexivity].
  - rewrite not_elem_of_cons. destruct (String.eqb_spec c c') as [->|Hne].
    + split; [discriminate | now intros [[] _]].
    + destruct (col_index c cs); csimpl.
      * split; [discriminate|]. intros [_ H]. now apply IH in H.
      * split; [|reflexivity]. intros _. split; [exact Hne | now apply IH].
Qed.

Lemma col_index_Some c cs : is_Some (col_index c cs) <-> c ∈ cs.
Proof.
  destruct (col_index c cs) eqn:E.
  - split; [|eauto]. intros _. destruct (decide (c ∈ cs)) as [|Hn]; [assumption|].
    apply col_index_None in Hn. congruence.
  - apply col_index_None in E. split; [now intros [? [=]] | contradiction].
Qed.

Lemma getitem_None df c : col_index c (columns df) = None -> getitem df c = None.
Proof. intros H. unfold getitem. now rewrite H. Qed.

Section TransformErrors.

Variable parse_number : string -> option Z.

Lemma limpeza_fold_raises cs cols : forall l,
  Exists (fun c => col_index c cs = None) cols ->
  foldl (fun acc col =>
           df ← acc;
           s ← getitem df col;
           Some (setitem df col (str_strip (fillna (Str "") (astype_string s)))))
        (Some (mkDataFrame cs l)) cols
  = None.
Proof.
  induction cols as [|c cols IH]; intros l Hex; [now apply Exists_nil in Hex|].
  cbn [foldl].
  change (Some (mkDataFrame cs l) ≫= _)
    with (s ← getitem (mkDataFrame cs l) c;
          Some (setitem (mkDataFrame cs l) c
                  (str_strip (fillna (Str "") (astype_string s))))).
  destruct (col_index c cs) as [i|] eqn:Hc.
  - rewrite (limpeza_step cs l c i Hc). apply IH.
    apply Exists_cons in Hex as [Hex|Hex]; [congruence | exact Hex].
  - rewrite (getitem_None (mkDataFrame cs l) c Hc). cbn [mbind option_bind].
    apply StoreFacts.foldl_raised. reflexivity.
Qed.

Lemma limpeza_fold_columns cs cols : forall l,
  Forall (fun c => is_Some (col_index c cs)) cols ->
  exists l',
    foldl (fun acc col =>
             df ← acc;
             s ← getitem df col;
             Some (setitem df col (str_strip (fillna (Str "") (astype_string s)))))
          (Some (mkDataFrame cs l)) cols
    = Some (mkDataFrame cs l').
Proof.
  intros l H.
  assert (Hidx : exists idx, Forall2 (fun c i => col_index c cs = Some i) cols idx).
  { induction H as [|c cols [i Hi] _ [idx IH]]; [exists []; constructor|].
    exists (i :: idx). now constructor. }
  destruct Hidx as [idx Hidx]. eexists. exact (limpeza_fold cs cols idx l Hidx).
Qed.

Lemma getitem_present df c : c ∈ columns df -> exists s, getitem df c = Some s.
Proof.
  intros [i Hi]%col_index_Some. eexists. exact (getitem_index _ _ _ Hi).
Qed.

Lemma setitem_columns df c s :
  c ∈ columns df -> columns (setitem df c s) = columns df.
Proof. intros [i Hi]%col_index_Some. unfold setitem. now rewrite Hi. Qed.

Lemma indices_present (cs : list string) (names : list string) :
  Forall (fun c => c ∈ cs) names ->
  exists idx, mapM (fun c => col_index c cs) names = Some idx.
Proof.
  intros H. apply mapM_is_Some. eapply Forall_impl; [exact H|].
  intros c Hc. now apply col_index_Some.
Qed.

Lemma drop_duplicates_present names df :
  Forall (fun c => c ∈ columns df) names ->
  exists d, drop_duplicates names df = Some d /\ columns d = columns df.
Proof.
  intros [idx Hidx]%indices_present. unfold drop_duplicates. rewrite Hidx.
  eexists. split; reflexivity.
Qed.

Lemma sort_values_present names df :
  Forall (fun c => c ∈ columns df) names ->
  exists d, sort_values names df = Some d /\ columns d = columns df.
Proof.
  intros [idx Hidx]%indices_present. unfold sort_values. rewrite Hidx.
  eexists. split; reflexivity.
Qed.

Lemma limpeza_basica_raises df :
  Exists (fun c => c ∉ columns df)
    ["turma"; "aluno"; "bloco"; "question_id"; "pergunta"; "tipo";
     "resposta_aluno"; "gabarito"] ->
  limpeza_basica df = None.
Proof.
  destruct df as [cs l]. cbn [columns]. intros H.
  unfold limpeza_basica. apply limpeza_fold_raises.
  eapply Exists_impl; [exact H|]. intros c Hc. now apply col_index_None.
Qed.

Lemma limpeza_basica_columns df :
  Forall (fun c => c ∈ columns df)
    ["turma"; "aluno"; "bloco"; "question_id"; "pergunta"; "tipo";
     "resposta_aluno"; "gabarito"] ->
  exists d, limpeza_basica df = Some d /\ columns d = columns df.
Proof.
  destruct df as [cs l]. cbn [columns]. intros H.
  destruct (limpeza_fold_columns cs _ l
              (Forall_impl _ _ _ H (fun c Hc => proj2 (col_index_Some c cs) Hc)))
    as [l1 H1].
  exists (mkDataFrame cs l1). split; [exact H1 | reflexivity].
Qed.

Lemma acertou_int_columns df :
  "acertou" ∈ columns df ->
  exists d, acertou_int parse_number df = Some d /\ columns d = columns df.
Proof.
  intros Hac. unfold acertou_int.
  destruct (getitem_present df "acertou" Hac) as [s ->].
  cbn [mbind option_bind]. rewrite coerce_series. cbn [mbind option_bind].
  eexists. split; [reflexivity | now apply setitem_columns].
Qed.

Lemma remove_sem_aluno_columns df :
  "aluno" ∈ columns df ->
  exists d, remove_sem_aluno df = Some d /\ columns d = columns df.
Proof.
  intros Hal. unfold remove_sem_aluno.
  destruct (getitem_present df "aluno" Hal) as [s ->].
  cbn [mbind option_bind]. eexists. split; reflexivity.
Qed.

(** X1. On a table whose labels are distinct, [transform] raises exactly when
    the table lacks one of the nine columns it reads: the eight text
    columns and [acertou]. It never reads [timestamp], which may be absent,
    and with the numeric parser giving an integer or nothing for every
    text, no content of a cell makes it raise. *)
Theorem transform_raises_iff (df : DataFrame) :
  NoDup (columns df) ->
  (transform parse_number df = None <->
   exists c,
     c ∈ ["turma"; "aluno"; "bloco"; "question_id"; "pergunta"; "tipo";
          "resposta_aluno"; "gabarito"; "acertou"] /\
     c ∉ columns df).
Proof.
  intros _.
  destruct (decide (Forall (fun c => c ∈ columns df)
                      ["turma"; "aluno"; "bloco"; "question_id"; "pergunta";
                       "tipo"; "resposta_aluno"; "gabarito"])) as [Htexts|Htexts].
  - destruct (limpeza_basica_columns df Htexts) as (x1 & H1 & Hx1).
    unfold transform. rewrite H1. cbn [mbind option_bind].
    assert (Hin : forall c, c ∈ ["turma"; "aluno"; "bloco"; "question_id"] ->
                            c ∈ columns df).
    { intros c Hc. eapply Forall_forall in Htexts; [exact Htexts|].
      apply list_elem_of_In in Hc. apply list_elem_of_In. cbn [In] in *. tauto. }
    destruct (decide ("acertou" ∈ columns df)) as [Hac|Hac].
    + split.
      2:{ intros (c & Hc & Hno). exfalso. apply Hno.
          change (c ∈ ["turma"; "aluno"; "bloco"; "question_id"; "pergunta";
                       "tipo"; "resposta_aluno"; "gabarito"] ++ ["acertou"]) in Hc.
          apply elem_of_app in Hc as [Hc|Hc].
          - eapply Forall_forall in Htexts; [exact Htexts | exact Hc].
          - apply list_elem_of_singleton in Hc as ->. exact Hac. }
      intros Hnone. exfalso. revert Hnone.
      destruct (acertou_int_columns x1) as (x2 & -> & Hx2); [now rewrite Hx1|].
      cbn [mbind option_bind].
      destruct (remove_sem_aluno_columns x2) as (x3 & -> & Hx3).
      { rewrite Hx2, Hx1. apply Hin. in_list. }
      cbn [mbind option_bind].
      destruct (drop_duplicates_present ["aluno"; "question_id"] x3) as (x4 & -> & Hx4).
      { rewrite Hx3, Hx2, Hx1. repeat constructor; apply Hin; in_list. }
      cbn [mbind option_bind].
      destruct (getitem_present x4 "acertou") as [ac ->];
        [now rewrite Hx4, Hx3, Hx2, Hx1|].
      cbn [mbind option_bind].
      destruct (sort_values_present ["turma"; "aluno"; "bloco"; "question_id"] x4)
        as (x5 & -> & _).
      { rewrite Hx4, Hx3, Hx2, Hx1. repeat constructor; apply Hin; in_list. }
      discriminate.
    + split; [|intros _].
      * intros _. exists "acertou". split; [in_list | exact Hac].
      * unfold acertou_int. rewrite getitem_None; [reflexivity|].
        apply col_index_None. now rewrite Hx1.
  - apply not_Forall_Exists in Htexts; [|apply _].
    split.
    + intros _. apply Exists_exists in Htexts as (c & Hc & Hno).
      exists c. split; [|exact Hno].
      apply list_elem_of_In in Hc. apply list_elem_of_In. cbn [In] in *. tauto.
    + intros _. unfold transform.
      rewrite limpeza_basica_raises; [reflexivity | exact Htexts].
Qed.

End TransformErrors.

(** ** Trimmed texts *)

Lemma lstrip_no_leading_space s : no_leading_space (lstrip s).
Proof.
  induction s as [|c s IH]; simpl; [exact I|].
  destruct (is_space c) eqn:E; [exact IH | exact E].
Qed.

Lemma rstrip_no_leading_space s : no_leading_space s -> no_leading_space (rstrip s).
Proof.
  destruct s as [|c s]; simpl; [trivial|]. intros Hc.
  destruct (rstrip s); [rewrite Hc|]; exact Hc.
Qed.

Lemma lstrip_no_op s : no_leading_space s -> lstrip s = s.
Proof. destruct s as [|c s]; simpl; [trivial|]. now intros ->. Qed.

Lemma rstrip_idem s : rstrip (rstrip s) = rstrip s.
Proof.
  induction s as [|c s IH]; simpl; [reflexivity|].
  destruct (rstrip s) as [|d u] eqn:E.
  - destruct (is_space c) eqn:Ec; simpl; [reflexivity | now rewrite Ec].
  - simpl in IH |- *. now rewrite IH.
Qed.

(** Stripping a stripped text changes nothing. *)
Lemma strip_idem s : strip (strip s) = strip s.
Proof.
  unfold strip. rewrite (lstrip_no_op (rstrip (lstrip s))).
  - apply rstrip_idem.
  - apply rstrip_no_leading_space, lstrip_no_leading_space.
Qed.

Lemma wrap64_range z : - 2 ^ 63 <= wrap64 z < 2 ^ 63.
Proof.
  unfold wrap64. pose proof (Z.mod_pos_bound (z + 2 ^ 63) (2 ^ 64)). lia.
Qed.

Lemma keep_last_nil {K} `{EqDecision K} (key : list cell -> K) l :
  keep_last key l = [] -> l = [].
Proof.
  induction l as [|r l IH]; [reflexivity|]. simpl.
  case_bool_decide as Hlater; [|discriminate].
  intros H. apply IH in H. subst l. now apply Exists_nil in Hlater.
Qed.

(** As many rows are kept as there are distinct keys. *)
Lemma keep_last_length {K} `{EqDecision K} (key : list cell -> K) l :
  length (keep_last key l) = length (remove_dups (key <$> l)).
Proof.
  induction l as [|r l IH]; [reflexivity|]. csimpl.
  case_bool_decide as Hlater; destruct (decide_rel elem_of (key r) (key <$> l)) as [Hin|Hin].
  - exact IH.
  - exfalso. apply Hin. apply Exists_exists in Hlater as (r' & Hr' & Hk).
    apply list_elem_of_fmap. eauto.
  - exfalso. apply Hlater, Exists_exists.
    apply list_elem_of_fmap in Hin as (r' & Hk & Hr'). eauto.
  - cbn [length]. now rewrite IH.
Qed.

(** ** What the curated table holds *)

Lemma keep_last_ext {K1 K2} `{EqDecision K1} `{EqDecision K2}
    (key1 : list cell -> K1) (key2 : list cell -> K2) l :
  (forall r r', key1 r' = key1 r <-> key2 r' = key2 r) ->
  keep_last key1 l = keep_last key2 l.
Proof.
  intros Hk. induction l as [|r l IH]; [reflexivity|]. simpl. rewrite IH.
  assert (Hex : Exists (fun r' => key1 r' = key1 r) l
                <-> Exists (fun r' => key2 r' = key2 r) l).
  { rewrite !Exists_exists. split; intros (r' & Hin & Hr'); exists r';
      (split; [exact Hin | now apply Hk]). }
  now rewrite (bool_decide_ext _ _ Hex).
Qed.

Lemma row_key_pair (r r' : list cell) :
  row_key [2; 4]%nat r' = row_key [2; 4]%nat r
  <-> (aluno r', question_id r') = (aluno r, question_id r).
Proof.
  unfold row_key, aluno, question_id. csimpl. split.
  - now intros [= -> ->].
  - now intros [= -> ->].
Qed.

Lemma filter_ext_Forall {A} (P Q : A -> Prop) `{!forall x, Decision (P x)}
    `{!forall x, Decision (Q x)} (l : list A) :
  Forall (fun x => P x <-> Q x) l -> filter P l = filter Q l.
Proof.
  induction 1 as [|x l Hx _ IH]; [reflexivity|].
  rewrite !filter_cons, IH.
  destruct (decide (P x)), (decide (Q x)); tauto.
Qed.

Lemma filter_fmap {A B} (f : A -> B) (P : B -> Prop) `{!forall x, Decision (P x)}
    (l : list A) :
  filter P (f <$> l) = f <$> filter (fun x => P (f x)) l.
Proof.
  induction l as [|x l IH]; [reflexivity|]. csimpl.
  rewrite !filter_cons, IH. now destruct (decide (P (f x))).
Qed.

Lemma sum_int64_range (s : Series) : - 2 ^ 63 <= sum_int64 s < 2 ^ 63.
Proof.
  unfold sum_int64.
  assert (H : forall acc, - 2 ^ 63 <= acc < 2 ^ 63 ->
            - 2 ^ 63 <= fold_left (fun acc c => match c with
                                                | Int z => wrap64 (acc + z)
                                                | _ => acc
                                                end) s acc < 2 ^ 63).
  { induction s as [|c s IH]; intros acc Hacc; [exact Hacc|].
    cbn [fold_left]. apply IH. destruct c; try exact Hacc. apply wrap64_range. }
  apply H. lia.
Qed.

Section CuratedTable.

Variable parse_number : string -> option Z.

(** Every curated row is the cleaned form of an input row whose trimmed
    [aluno] is not empty. *)
Lemma curated_rows_from l r :
  r ∈ curated_rows parse_number l ->
  exists r0, r0 ∈ l /\ r = coerce_row parse_number (clean_row r0) /\
             aluno r <> Str "".
Proof.
  intros Hr. rewrite curated_rows_perm in Hr.
  pose proof (elem_of_sublist _ _ _ Hr (keep_last_sublist _ _)) as Hrem.
  apply list_elem_of_filter in Hrem as [Hal Hin].
  apply list_elem_of_fmap in Hin as (r1 & -> & Hin).
  apply list_elem_of_fmap in Hin as (r0 & -> & Hin).
  exists r0. auto.
Qed.

Lemma coerce_range c : - 2 ^ 63 <= coerce parse_number c < 2 ^ 63.
Proof.
  unfold coerce. destruct c as [|t|z]; [lia | | apply wrap64_range].
  destruct (parse_number t); [apply wrap64_range | lia].
Qed.

Lemma clean_text_trimmed c : strip (clean_text c) = clean_text c.
Proof. destruct c; [reflexivity | apply strip_idem..]. Qed.

Lemma curated_rows_shape l :
  Forall (fun r : list cell => length r = 10%nat) l ->
  Forall curated_shape (curated_rows parse_number l).
Proof.
  intros Hl. apply Forall_forall. intros r (r0 & Hin & -> & _)%curated_rows_from.
  eapply Forall_forall in Hl; [|exact Hin].
  apply length10 in Hl as (c0&c1&c2&c3&c4&c5&c6&c7&c8&c9&->).
  rewrite clean_row_10. unfold curated_shape.
  eexists _, _, _, _, _, _, _, _, _, _. split; [reflexivity | apply coerce_range].
Qed.

Lemma curated_rows_invariants l :
  Forall (fun r : list cell => length r = 10%nat) l ->
  Forall (fun r : list cell => length r = 10%nat) (curated_rows parse_number l) /\
  Forall (fun r => exists s, aluno r = Str s /\ s <> "") (curated_rows parse_number l) /\
  Forall (fun r => forall k : nat, (1 <= k <= 8)%nat ->
            exists s, r !! k = Some (Str s) /\ strip s = s)
         (curated_rows parse_number l) /\
  Forall (fun r => exists z, acertou r = Int z /\ - 2 ^ 63 <= z < 2 ^ 63)
         (curated_rows parse_number l) /\
  NoDup ((fun r => (aluno r, question_id r)) <$> curated_rows parse_number l).
Proof.
  intros Ha.
  assert (Hrow : forall r, r ∈ curated_rows parse_number l ->
            exists c0 c1 c2 c3 c4 c5 c6 c7 c8 c9,
              r = [c0; Str (clean_text c1); Str (clean_text c2);
                   Str (clean_text c3); Str (clean_text c4); Str (clean_text c5);
                   Str (clean_text c6); Str (clean_text c7); Str (clean_text c8);
                   Int (coerce parse_number c9)] /\
              aluno r <> Str "").
  { intros r (r0 & Hin & -> & Hne)%curated_rows_from.
    eapply Forall_forall in Ha; [|exact Hin].
    apply length10 in Ha as (c0&c1&c2&c3&c4&c5&c6&c7&c8&c9&->).
    exists c0, c1, c2, c3, c4, c5, c6, c7, c8, c9. split; [reflexivity | exact Hne]. }
  split; [|split; [|split; [|split]]].
  - apply Forall_forall. intros r (c0&c1&c2&c3&c4&c5&c6&c7&c8&c9&->&_)%Hrow.
    reflexivity.
  - apply Forall_forall. intros r (c0&c1&c2&c3&c4&c5&c6&c7&c8&c9&->&Hne)%Hrow.
    exists (clean_text c2). split; [reflexivity|].
    intros E. apply Hne. unfold aluno, at_col. cbn. now rewrite E.
  - apply Forall_forall. intros r (c0&c1&c2&c3&c4&c5&c6&c7&c8&c9&->&_)%Hrow k Hk.
    destruct k as [|[|[|[|[|[|[|[|[|k]]]]]]]]]; try lia;
      (eexists; split; [reflexivity | apply clean_text_trimmed]).
  - apply Forall_forall. intros r (c0&c1&c2&c3&c4&c5&c6&c7&c8&c9&->&_)%Hrow.
    exists (coerce parse_number c9). split; [reflexivity | apply coerce_range].
  - rewrite curated_rows_perm. unfold deduplicated.
    rewrite (keep_last_ext _ (fun r => (aluno r, question_id r)))
      by (intros r r'; apply row_key_pair).
    apply keep_last_NoDup.
Qed.

(** X2. The curated table of a raw table is a raw table again. In each of its
    rows [aluno] is a text that is not empty, the eight text columns hold
    trimmed texts, and [acertou] holds a 64-bit integer; no two rows have
    the same pair (aluno, question_id). *)
Theorem transform_curated_invariants (df cur : DataFrame) (m : Metrics) :
  raw_table df ->
  transform parse_number df = Some (cur, m) ->
  raw_table cur /\
  Forall (fun r => exists s, aluno r = Str s /\ s <> "") (rows cur) /\
  Forall (fun r => forall k : nat, (1 <= k <= 8)%nat ->
            exists s, r !! k = Some (Str s) /\ strip s = s) (rows cur) /\
  Forall (fun r => exists z, acertou r = Int z /\ - 2 ^ 63 <= z < 2 ^ 63) (rows cur) /\
  NoDup ((fun r => (aluno r, question_id r)) <$> rows cur).
Proof.
  intros [Hc Ha] Ht. rewrite (transform_rows parse_number df Hc) in Ht.
  injection Ht as <- <-. cbn [rows columns].
  unfold aligned in Ha. rewrite Hc in Ha.
  destruct (curated_rows_invariants _ Ha) as (Hlen & Hal & Htrim & Hint & Hnd).
  split; [|auto]. split; [reflexivity | exact Hlen].
Qed.

(** X3. No row of the curated table is invented: each one comes from a row of
    the input whose trimmed [aluno] is not empty, with the timestamp as it
    was, the eight text columns cleaned and [acertou] coerced. *)
Theorem transform_rows_provenance (df cur : DataFrame) (m : Metrics) :
  raw_table df ->
  transform parse_number df = Some (cur, m) ->
  forall r, r ∈ rows cur ->
    exists r0, r0 ∈ rows df /\
      clean_text (aluno r0) <> "" /\
      r !! 0%nat = r0 !! 0%nat /\
      (forall k : nat, (1 <= k <= 8)%nat ->
         r !! k = Some (Str (clean_text (at_col k r0)))) /\
      r !! 9%nat = Some (Int (coerce parse_number (acertou r0))).
Proof.
  intros [Hc Ha] Ht. rewrite (transform_rows parse_number df Hc) in Ht.
  injection Ht as <- <-. cbn [rows]. intros r (r0 & Hin & -> & Hne)%curated_rows_from.
  exists r0. split; [exact Hin|].
  unfold aligned in Ha. rewrite Hc in Ha.
  eapply Forall_forall in Ha; [|exact Hin].
  apply length10 in Ha as (c0&c1&c2&c3&c4&c5&c6&c7&c8&c9&->).
  rewrite clean_row_10 in Hne |- *.
  split; [|split; [reflexivity|split; [|reflexivity]]].
  - intros E. apply Hne. unfold aluno, at_col in E |- *. cbn in E |- *. now rewrite E.
  - intros k Hk.
    destruct k as [|[|[|[|[|[|[|[|[|k]]]]]]]]]; try lia; reflexivity.
Qed.

(** X4. What the metrics count. [linhas_raw] is the number of input rows whose
    trimmed [aluno] is not empty and [linhas_curated] the number of distinct
    pairs (aluno, question_id) among them after cleaning, so that
    0 <= linhas_curated <= linhas_raw <= rows of the input, no negative
    number of duplicates is reported, and one count is zero exactly when
    the other is. [total_acertos] is a 64-bit integer. *)
Theorem transform_metrics_count (df cur : DataFrame) (m : Metrics) :
  raw_table df ->
  transform parse_number df = Some (cur, m) ->
  linhas_raw m
  = Z.of_nat (length (filter (fun r => clean_text (aluno r) <> "") (rows df))) /\
  linhas_curated m
  = Z.of_nat (length (remove_dups
       ((fun r => (clean_text (aluno r), clean_text (question_id r)))
          <$> filter (fun r => clean_text (aluno r) <> "") (rows df)))) /\
  0 <= linhas_curated m <= linhas_raw m /\
  linhas_raw m <= shape0 df /\
  0 <= duplicados_removidos m <= linhas_raw m /\
  (linhas_curated m = 0 <-> linhas_raw m = 0) /\
  - 2 ^ 63 <= total_acertos m < 2 ^ 63.
Proof.
  intros [Hc Ha] Ht. rewrite (transform_rows parse_number df Hc) in Ht.
  injection Ht as <- <-.
  cbn [linhas_raw linhas_curated duplicados_removidos total_acertos].
  unfold aligned in Ha. rewrite Hc in Ha. unfold shape0.
  set (l := rows df) in *.
  set (f := fun r => coerce_row parse_number (clean_row r)).
  assert (Hrem : remaining parse_number l
                 = f <$> filter (fun r => clean_text (aluno r) <> "") l).
  { unfold remaining. rewrite <- list_fmap_compose.
    change (coerce_row parse_number ∘ clean_row) with f.
    rewrite filter_fmap. f_equal. apply filter_ext_Forall.
    eapply Forall_impl; [exact Ha|]. intros r Hr.
    apply length10 in Hr as (c0&c1&c2&c3&c4&c5&c6&c7&c8&c9&->).
    unfold f. rewrite clean_row_10. unfold aluno, at_col. cbn.
    split; intros H E; apply H; congruence. }
  assert (Hded : length (deduplicated parse_number l)
                 = length (remove_dups
                     ((fun r => (clean_text (aluno r), clean_text (question_id r)))
                        <$> filter (fun r => clean_text (aluno r) <> "") l))).
  { unfold deduplicated.
    rewrite (keep_last_ext _ (fun r => (aluno r, question_id r)))
      by (intros r r'; apply row_key_pair).
    rewrite keep_last_length, Hrem, <- list_fmap_compose.
    set (l1 := filter _ l).
    assert (Hl1 : Forall (fun r : list cell => length r = 10%nat) l1)
      by (eapply Forall_of_sublist; [apply sublist_filter | exact Ha]).
    set (g := fun pq : string * string => (Str pq.1, Str pq.2)).
    assert (Hg : Inj (=) (=) g) by (intros [a q] [a' q'] [= -> ->]; reflexivity).
    assert (Hfm : (fun r => (aluno r, question_id r)) ∘ f <$> l1
                  = g <$> ((fun r => (clean_text (aluno r), clean_text (question_id r)))
                             <$> l1)).
    { rewrite <- list_fmap_compose. apply Forall_fmap_ext_1.
      eapply Forall_impl; [exact Hl1|]. intros r Hr.
      apply length10 in Hr as (c0&c1&c2&c3&c4&c5&c6&c7&c8&c9&->). reflexivity. }
    rewrite Hfm. generalize ((fun r => (clean_text (aluno r), clean_text (question_id r)))
                               <$> l1).
    intros ks. induction ks as [|k ks IH]; [reflexivity|]. csimpl.
    destruct (decide_rel elem_of (g k) (g <$> ks)) as [Hin|Hin];
      destruct (decide_rel elem_of k ks) as [Hin'|Hin'].
    - exact IH.
    - exfalso. apply Hin'. now apply (list_elem_of_fmap_inj_2 g).
    - exfalso. apply Hin. now apply list_elem_of_fmap_2.
    - cbn [length]. now rewrite IH. }
  pose proof (sublist_length _ _ (keep_last_sublist (row_key [2; 4]%nat)
                                    (remaining parse_number l))) as Hle.
  fold (deduplicated parse_number l) in Hle.
  pose proof (length_filter (fun r => clean_text (aluno r) <> "") l) as Hfl.
  assert (Hlen : length (remaining parse_number l)
                 = length (filter (fun r => clean_text (aluno r) <> "") l))
    by now rewrite Hrem, length_fmap.
  split; [now rewrite Hlen|]. split; [now rewrite Hded|].
  split; [lia|]. split; [lia|]. split; [lia|]. split.
  - split; intros H0.
    + assert (Hnil : deduplicated parse_number l = [])
        by (apply length_zero_iff_nil; lia).
      apply keep_last_nil in Hnil. rewrite Hnil. reflexivity.
    + lia.
  - apply sum_int64_range.
Qed.

End CuratedTable.

Lemma transform_curated_invariants_witness :
  raw_table sample_raw /\
  transform int_literal sample_raw = Some (sample_curated, sample_metrics) /\
  (raw_table sample_curated /\
   Forall (fun r => exists s, aluno r = Str s /\ s <> "") (rows sample_curated) /\
   Forall (fun r => forall k : nat, (1 <= k <= 8)%nat ->
             exists s, r !! k = Some (Str s) /\ strip s = s) (rows sample_curated) /\
   Forall (fun r => exists z, acertou r = Int z /\ - 2 ^ 63 <= z < 2 ^ 63)
          (rows sample_curated) /\
   NoDup ((fun r => (aluno r, question_id r)) <$> rows sample_curated)).
Proof.
  split; [split; [reflexivity | repeat constructor]|].
  split; [vm_compute; reflexivity|].
  apply (transform_curated_invariants int_literal sample_raw sample_curated sample_metrics).
  - split; [reflexivity | repeat constructor].
  - vm_compute; reflexivity.
Defined.

Lemma transform_rows_provenance_witness :
  raw_table sample_raw /\
  transform int_literal sample_raw = Some (sample_curated, sample_metrics) /\
  forall r, r ∈ rows sample_curated ->
    exists r0, r0 ∈ rows sample_raw /\
      clean_text (aluno r0) <> "" /\
      r !! 0%nat = r0 !! 0%nat /\
      (forall k : nat, (1 <= k <= 8)%nat ->
         r !! k = Some (Str (clean_text (at_col k r0)))) /\
      r !! 9%nat = Some (Int (coerce int_literal (acertou r0))).
Proof.
  split; [split; [reflexivity | repeat constructor]|].
  split; [vm_compute; reflexivity|].
  apply (transform_rows_provenance int_literal sample_raw sample_curated sample_metrics).
  - split; [reflexivity | repeat constructor].
  - vm_compute; reflexivity.
Defined.

Lemma transform_metrics_count_witness :
  raw_table sample_raw /\
  transform int_literal sample_raw = Some (sample_curated, sample_metrics) /\
  (linhas_raw sample_metrics
   = Z.of_nat (length (filter (fun r => clean_text (aluno r) <> "") (rows sample_raw))) /\
   linhas_curated sample_metrics
   = Z.of_nat (length (remove_dups
        ((fun r => (clean_text (aluno r), clean_text (question_id r)))
           <$> filter (fun r => clean_text (aluno r) <> "") (rows sample_raw)))) /\
   0 <= linhas_curated sample_metrics <= linhas_raw sample_metrics /\
   linhas_raw sample_metrics <= shape0 sample_raw /\
   0 <= duplicados_removidos sample_metrics <= linhas_raw sample_metrics /\
   (linhas_curated sample_metrics = 0 <-> linhas_raw sample_metrics = 0) /\
   - 2 ^ 63 <= total_acertos sample_metrics < 2 ^ 63).
Proof.
  split; [split; [reflexivity | repeat constructor]|].
  split; [vm_compute; reflexivity|].
  apply (transform_metrics_count int_literal sample_raw sample_curated sample_metrics).
  - split; [reflexivity | repeat constructor].
  - vm_compute; reflexivity.
Defined.

(** ** Reading and writing files *)

Lemma load_proper_path df p fs fs' : load df p fs = Some fs' -> writable fs p.
Proof.
  intros (Hanc & Hd & _)%load_inv. split; [|split; [|exact Hanc]].
  - intros ->. apply Hd. cbn [with_parents dirs].
    apply elem_of_union_l, elem_of_list_to_set, ancestors_self.
  - intros Hin. apply Hd. cbn [with_parents dirs]. now apply elem_of_union_r.
Qed.

(** X7. [load] succeeds exactly on a path that can be written. It then creates
    the missing directories above the path, puts the text of the table in
    the file, and leaves every other file and every directory as it was. *)
Theorem load_writes (df : DataFrame) (p : path) (fs : FileSystem) :
  (is_Some (load df p fs) <-> writable fs p) /\
  forall fs', load df p fs = Some fs' ->
    files fs' !! p = Some (to_csv df) /\
    (forall q, q <> p -> files fs' !! q = files fs !! q) /\
    (forall d, d ∈ dirs fs' <-> d ∈ dirs fs \/ d ∈ ancestors (parent p)).
Proof.
  split.
  - split.
    + intros [fs' H]. now apply load_proper_path in H.
    + intros Hw. rewrite (load_writable _ _ _ Hw). eauto.
  - intros fs' (_ & _ & ->)%load_inv. cbn [files dirs with_parents].
    split; [now rewrite lookup_insert_eq|]. split.
    + intros q Hq. now rewrite lookup_insert_ne.
    + intros d. rewrite elem_of_union, elem_of_list_to_set. tauto.
Qed.

Lemma writable_after_load df p fs fs' :
  load df p fs = Some fs' -> writable fs' p.
Proof.
  intros H. pose proof (load_proper_path _ _ _ _ H) as (Hp & Hd & _).
  apply load_inv in H as (Hanc & Hd' & ->).
  split; [exact Hp|]. split; [exact Hd'|]. cbn [files].
  apply Forall_forall. intros a Ha. rewrite lookup_insert_ne.
  - eapply Forall_forall in Hanc; [exact Hanc | exact Ha].
  - intros <-. now apply (not_own_ancestor p Hp).
Qed.

(** X8. The last table loaded is the one the file holds: loading a second table
    on the same path gives the file system that loading it alone gives. *)
Theorem load_overwrites (df1 df2 : DataFrame) (p : path) (fs fs1 : FileSystem) :
  load df1 p fs = Some fs1 ->
  load df2 p fs1 = load df2 p fs /\
  exists fs2, load df2 p fs = Some fs2 /\ files fs2 !! p = Some (to_csv df2).
Proof.
  intros H1. pose proof (writable_after_load _ _ _ _ H1) as Hw1.
  pose proof (load_proper_path _ _ _ _ H1) as Hw.
  rewrite (load_writable df2 _ _ Hw1), (load_writable df2 _ _ Hw).
  apply load_inv in H1 as (_ & _ & ->). split.
  - cbn [files dirs with_parents]. rewrite insert_insert_eq. do 2 f_equal.
    apply set_eq. intros x. rewrite !elem_of_union. tauto.
  - eexists. split; [reflexivity|]. cbn [files]. now rewrite lookup_insert_eq.
Qed.

(** X9. [ensure_parent_dir] raises exactly when the parent or a directory above
    it is a regular file. Otherwise it makes these directories exist,
    touches no file and removes no directory, and calling it again changes
    nothing. *)
Theorem ensure_parent_dir_exist_ok (p : path) (fs : FileSystem) :
  (ensure_parent_dir p fs = None <->
   Exists (fun a => is_Some (files fs !! a)) (ancestors (parent p))) /\
  forall fs', ensure_parent_dir p fs = Some fs' ->
    files fs' = files fs /\
    (forall d, d ∈ dirs fs' <-> d ∈ dirs fs \/ d ∈ ancestors (parent p)) /\
    ensure_parent_dir p fs' = Some fs'.
Proof.
  split.
  - unfold ensure_parent_dir, mkdir_parents. case_bool_decide as Hex.
    + tauto.
    + split; [discriminate | contradiction].
  - intros fs' [Hanc ->]%ensure_parent_dir_inv.
    split; [reflexivity|]. split.
    + intros d. cbn [with_parents dirs].
      rewrite elem_of_union, elem_of_list_to_set. tauto.
    + rewrite (ensure_parent_dir_Some p (with_parents p fs)) by exact Hanc.
      f_equal. unfold with_parents. cbn [files dirs]. f_equal.
      apply set_eq. intros x. rewrite !elem_of_union. tauto.
Qed.

(** X10. [extract] returns in two cases only: the path does not exist, or it is
    a file that [pd.read_csv] accepts, one whose text the tokenizer cuts
    into a line of labels and records none of which has more fields than
    the width of the table. It raises on a directory, on a text the
    tokenizer rejects, on a text without any line, and on a record with
    more fields than the labels and the first record allow. *)
Theorem extract_returns_iff (tokenize : string -> option (list (list string)))
    (p : path) (fs : FileSystem) :
  is_Some (extract tokenize p fs) <->
  path_exists fs p = false \/
  exists (t : string) (hdr : list string) (recs : list (list string)),
    files fs !! p = Some t /\
    tokenize t = Some (hdr :: recs) /\
    Forall (fun r => (length r <= width hdr recs)%nat) recs.
Proof.
  split.
  - intros [df [[H _] | (t & hdr & recs & Hf & Ht & Hw & _)]%extract_inv].
    + now left.
    + right. eauto 6.
  - intros [H | (t & hdr & recs & Hf & Ht & Hw)].
    + rewrite (extract_missing _ _ _ H). eauto.
    + rewrite (extract_file _ _ _ _ _ _ Hf Ht Hw). eauto.
Qed.

Section PipelineFrame.

Variable tokenize : string -> option (list (list string)).

Variable parse_number : string -> option Z.

(** X11. [run_pipeline] raises exactly when [extract] raises on the raw path or
    the curated path cannot be written: [transform] never raises on what
    [extract] returns. *)
Theorem run_pipeline_succeeds_iff (paths : ETLPaths) (fs : FileSystem) :
  is_Some (run_pipeline tokenize parse_number paths fs) <->
  is_Some (extract tokenize (raw_csv paths) fs) /\ writable fs (curated_csv paths).
Proof.
  unfold run_pipeline. split.
  - intros [[fs' res] H].
    destruct (extract tokenize (raw_csv paths) fs) as [df_raw|]; [|discriminate].
    cbn [mbind option_bind] in H.
    destruct (transform parse_number df_raw) as [res'|]; [|discriminate].
    cbn [mbind option_bind] in H.
    destruct (load res'.1 (curated_csv paths) fs) as [fs1|] eqn:Hl; [|discriminate].
    split; [eauto|]. now apply load_proper_path in Hl.
  - intros [[df_raw Hx] Hw]. rewrite Hx. cbn [mbind option_bind].
    pose proof (extract_raw_table _ _ _ _ Hx) as [Hc _].
    rewrite (transform_rows parse_number df_raw Hc). cbn [mbind option_bind fst].
    rewrite (load_writable _ _ _ Hw). cbn [mbind option_bind]. eauto.
Qed.

(** X12. A run of the pipeline writes the curated file and nothing else: every
    other file keeps its content, the raw file included when it is another
    path, no directory is removed, and the table returned has the ten
    columns and is the one the curated file holds. *)
Theorem run_pipeline_frame (paths : ETLPaths) (fs fs' : FileSystem)
    (res : DataFrame * Metrics) :
  run_pipeline tokenize parse_number paths fs = Some (fs', res) ->
  raw_table res.1 /\
  files fs' !! curated_csv paths = Some (to_csv res.1) /\
  (forall q, q <> curated_csv paths -> files fs' !! q = files fs !! q) /\
  (forall d, d ∈ dirs fs -> d ∈ dirs fs') /\
  (raw_csv paths <> curated_csv paths ->
   is_Some (files fs !! raw_csv paths) ->
   extract tokenize (raw_csv paths) fs' = extract tokenize (raw_csv paths) fs).
Proof.
  unfold run_pipeline. intros H.
  destruct (extract tokenize (raw_csv paths) fs) as [df_raw|] eqn:Hx; [|discriminate].
  cbn [mbind option_bind] in H.
  pose proof (extract_raw_table _ _ _ _ Hx) as [Hc Ha].
  rewrite (transform_rows parse_number df_raw Hc) in H. cbn [mbind option_bind fst] in H.
  destruct (load _ (curated_csv paths) fs) as [fs1|] eqn:Hl; [|discriminate].
  injection H as <- <-. cbn [fst].
  apply load_inv in Hl as (_ & _ & ->). cbn [files dirs with_parents].
  split; [|split; [|split; [|split]]].
  - split; [reflexivity|]. unfold aligned. cbn [columns rows].
    assert (Ha' : aligned (mkDataFrame REQUIRED_COLUMNS (rows df_raw)))
      by (unfold aligned in Ha |- *; now rewrite Hc in Ha).
    eapply Forall_impl; [exact (curated_rows_curated parse_number _ Ha')|].
    intros r (ts&s1&s2&s3&s4&s5&s6&s7&s8&z&->). reflexivity.
  - now rewrite lookup_insert_eq.
  - intros q Hq. now rewrite lookup_insert_ne.
  - intros d Hd. now apply elem_of_union_r.
  - intros Hne [f Hf]. rewrite <- Hx. apply extract_ext.
    + cbn [files]. now rewrite lookup_insert_ne.
    + rewrite !(path_exists_file _ _ f); [reflexivity | exact Hf |].
      cbn [files]. now rewrite lookup_insert_ne.
Qed.

End PipelineFrame.

(** ** The recorder and the pipeline together *)

Lemma rows_text_length df :
  raw_table df -> Forall (fun rec => length rec = 10%nat) (rows_text df).
Proof.
  intros [Hc Ha]. unfold rows_text. apply Forall_fmap.
  eapply Forall_impl; [exact Ha|]. intros r Hr. cbn [compose].
  now rewrite length_fmap, Hr, Hc.
Qed.

Lemma width_required (recs : list (list string)) :
  Forall (fun rec => length rec = 10%nat) recs ->
  width REQUIRED_COLUMNS recs = 10%nat.
Proof.
  intros H. unfold width. destruct H as [|r recs Hr _]; [reflexivity|].
  now rewrite Hr.
Qed.

Lemma normalized_record_required recs (rec : list string) :
  width REQUIRED_COLUMNS recs = 10%nat -> length rec = 10%nat ->
  normalized_record REQUIRED_COLUMNS recs rec = rec.
Proof.
  intros Hw Hr. unfold normalized_record, leading. rewrite Hw.
  do 10 (destruct rec as [|? rec]; [discriminate Hr|]).
  destruct rec; [|discriminate Hr]. reflexivity.
Qed.

Lemma read_record_required recs (r : list string) :
  width REQUIRED_COLUMNS recs = 10%nat -> length r = 10%nat ->
  read_record REQUIRED_COLUMNS recs r = Str <$> r.
Proof.
  intros Hw Hr. unfold read_record, leading. rewrite Hw, Hr.
  change (10 - length REQUIRED_COLUMNS)%nat with 0%nat.
  cbn [Nat.sub replicate drop]. now rewrite (right_id_L [] (++)).
Qed.

Lemma safe_required : safe_row REQUIRED_COLUMNS.
Proof. by_computation. Qed.

(** The tokenizer of the worked examples gives back what was written. *)
Lemma csv_tokenize_reads_back : reads_back csv_tokenize.
Proof.
  intros recs Hs _. apply csv_tokenize_written.
  constructor; [exact safe_required | exact Hs].
Qed.

Section ReadBack.

Variable tokenize : string -> option (list (list string)).

Hypothesis tokenize_written : reads_back tokenize.

Variable parse_number : string -> option Z.

Lemma append_raw_row_proper_path paths row fs fs' :
  append_raw_row tokenize paths row fs = Some fs' -> writable fs (raw_csv paths).
Proof.
  unfold append_raw_row.
  destruct (ensure_parent_dir (raw_csv paths) fs) as [fs1|] eqn:He; [|discriminate].
  cbn [mbind option_bind]. apply ensure_parent_dir_inv in He as [Hanc ->].
  destruct (extract _ _ _) as [df|]; [|discriminate]. cbn [mbind option_bind].
  intros [Hd _]%write_file_inv. split; [|split; [|exact Hanc]].
  - intros E. apply Hd. rewrite E. cbn [with_parents dirs].
    apply elem_of_union_l, elem_of_list_to_set, ancestors_self.
  - intros Hin. apply Hd. cbn [with_parents dirs]. now apply elem_of_union_r.
Qed.

(** What [extract] reads from a file written with the ten columns: every
    field as a text. *)
Lemma extract_written fs p (recs : list (list string)) :
  files fs !! p = Some (csv_write (REQUIRED_COLUMNS :: recs)) ->
  Forall safe_row recs ->
  Forall (fun rec => length rec = 10%nat) recs ->
  extract tokenize p fs
  = Some (mkDataFrame REQUIRED_COLUMNS ((fun rec : list string => Str <$> rec) <$> recs)).
Proof.
  intros Hf Hs Hl. pose proof (width_required recs Hl) as Hw.
  rewrite (extract_file tokenize _ _ _ REQUIRED_COLUMNS recs Hf (tokenize_written _ Hs Hl)).
  - unfold normalized_table. do 2 f_equal. apply Forall_fmap_ext_1.
    eapply Forall_impl; [exact Hl|]. intros rec Hrec. cbn beta in *.
    now rewrite normalized_record_required.
  - rewrite Hw. eapply Forall_impl; [exact Hl|]. intros rec Hrec.
    cbn beta in *. lia.
Qed.

(** The rows [extract] returns after an append: the rows it returned
    before, then the new record. *)
Lemma append_then_extract_rows paths row fs fs' df :
  extract tokenize (raw_csv paths) fs = Some df ->
  append_raw_row tokenize paths row fs = Some fs' ->
  Forall safe_row (rows_text df) ->
  safe_row (record_text row) ->
  extract tokenize (raw_csv paths) fs'
  = Some (mkDataFrame REQUIRED_COLUMNS (rows df ++ [Str <$> record_text row])).
Proof.
  intros Hx H Hs Hr.
  pose proof (append_raw_row_proper_path _ _ _ _ H) as (Hp & _ & _).
  apply append_raw_row_inv in H as (df0 & Hx0 & ->).
  rewrite (extract_with_parents _ _ _ Hp), Hx in Hx0. injection Hx0 as <-.
  rewrite (extract_written _ _ (rows_text df ++ [record_text row])).
  - do 2 f_equal. rewrite fmap_app. f_equal.
    exact (extract_rows_text tokenize _ _ _ Hx).
  - cbn [files]. now rewrite lookup_insert_eq.
  - apply Forall_app. split; [exact Hs | now constructor].
  - apply Forall_app. split; [|repeat constructor].
    apply rows_text_length. eapply extract_raw_table. exact Hx.
Qed.

(** X13. After an append that succeeds, [extract] returns one row more: the rows
    it returned before the append, in their order and as they were, and the
    record last, field by field as the text written for it. The tokenizer
    is assumed to give back what [csv.writer] wrote for safe records, and
    the rows written are assumed safe: no carriage return and no null
    character in a field, no space or tab at the start of a line. *)
Theorem append_then_extract (paths : ETLPaths) (row : gmap string cell)
    (fs fs' : FileSystem) (df : DataFrame) :
  extract tokenize (raw_csv paths) fs = Some df ->
  append_raw_row tokenize paths row fs = Some fs' ->
  Forall safe_row (rows_text df) ->
  safe_row (record_text row) ->
  exists df',
    extract tokenize (raw_csv paths) fs' = Some df' /\
    columns df' = REQUIRED_COLUMNS /\
    rows df'
    = rows df
      ++ [(fun c => Str (cell_text (default NA (row !! c)))) <$> REQUIRED_COLUMNS].
Proof.
  intros Hx H Hs Hr. eexists.
  split; [exact (append_then_extract_rows _ _ _ _ _ Hx H Hs Hr)|].
  split; reflexivity.
Qed.

Lemma remaining_snoc l r :
  aluno (coerce_row parse_number (clean_row r)) <> Str "" ->
  remaining parse_number (l ++ [r])
  = remaining parse_number l ++ [coerce_row parse_number (clean_row r)].
Proof.
  intros H. unfold remaining. rewrite !fmap_app, filter_app. f_equal.
  csimpl. rewrite filter_cons. now destruct (decide _).
Qed.

(** X14. The answer just recorded is the one the curated table holds. When a
    record whose trimmed [aluno] is not empty is appended and the pipeline
    is run, the curated table has exactly one row for the (aluno,
    question_id) of the record: the record itself, with its timestamp, its
    eight texts trimmed and its [acertou] coerced. The tokenizer is assumed
    to give back what [csv.writer] wrote for safe records, and the rows
    written, those the file had and the record, are assumed safe. *)
Theorem recorded_answer_is_curated (paths : ETLPaths) (row : gmap string cell)
    (fs fs1 fs2 : FileSystem) (df cur : DataFrame) (m : Metrics) :
  let field := fun c => cell_text (default NA (row !! c)) in
  extract tokenize (raw_csv paths) fs = Some df ->
  Forall safe_row (rows_text df) ->
  safe_row (record_text row) ->
  append_raw_row tokenize paths row fs = Some fs1 ->
  run_pipeline tokenize parse_number paths fs1 = Some (fs2, (cur, m)) ->
  strip (field "aluno") <> "" ->
  filter (fun r => aluno r = Str (strip (field "aluno")) /\
                   question_id r = Str (strip (field "question_id")))
         (rows cur)
  = [[Str (field "timestamp"); Str (strip (field "turma"));
      Str (strip (field "aluno")); Str (strip (field "bloco"));
      Str (strip (field "question_id")); Str (strip (field "pergunta"));
      Str (strip (field "tipo")); Str (strip (field "resposta_aluno"));
      Str (strip (field "gabarito"));
      Int (coerce parse_number (Str (field "acertou")))]].
Proof.
  intros field Hx0 Hs Hr Happ Hrun Hal.
  pose proof (append_then_extract_rows _ _ _ _ _ Hx0 Happ Hs Hr) as Hx.
  unfold run_pipeline in Hrun. rewrite Hx in Hrun. cbn [mbind option_bind] in Hrun.
  rewrite transform_rows in Hrun by reflexivity.
  cbn [mbind option_bind fst rows] in Hrun.
  destruct (load _ _ fs1) as [fs2'|]; [|discriminate].
  injection Hrun as _ <- _. cbn [rows].
  set (old := rows df).
  set (new := [Str (field "timestamp"); Str (strip (field "turma"));
      Str (strip (field "aluno")); Str (strip (field "bloco"));
      Str (strip (field "question_id")); Str (strip (field "pergunta"));
      Str (strip (field "tipo")); Str (strip (field "resposta_aluno"));
      Str (strip (field "gabarito"));
      Int (coerce parse_number (Str (field "acertou")))]).
  assert (Hkey : forall r : list cell,
             row_key [2; 4]%nat r
             = [Str (strip (field "aluno")); Str (strip (field "question_id"))]
             <-> aluno r = Str (strip (field "aluno")) /\
                 question_id r = Str (strip (field "question_id"))).
  { intros r. unfold row_key, aluno, question_id. csimpl. split.
    - intros [= -> ->]. now split.
    - intros [-> ->]. reflexivity. }
  rewrite <- (list_filter_iff _ _ _ Hkey).
  apply Permutation_singleton_r.
  rewrite curated_rows_perm. unfold deduplicated.
  rewrite keep_last_filter, remaining_snoc.
  - change (coerce_row parse_number (clean_row _)) with new.
    rewrite filter_app, filter_cons.
    destruct (decide _) as [_|Hno]; [|exfalso; apply Hno; reflexivity].
    rewrite filter_nil, last_snoc. reflexivity.
  - change (coerce_row parse_number (clean_row _)) with new.
    unfold aluno, at_col. cbn. intros [= E]. now apply Hal.
Qed.

End ReadBack.

(** ** Decimal numerals *)

Lemma digit_of_pretty_N_char (x : N) :
  (x < 10)%N -> digit_of (pretty_N_char x) = Some (Z.of_N x).
Proof.
  intros H.
  assert (Hx : (x = 0 \/ x = 1 \/ x = 2 \/ x = 3 \/ x = 4 \/ x = 5 \/ x = 6 \/
                x = 7 \/ x = 8 \/ x = 9)%N) by lia.
  repeat (destruct Hx as [->|Hx]; [reflexivity|]). now subst.
Qed.

Lemma digits_value_pretty_N_go (x : N) : forall s,
  exists k, forall acc,
    digits_value acc (pretty_N_go x s) = digits_value (acc * k + Z.of_N x) s.
Proof.
  induction (N.lt_wf_0 x) as [x _ IH]. intros s.
  destruct (decide (x = 0%N)) as [->|Hx].
  - exists 1. intros acc. rewrite pretty_N_go_0. f_equal. lia.
  - rewrite pretty_N_go_step by lia.
    destruct (IH (x `div` 10)%N) with (s := String (pretty_N_char (x `mod` 10)) s)
      as [k Hk]; [apply N.div_lt; lia|].
    exists (10 * k). intros acc. rewrite Hk. cbn [digits_value].
    rewrite digit_of_pretty_N_char by (apply N.mod_lt; lia).
    cbn [mbind option_bind]. f_equal.
    rewrite N2Z.inj_div, N2Z.inj_mod. change (Z.of_N 10) with 10.
    pose proof (Z.div_mod (Z.of_N x) 10). lia.
Qed.

Lemma digits_value_pretty_pos (p : positive) :
  digits_value 0 (pretty_N_go (N.pos p) "") = Some (Z.pos p).
Proof.
  destruct (digits_value_pretty_N_go (N.pos p) "") as [k Hk].
  rewrite Hk. cbn [digits_value]. f_equal.
Qed.

Lemma digit_of_dash : digit_of "-" = None.
Proof. reflexivity. Qed.

Lemma int_literal_digits (s : string) (v : Z) :
  digits_value 0 s = Some v -> v <> 0 -> int_literal s = Some v.
Proof.
  destruct s as [|c s]; [intros [= <-]; congruence|]. intros H _.
  destruct (decide (c = "-"%char)) as [->|Hc].
  - cbn [digits_value] in H. rewrite digit_of_dash in H. discriminate.
  - rewrite <- H.
    destruct c as [[] [] [] [] [] [] [] []]; try reflexivity. now destruct Hc.
Qed.

(** [int_literal] reads back the numeral printed for an integer. *)
Lemma int_literal_pretty (z : Z) : int_literal (pretty z) = Some z.
Proof.
  destruct z as [|p|p].
  - reflexivity.
  - change (pretty (Z.pos p)) with (pretty_N_go (N.pos p) "").
    apply int_literal_digits; [apply digits_value_pretty_pos | discriminate].
  - change (pretty (Z.neg p)) with (String "-" (pretty_N_go (N.pos p) "")).
    pose proof (digits_value_pretty_pos p) as H.
    destruct (pretty_N_go (N.pos p) "") as [|c s] eqn:E; [discriminate|].
    cbn [int_literal]. rewrite H. reflexivity.
Qed.

(** ** Sums of 64-bit integers *)

Lemma wrap64_add_l a b : wrap64 (wrap64 a + b) = wrap64 (a + b).
Proof.
  unfold wrap64. f_equal.
  replace ((a + 2 ^ 63) mod 2 ^ 64 - 2 ^ 63 + b + 2 ^ 63)
    with ((a + 2 ^ 63) mod 2 ^ 64 + b) by lia.
  rewrite Zplus_mod_idemp_l. f_equal. lia.
Qed.

Lemma sum_int64_from (s : Series) : forall acc,
  - 2 ^ 63 <= acc < 2 ^ 63 ->
  fold_left (fun acc c => match c with Int z => wrap64 (acc + z) | _ => acc end) s acc
  = wrap64 (acc + sum_Z s).
Proof.
  induction s as [|c s IH]; intros acc Hacc; cbn [fold_left sum_Z foldr].
  - rewrite Z.add_0_r. symmetry. now apply wrap64_small.
  - fold (sum_Z s). destruct c as [|t|z]; try now apply IH.
    rewrite IH by apply wrap64_range. rewrite wrap64_add_l. f_equal. lia.
Qed.

(** The 64-bit sum is the exact sum, wrapped once. *)
Lemma sum_int64_wrap (s : Series) : sum_int64 s = wrap64 (sum_Z s).
Proof. unfold sum_int64. rewrite sum_int64_from by lia. reflexivity. Qed.

Lemma sum_Z_perm (s1 s2 : Series) : s1 ≡ₚ s2 -> sum_Z s1 = sum_Z s2.
Proof.
  unfold sum_Z.
  induction 1 as [|c s1 s2 _ IH|c1 c2 s|s1 s2 s3 _ IH1 _ IH2]; cbn [foldr].
  - reflexivity.
  - now rewrite IH.
  - destruct c1, c2; lia.
  - congruence.
Qed.

(** The 64-bit sum of a series does not depend on the order of its values. *)
Lemma sum_int64_perm (s1 s2 : Series) : s1 ≡ₚ s2 -> sum_int64 s1 = sum_int64 s2.
Proof. intros H. rewrite !sum_int64_wrap. f_equal. now apply sum_Z_perm. Qed.

(** ** Reading back what was written *)

Section ResultsFacts.

Variable tokenize : string -> option (list (list string)).

Hypothesis tokenize_written : reads_back tokenize.

Variable parse_number : string -> option Z.

(** The numeric parser reads the decimal numeral of a 64-bit integer as
    that integer. *)
Hypothesis parse_pretty :
  forall z, - 2 ^ 63 <= z < 2 ^ 63 -> parse_number (pretty z) = Some z.

Lemma read_csv_written (l : list (list cell)) :
  Forall (fun r => length r = 10%nat) l ->
  Forall safe_row (rows_text (mkDataFrame REQUIRED_COLUMNS l)) ->
  read_csv tokenize (to_csv (mkDataFrame REQUIRED_COLUMNS l))
  = Some (mkDataFrame REQUIRED_COLUMNS
            ((fun r : list cell => (fun c => Str (cell_text c)) <$> r) <$> l)).
Proof.
  intros Hl Hs.
  assert (Hl' : Forall (fun rec => length rec = 10%nat)
                  (rows_text (mkDataFrame REQUIRED_COLUMNS l))).
  { apply rows_text_length. split; [reflexivity | exact Hl]. }
  pose proof (width_required _ Hl') as Hw.
  unfold to_csv. cbn [columns].
  set (recs := rows_text (mkDataFrame REQUIRED_COLUMNS l)) in *.
  rewrite (read_csv_lines tokenize _ _ _ (tokenize_written _ Hs Hl')).
  - do 2 f_equal.
    rewrite (Forall_fmap_ext_1 (read_record REQUIRED_COLUMNS recs) (fmap Str) recs).
    + unfold recs, rows_text. cbn [rows]. rewrite <- list_fmap_compose.
      apply list_fmap_ext. intros _ r _. cbn [compose].
      now rewrite <- list_fmap_compose.
    + eapply Forall_impl; [exact Hl'|]. intros r Hr. cbn beta in *.
      now apply read_record_required.
  - rewrite Hw. eapply Forall_impl; [exact Hl'|]. intros r Hr.
    cbn beta in *. lia.
Qed.

Lemma coerce_printed z :
  - 2 ^ 63 <= z < 2 ^ 63 -> coerce parse_number (Str (pretty z)) = z.
Proof.
  intros Hz. unfold coerce. rewrite parse_pretty by exact Hz.
  now apply wrap64_small.
Qed.

Lemma coerce_int z : - 2 ^ 63 <= z < 2 ^ 63 -> coerce parse_number (Int z) = z.
Proof. intros Hz. now apply wrap64_small. Qed.

(** The curated table as [load_processed] reads it back: the timestamp as
    the text written for it, everything else as it was. *)
Lemma load_processed_rows p fs l :
  files fs !! p = Some (to_csv (mkDataFrame REQUIRED_COLUMNS l)) ->
  Forall curated_shape l ->
  Forall safe_row (rows_text (mkDataFrame REQUIRED_COLUMNS l)) ->
  load_processed tokenize parse_number p fs
  = Some (mkDataFrame REQUIRED_COLUMNS
            ((fun r => <[0%nat:=Str (cell_text (at_col 0 r))]> r) <$> l)).
Proof.
  intros Hf Hl Hs. unfold load_processed.
  rewrite (path_exists_file _ _ _ Hf), Hf. cbn [mbind option_bind].
  rewrite read_csv_written.
  2:{ eapply Forall_impl; [exact Hl|].
      intros r (c0&s1&s2&s3&s4&s5&s6&s7&s8&z&->&_). reflexivity. }
  2:{ exact Hs. }
  cbn [mbind option_bind columns rows].
  unfold has_column. cbn [columns].
  rewrite bool_decide_eq_true_2 by (eexists; reflexivity).
  rewrite acertou_int_rows. do 2 f_equal.
  rewrite <- list_fmap_compose. apply Forall_fmap_ext_1.
  eapply Forall_impl; [exact Hl|].
  intros r (c0&s1&s2&s3&s4&s5&s6&s7&s8&z&->&Hz). cbn [compose].
  change ([Str (cell_text c0); Str s1; Str s2; Str s3; Str s4; Str s5; Str s6;
           Str s7; Str s8; Int (coerce parse_number (Str (pretty z)))]
          = [Str (cell_text c0); Str s1; Str s2; Str s3; Str s4; Str s5; Str s6;
             Str s7; Str s8; Int z]).
  now rewrite (coerce_printed z Hz).
Qed.

Lemma aluno_not_missing l :
  Forall curated_shape l ->
  filter (fun c => c <> NA) (aluno <$> l) = aluno <$> l.
Proof.
  induction 1 as [|r l (c0&s1&s2&s3&s4&s5&s6&s7&s8&z&->&_) _ IH]; [reflexivity|].
  rewrite fmap_cons, filter_cons, IH.
  destruct (decide _) as [_|Hno]; [reflexivity|]. now destruct Hno.
Qed.

Lemma results_panel_rows p fs l :
  files fs !! p = Some (to_csv (mkDataFrame REQUIRED_COLUMNS l)) ->
  Forall curated_shape l ->
  Forall safe_row (rows_text (mkDataFrame REQUIRED_COLUMNS l)) ->
  results_panel tokenize parse_number p fs
  = Some (if bool_decide (l = []) then None
          else Some {| respostas := Z.of_nat (length l);
                       alunos := Z.of_nat (length (remove_dups (aluno <$> l)));
                       acertos := sum_int64 (acertou <$> l) |}).
Proof.
  intros Hf Hl Hs. unfold results_panel.
  rewrite (load_processed_rows _ _ _ Hf Hl Hs). cbn [mbind option_bind].
  unfold df_empty. cbn [columns rows].
  case_bool_decide as Hnil.
  - destruct Hnil as [?|Hnil]; [discriminate|].
    apply fmap_nil_inv in Hnil. subst l. reflexivity.
  - rewrite bool_decide_eq_false_2 by (intros ->; apply Hnil; now right).
    rewrite acertou_int_rows. cbn [mbind option_bind].
    rewrite (getitem_index _ "aluno" 2) by reflexivity.
    rewrite (getitem_index _ "acertou" 9) by reflexivity.
    cbn [mbind option_bind rows]. unfold shape0. cbn [rows].
    do 2 f_equal. f_equal.
    + now rewrite !length_fmap.
    + unfold nunique. do 2 f_equal.
      assert (Hal : at_col 2
                      <$> ((fun r => <[9%nat:=Int (coerce parse_number (acertou r))]> r)
                             <$> ((fun r => <[0%nat:=Str (cell_text (at_col 0 r))]> r)
                                    <$> l))
                    = aluno <$> l).
      { rewrite <- !list_fmap_compose.
        apply Forall_fmap_ext_1. eapply Forall_impl; [exact Hl|].
        intros r (c0&s1&s2&s3&s4&s5&s6&s7&s8&z&->&_). reflexivity. }
      rewrite Hal. f_equal. now apply aluno_not_missing.
    + f_equal. rewrite <- !list_fmap_compose.
      apply Forall_fmap_ext_1. eapply Forall_impl; [exact Hl|].
      intros r (c0&s1&s2&s3&s4&s5&s6&s7&s8&z&->&Hz). cbn [compose].
      change (Int (coerce parse_number (Int z)) = Int z).
      now rewrite (coerce_int z Hz).
Qed.

(** X15. The results tab shows what the pipeline reported. After a run of the
    pipeline [load_processed] reads the curated table back with every value
    as it was (the timestamp as the text written for it), and the counters
    of the tab are those of the metrics: the rows are [linhas_curated], the
    correct answers [total_acertos]; with no curated row the tab shows its
    warning instead. The tokenizer is assumed to give back what
    [csv.writer] wrote for safe records, the curated rows are assumed safe
    (no carriage return and no null character in a field, no space or tab
    at the start of a line), and the numeric parser is assumed to read the
    decimal numeral of a 64-bit integer as that integer. *)
Theorem results_agree_with_metrics (paths : ETLPaths) (fs fs' : FileSystem)
    (cur : DataFrame) (m : Metrics) :
  run_pipeline tokenize parse_number paths fs = Some (fs', (cur, m)) ->
  Forall safe_row (rows_text cur) ->
  load_processed tokenize parse_number (curated_csv paths) fs'
  = Some (mkDataFrame REQUIRED_COLUMNS
            ((fun r => <[0%nat:=Str (cell_text (at_col 0 r))]> r) <$> rows cur)) /\
  results_panel tokenize parse_number (curated_csv paths) fs'
  = Some (if bool_decide (rows cur = []) then None
          else Some {| respostas := linhas_curated m;
                       alunos := Z.of_nat (length (remove_dups (aluno <$> rows cur)));
                       acertos := total_acertos m |}).
Proof.
  unfold run_pipeline. intros H Hs.
  destruct (extract tokenize (raw_csv paths) fs) as [df_raw|] eqn:Hx; [|discriminate].
  cbn [mbind option_bind] in H.
  pose proof (extract_raw_table _ _ _ _ Hx) as [Hc Ha].
  rewrite (transform_rows parse_number df_raw Hc) in H. cbn [mbind option_bind fst] in H.
  destruct (load _ (curated_csv paths) fs) as [fs1|] eqn:Hl; [|discriminate].
  injection H as <- <- <-.
  apply load_inv in Hl as (_ & _ & ->).
  cbn [rows linhas_curated total_acertos].
  set (C := curated_rows parse_number (rows df_raw)) in *.
  assert (Hf : files {| dirs := dirs (with_parents (curated_csv paths) fs);
                        files := <[curated_csv paths:=
                                     to_csv (mkDataFrame REQUIRED_COLUMNS C)]> (files fs) |}
               !! curated_csv paths
               = Some (to_csv (mkDataFrame REQUIRED_COLUMNS C)))
    by (cbn [files]; now rewrite lookup_insert_eq).
  assert (HC : Forall curated_shape C).
  { apply curated_rows_shape. unfold aligned in Ha. now rewrite Hc in Ha. }
  split; [exact (load_processed_rows _ _ _ Hf HC Hs)|].
  rewrite (results_panel_rows _ _ _ Hf HC Hs).
  assert (Hperm : C ≡ₚ deduplicated parse_number (rows df_raw))
    by apply curated_rows_perm.
  case_bool_decide; [reflexivity|]. do 2 f_equal. f_equal.
  - now rewrite Hperm.
  - apply sum_int64_perm. now rewrite Hperm.
Qed.

End ResultsFacts.

Lemma results_agree_with_metrics_witness :
  reads_back csv_tokenize /\
  (forall z, - 2 ^ 63 <= z < 2 ^ 63 -> int_literal (pretty z) = Some z) /\
  exists fs' cur m,
    run_pipeline csv_tokenize int_literal app_paths fs_old = Some (fs', (cur, m)) /\
    Forall safe_row (rows_text cur) /\
    load_processed csv_tokenize int_literal (curated_csv app_paths) fs'
    = Some (mkDataFrame REQUIRED_COLUMNS
              ((fun r => <[0%nat:=Str (cell_text (at_col 0 r))]> r) <$> rows cur)) /\
    results_panel csv_tokenize int_literal (curated_csv app_paths) fs'
    = Some (if bool_decide (rows cur = []) then None
            else Some {| respostas := linhas_curated m;
                         alunos := Z.of_nat (length (remove_dups (aluno <$> rows cur)));
                         acertos := total_acertos m |}).
Proof.
  split; [exact csv_tokenize_reads_back|].
  split; [intros z _; apply int_literal_pretty|].
  eexists _, _, _. split; [vm_compute; reflexivity|].
  split; [by_computation|].
  apply (results_agree_with_metrics csv_tokenize csv_tokenize_reads_back int_literal
           (fun z _ => int_literal_pretty z) app_paths fs_old).
  - vm_compute; reflexivity.
  - by_computation.
Defined.

(** ** The answer form *)

Lemma record_text_answer_row ts turma aluno bloco q choice :
  record_text (answer_row ts turma aluno bloco q choice)
  = answer_text turma aluno bloco ts (q, choice).
Proof.
  unfold record_text, answer_row, answer_text, mark. cbn [fst snd].
  generalize (strip turma) (strip aluno) (strip bloco) (q_id q) (q_pergunta q)
             (default "multipla" (q_tipo q)) (q_gabarito q).
  intros s1 s2 s3 s4 s5 s6 s7.
  destruct (String.eqb choice s7); vm_compute; reflexivity.
Qed.

Section FormFacts.

Variable tokenize : string -> option (list (list string)).

Hypothesis tokenize_written : reads_back tokenize.

Variable utc_now_iso : nat -> string.
Variable paths : ETLPaths.
Variables turma aluno bloco : string.

(** An append, seen through [extract]: the texts of the rows grow by the
    text of the record. *)
Lemma append_extends_text row fs fs' df :
  append_raw_row tokenize paths row fs = Some fs' ->
  extract tokenize (raw_csv paths) fs = Some df ->
  Forall safe_row (rows_text df) ->
  safe_row (record_text row) ->
  exists df', extract tokenize (raw_csv paths) fs' = Some df' /\
              rows_text df' = rows_text df ++ [record_text row].
Proof.
  intros H Hx Hs Hr. eexists.
  split; [exact (append_then_extract_rows tokenize tokenize_written _ _ _ _ _ Hx H Hs Hr)|].
  unfold rows_text. cbn [rows]. rewrite fmap_app. reflexivity.
Qed.

Lemma record_answers_text (chosen : list (Question * string)) :
  forall st st' df,
    foldl (fun acc qc =>
             st ← acc; record_answer tokenize utc_now_iso paths turma aluno bloco st qc)
          (Some st) chosen = Some st' ->
    extract tokenize (raw_csv paths) (p_fs st) = Some df ->
    Forall safe_row (rows_text df) ->
    (forall (i : nat) (qc : Question * string), chosen !! i = Some qc ->
       safe_row (answer_text turma aluno bloco (utc_now_iso (p_calls st + i)%nat) qc)) ->
    exists df',
      extract tokenize (raw_csv paths) (p_fs st') = Some df' /\
      rows_text df'
      = rows_text df
        ++ imap (fun i qc => answer_text turma aluno bloco
                               (utc_now_iso (p_calls st + i)%nat) qc) chosen /\
      p_feedback st'
      = p_feedback st ++ ((fun qc => (qc.1, qc.2, mark qc.1 qc.2)) <$> chosen) /\
      p_total st'
      = p_total st + Z.of_nat (length (filter (fun qc => qc.2 = q_gabarito qc.1) chosen)).
Proof.
  induction chosen as [|[q c] chosen IH]; intros st st' df Hloop Hx Hs Hsafe.
  - cbn in Hloop. injection Hloop as <-. exists df.
    cbn. rewrite !(right_id_L [] (++)). split; [exact Hx|].
    split; [reflexivity|]. split; [reflexivity | lia].
  - cbn [foldl] in Hloop.
    change (Some st ≫= _)
      with (record_answer tokenize utc_now_iso paths turma aluno bloco st (q, c)) in Hloop.
    destruct (record_answer _ _ _ _ _ _ st (q, c)) as [st1|] eqn:Hstep.
    2:{ exfalso. clear -Hloop. induction chosen as [|qc chosen IH]; [discriminate|].
        apply IH. exact Hloop. }
    unfold record_answer in Hstep. cbn [fst snd] in Hstep.
    destruct (append_raw_row _ _ _ (p_fs st)) as [fs1|] eqn:Happ; [|discriminate].
    cbn [mbind option_bind] in Hstep. injection Hstep as <-.
    assert (Hr : safe_row (record_text (answer_row (utc_now_iso (p_calls st))
                                          turma aluno bloco q c))).
    { rewrite record_text_answer_row.
      specialize (Hsafe 0%nat (q, c) eq_refl). now rewrite Nat.add_0_r in Hsafe. }
    destruct (append_extends_text _ _ _ _ Happ Hx Hs Hr) as (df1 & Hx1 & Ht1).
    assert (Hs1 : Forall safe_row (rows_text df1)).
    { rewrite Ht1. apply Forall_app. split; [exact Hs | now constructor]. }
    destruct (IH _ _ df1 Hloop Hx1 Hs1) as (df' & Hx' & Ht' & Hfb & Htot).
    { intros i qc Hi. cbn [p_calls].
      specialize (Hsafe (S i) qc Hi).
      now replace (S (p_calls st) + i)%nat with (p_calls st + S i)%nat by lia. }
    cbn [p_fs p_feedback p_total p_calls] in *.
    exists df'. split; [exact Hx'|]. split; [|split].
    + rewrite Ht', Ht1, record_text_answer_row, <- (assoc_L (++)).
      f_equal. cbn [imap app]. rewrite Nat.add_0_r. f_equal.
      apply imap_ext. intros i qc _. cbn [compose]. do 2 f_equal. lia.
    + rewrite Hfb, <- (assoc_L (++)). reflexivity.
    + rewrite Htot, filter_cons. cbn [fst snd]. unfold mark.
      destruct (String.eqb_spec c (q_gabarito q)) as [E|E];
        destruct (decide (c = q_gabarito q)); try contradiction;
        cbn [length]; lia.
Qed.

(** X16. Answers are recorded only under a name that is not blank and when every
    question has a choice. The raw file then grows by one record for each
    question, in the order of the form, after the rows it had: the trimmed
    class, student and block, the question, the choice, and "1" in
    [acertou] when the choice is the answer key, "0" otherwise. The total
    shown is the number of correct choices. The tokenizer is assumed to
    give back what [csv.writer] wrote for safe records, and the rows the
    file had and the records of the answers are assumed safe: no carriage
    return and no null character in a field, no space or tab at the start
    of a line. *)
Theorem submit_records (answers : list (Question * option string))
    (fs fs' : FileSystem) (df : DataFrame)
    (feedback : list (Question * string * Z)) (total : Z) :
  submit tokenize utc_now_iso paths turma aluno bloco answers fs
  = Some (Recorded fs' feedback total) ->
  extract tokenize (raw_csv paths) fs = Some df ->
  Forall safe_row (rows_text df) ->
  (forall (i : nat) (q : Question) (c : string), answers !! i = Some (q, Some c) ->
     safe_row (answer_text turma aluno bloco (utc_now_iso i) (q, c))) ->
  strip aluno <> "" /\
  exists chosen df',
    answers = (fun qc : Question * string => (qc.1, Some qc.2)) <$> chosen /\
    extract tokenize (raw_csv paths) fs' = Some df' /\
    rows_text df'
    = rows_text df
      ++ imap (fun i qc => answer_text turma aluno bloco (utc_now_iso i) qc) chosen /\
    feedback = (fun qc => (qc.1, qc.2, mark qc.1 qc.2)) <$> chosen /\
    total = Z.of_nat (length (filter (fun qc => qc.2 = q_gabarito qc.1) chosen)) /\
    0 <= total <= Z.of_nat (length answers).
Proof.
  unfold submit. intros H Hx Hs Hsafe. case_bool_decide as Hname; [discriminate|].
  split; [exact Hname|].
  destruct (mapM _ answers) as [chosen|] eqn:Hm; [|discriminate].
  destruct (foldl _ _ chosen) as [st'|] eqn:Hloop; [|discriminate].
  cbn [mbind option_bind] in H. injection H as <- <- <-.
  assert (Hans : answers = (fun qc : Question * string => (qc.1, Some qc.2)) <$> chosen).
  { clear -Hm. apply mapM_Some_1 in Hm.
    induction Hm as [|[q [c|]] [q' c'] answers chosen Hqc _ IH];
      [reflexivity| |discriminate].
    cbn in Hqc. injection Hqc as <- <-. csimpl. now rewrite IH. }
  destruct (record_answers_text chosen _ _ df Hloop Hx Hs) as (df' & Hx' & Ht & Hfb & Htot).
  { intros i [q c] Hi. cbn [p_calls Nat.add]. apply Hsafe.
    rewrite Hans, list_lookup_fmap, Hi. reflexivity. }
  cbn [p_fs p_feedback p_total p_calls] in *.
  exists chosen, df'. split; [exact Hans|]. split; [exact Hx'|].
  split; [exact Ht|]. split; [exact Hfb|]. split; [lia|].
  rewrite Htot, Hans, length_fmap.
  pose proof (length_filter (fun qc : Question * string => qc.2 = q_gabarito qc.1) chosen).
  lia.
Qed.

End FormFacts.

(** ** Counting the correct answers *)

Lemma sum_Z_bits (s : list cell) :
  Forall (fun c => c = Int 0 \/ c = Int 1) s ->
  sum_Z s = Z.of_nat (length (filter (fun c => c = Int 1) s)).
Proof.
  unfold sum_Z. induction 1 as [|c s Hc _ IH]; [reflexivity|].
  rewrite filter_cons. cbn [foldr]. rewrite IH.
  destruct Hc as [-> | ->]; destruct (decide _); try congruence;
    cbn [length]; lia.
Qed.

Section CorrectAnswers.

Variable parse_number : string -> option Z.

Hypothesis parse_0 : parse_number "0" = Some 0.
Hypothesis parse_1 : parse_number "1" = Some 1.

(** X5. When every raw row holds "0" or "1" in [acertou], as the rows written
    by the answer form do, [total_acertos] is the number of curated rows
    marked 1, and so at most [linhas_curated]. *)
Theorem total_acertos_counts (df cur : DataFrame) (m : Metrics) :
  raw_table df ->
  Forall (fun r => acertou r = Str "0" \/ acertou r = Str "1") (rows df) ->
  transform parse_number df = Some (cur, m) ->
  linhas_curated m < 2 ^ 63 ->
  Forall (fun r => acertou r = Int 0 \/ acertou r = Int 1) (rows cur) /\
  total_acertos m = Z.of_nat (length (filter (fun r => acertou r = Int 1) (rows cur))) /\
  0 <= total_acertos m <= linhas_curated m.
Proof.
  intros [Hc Ha] Hbits Ht Hlen. rewrite (transform_rows parse_number df Hc) in Ht.
  injection Ht as <- <-. cbn [rows linhas_curated total_acertos] in *.
  unfold aligned in Ha. rewrite Hc in Ha.
  assert (Hcur : Forall (fun r => acertou r = Int 0 \/ acertou r = Int 1)
                        (curated_rows parse_number (rows df))).
  { apply Forall_forall. intros r (r0 & Hin & -> & _)%curated_rows_from.
    eapply Forall_forall in Ha; [|exact Hin].
    eapply Forall_forall in Hbits; [|exact Hin].
    rewrite (acertou_after_cleaning parse_number r0 Ha). unfold coerce.
    destruct Hbits as [-> | ->]; [rewrite parse_0 | rewrite parse_1];
      rewrite wrap64_small by lia; auto. }
  split; [exact Hcur|].
  pose proof (curated_rows_perm parse_number (rows df)) as Hperm.
  set (C := curated_rows parse_number (rows df)) in *.
  set (D := deduplicated parse_number (rows df)) in *.
  assert (Hsum : sum_int64 (acertou <$> D)
                 = Z.of_nat (length (filter (fun r => acertou r = Int 1) C))).
  { rewrite <- (sum_int64_perm (acertou <$> C)) by now rewrite Hperm.
    rewrite sum_int64_wrap, sum_Z_bits by now apply Forall_fmap.
    rewrite filter_fmap, length_fmap. apply wrap64_small.
    pose proof (length_filter (fun r => acertou r = Int 1) C) as Hle.
    rewrite Hperm in Hle at 2. lia. }
  split; [exact Hsum|]. rewrite Hsum.
  pose proof (length_filter (fun r => acertou r = Int 1) C) as Hle.
  rewrite Hperm in Hle at 2. lia.
Qed.

End CorrectAnswers.

(** ** The order of the sort is an order *)

Lemma string_compare_lt_trans (s t u : string) :
  String.compare s t = Lt -> String.compare t u = Lt -> String.compare s u = Lt.
Proof.
  intros H1 H2.
  apply OrderedTypeEx.String_as_OT.cmp_lt in H1, H2.
  apply OrderedTypeEx.String_as_OT.cmp_lt.
  eapply OrderedTypeEx.String_as_OT.lt_trans; eassumption.
Qed.

Lemma cell_compare_eq a b : cell_compare a b = Eq -> a = b.
Proof.
  destruct a as [|s|x], b as [|t|y]; simpl; try discriminate; try reflexivity.
  - now intros ->%String.compare_eq_iff.
  - now intros ->%Z.compare_eq_iff.
Qed.

Lemma cell_compare_lt_trans a b c :
  cell_compare a b = Lt -> cell_compare b c = Lt -> cell_compare a c = Lt.
Proof.
  destruct a as [|s|x], b as [|t|y], c as [|u|z]; simpl;
    try discriminate; try reflexivity.
  - apply string_compare_lt_trans.
  - rewrite !Z.compare_lt_iff. lia.
Qed.

Lemma key_compare_eq k1 : forall k2, key_compare k1 k2 = Eq -> k1 = k2.
Proof.
  induction k1 as [|a k1 IH]; intros [|b k2]; simpl; try discriminate;
    [reflexivity|].
  destruct (cell_compare a b) eqn:E; try discriminate.
  apply cell_compare_eq in E as ->. now intros ->%IH.
Qed.

Lemma key_compare_lt_trans k1 : forall k2 k3,
  key_compare k1 k2 = Lt -> key_compare k2 k3 = Lt -> key_compare k1 k3 = Lt.
Proof.
  induction k1 as [|a k1 IH]; intros [|b k2] [|c k3]; simpl;
    try discriminate; try reflexivity.
  destruct (cell_compare a b) eqn:Eab; try discriminate;
    destruct (cell_compare b c) eqn:Ebc; try discriminate.
  - apply cell_compare_eq in Eab as ->. rewrite Ebc. apply IH.
  - apply cell_compare_eq in Eab as ->. now rewrite Ebc.
  - apply cell_compare_eq in Ebc as <-. now rewrite Eab.
  - now rewrite (cell_compare_lt_trans a b c Eab Ebc).
Qed.

#[global] Instance key_le_trans idx : Transitive (key_le idx).
Proof.
  intros r1 r2 r3. unfold key_le. intros H12 H23.
  destruct (key_compare (row_key idx r1) (row_key idx r2)) eqn:E12;
    [| |congruence].
  - apply key_compare_eq in E12. now rewrite E12.
  - destruct (key_compare (row_key idx r2) (row_key idx r3)) eqn:E23;
      [| |congruence].
    + apply key_compare_eq in E23. rewrite <- E23, E12. discriminate.
    + rewrite (key_compare_lt_trans _ _ _ E12 E23). discriminate.
Qed.

Lemma key_le_antisym idx r1 r2 :
  key_le idx r1 r2 -> key_le idx r2 r1 -> row_key idx r1 = row_key idx r2.
Proof.
  unfold key_le. rewrite (key_compare_antisym (row_key idx r2)).
  intros H1 H2. apply key_compare_eq.
  destruct (key_compare (row_key idx r1) (row_key idx r2)); simpl in *; congruence.
Qed.

(** ** A second pass of [transform] *)

Lemma keep_last_NoDup_id {K} `{EqDecision K} (key : list cell -> K) l :
  NoDup (key <$> l) -> keep_last key l = l.
Proof.
  induction l as [|r l IH]; [reflexivity|]. csimpl.
  intros [Hnot Hnd]%NoDup_cons. rewrite (IH Hnd).
  rewrite bool_decide_eq_false_2; [reflexivity|].
  intros (r' & Hin & Hk)%Exists_exists. apply Hnot. rewrite <- Hk.
  now apply list_elem_of_fmap_2.
Qed.

Lemma NoDup_fmap_elem {A B} (f : A -> B) (l : list A) (x y : A) :
  NoDup (f <$> l) -> x ∈ l -> y ∈ l -> f x = f y -> x = y.
Proof.
  intros Hnd [i Hi]%list_elem_of_lookup [j Hj]%list_elem_of_lookup E.
  assert (Hij : i = j).
  { eapply NoDup_lookup; [exact Hnd | |].
    - rewrite list_lookup_fmap, Hi. reflexivity.
    - rewrite list_lookup_fmap, Hj. cbn. now rewrite E. }
  subst j. congruence.
Qed.

Lemma filter_all {A} (P : A -> Prop) `{!forall x, Decision (P x)} (l : list A) :
  Forall P l -> filter P l = l.
Proof.
  induction 1 as [|x l Hx _ IH]; [reflexivity|].
  rewrite filter_cons, IH. now destruct (decide (P x)).
Qed.

Section SecondPass.

Variable parse_number : string -> option Z.

(** X6. [transform] changes nothing in a table it has produced: applied to
    its own curated table it returns the same table, reports as many raw
    rows as curated rows, no duplicate, and the same total. *)
Theorem transform_idempotent (df cur : DataFrame) (m : Metrics) :
  raw_table df ->
  transform parse_number df = Some (cur, m) ->
  transform parse_number cur
  = Some (cur, {| linhas_raw := linhas_curated m;
                  linhas_curated := linhas_curated m;
                  duplicados_removidos := 0;
                  total_acertos := total_acertos m |}).
Proof.
  intros [Hc Ha] Ht.
  rewrite (transform_rows parse_number df Hc) in Ht. injection Ht as <- <-.
  rewrite transform_rows by reflexivity.
  cbn [rows linhas_curated total_acertos] in *.
  unfold aligned in Ha. rewrite Hc in Ha.
  destruct (curated_rows_invariants parse_number _ Ha)
    as (_ & Hal & Htrim & Hint & Hnd).
  pose proof (curated_rows_shape parse_number _ Ha) as Hshape.
  set (C := curated_rows parse_number (rows df)) in *.
  set (D := deduplicated parse_number (rows df)).
  assert (Hperm : C ≡ₚ D) by apply curated_rows_perm.
  assert (Hclean : (fun r => coerce_row parse_number (clean_row r)) <$> C = C).
  { rewrite <- (list_fmap_id C) at 2. apply Forall_fmap_ext_1.
    apply Forall_forall. intros r Hr.
    pose proof (proj1 (Forall_forall _ _) Htrim r Hr) as Htr.
    pose proof (proj1 (Forall_forall _ _) Hshape r Hr)
      as (c0&s1&s2&s3&s4&s5&s6&s7&s8&z&->&Hz).
    clear Htrim. rename Htr into Htrim.
    rewrite clean_row_10. cbn [id].
    assert (Hk : forall (k : nat) s,
              (1 <= k <= 8)%nat ->
              [c0; Str s1; Str s2; Str s3; Str s4; Str s5; Str s6; Str s7; Str s8;
               Int z] !! k = Some (Str s) -> strip s = s).
    { intros k s Hk Hs. destruct (Htrim k Hk) as (s' & Hs' & E). congruence. }
    cbn [clean_text].
    rewrite (Hk 1%nat s1), (Hk 2%nat s2), (Hk 3%nat s3), (Hk 4%nat s4),
      (Hk 5%nat s5), (Hk 6%nat s6), (Hk 7%nat s7), (Hk 8%nat s8)
      by (lia || reflexivity).
    cbn [coerce]. now rewrite wrap64_small. }
  assert (Hrem : remaining parse_number C = C).
  { unfold remaining. rewrite <- list_fmap_compose.
    change (coerce_row parse_number ∘ clean_row)
      with (fun r => coerce_row parse_number (clean_row r)).
    rewrite Hclean. apply filter_all.
    eapply Forall_impl; [exact Hal|]. intros r (s & -> & Hs). congruence. }
  assert (Hded : deduplicated parse_number C = C).
  { unfold deduplicated. rewrite Hrem.
    rewrite (keep_last_ext _ (fun r => (aluno r, question_id r)))
      by (intros r r'; apply row_key_pair).
    now apply keep_last_NoDup_id. }
  assert (Hsort : curated_rows parse_number C = C).
  { unfold curated_rows at 1. rewrite Hded.
    apply (Sorted_unique_strong (key_le [1; 2; 3; 4]%nat)).
    - intros r1 r2 H1 H2 H12 H21.
      pose proof (key_le_antisym _ _ _ H12 H21) as Hkey.
      rewrite merge_sort_Permutation in H1.
      assert (Hpair : (aluno r1, question_id r1) = (aluno r2, question_id r2)).
      { unfold row_key in Hkey. csimpl in Hkey.
        injection Hkey as _ E2 _ E4. unfold aluno, question_id. congruence. }
      exact (NoDup_fmap_elem _ _ _ _ Hnd H1 H2 Hpair).
    - apply Sorted_merge_sort. apply _.
    - apply Sorted_merge_sort. apply _.
    - apply merge_sort_Permutation. }
  rewrite Hsort, Hded, Hrem.
  assert (Hlen : length C = length D) by now rewrite Hperm.
  assert (Hsum : sum_int64 (acertou <$> C) = sum_int64 (acertou <$> D))
    by (apply sum_int64_perm; now rewrite Hperm).
  rewrite Hsum, Hlen, Z.sub_diag. reflexivity.
Qed.

End SecondPass.

(** ** Instances on the worked inputs *)

Lemma load_writes_witness :
  exists fs',
    load sample_curated (curated_csv app_paths) fs_old = Some fs' /\
    files fs' !! curated_csv app_paths = Some (to_csv sample_curated) /\
    (forall q, q <> curated_csv app_paths -> files fs' !! q = files fs_old !! q) /\
    (forall d, d ∈ dirs fs' <->
               d ∈ dirs fs_old \/ d ∈ ancestors (parent (curated_csv app_paths))).
Proof.
  eexists. split; [vm_compute; reflexivity|].
  apply (proj2 (load_writes sample_curated (curated_csv app_paths) fs_old)).
  vm_compute; reflexivity.
Defined.

Lemma load_overwrites_witness :
  exists fs1,
    load sample_raw (curated_csv app_paths) fs_old = Some fs1 /\
    load sample_curated (curated_csv app_paths) fs1
    = load sample_curated (curated_csv app_paths) fs_old /\
    exists fs2,
      load sample_curated (curated_csv app_paths) fs_old = Some fs2 /\
      files fs2 !! curated_csv app_paths = Some (to_csv sample_curated).
Proof.
  eexists. split; [vm_compute; reflexivity|].
  apply (load_overwrites sample_raw sample_curated (curated_csv app_paths) fs_old).
  vm_compute; reflexivity.
Defined.

Lemma ensure_parent_dir_exist_ok_witness :
  exists fs',
    ensure_parent_dir (curated_csv app_paths) fs_old = Some fs' /\
    files fs' = files fs_old /\
    (forall d, d ∈ dirs fs' <->
               d ∈ dirs fs_old \/ d ∈ ancestors (parent (curated_csv app_paths))) /\
    ensure_parent_dir (curated_csv app_paths) fs' = Some fs'.
Proof.
  eexists. split; [vm_compute; reflexivity|].
  apply (proj2 (ensure_parent_dir_exist_ok (curated_csv app_paths) fs_old)).
  vm_compute; reflexivity.
Defined.

Lemma extract_returns_iff_witness :
  files fs_wide !! raw_csv app_paths = Some wide_file /\
  csv_tokenize wide_file = Some (wide_header :: wide_records) /\
  Forall (fun r => (length r <= width wide_header wide_records)%nat) wide_records /\
  is_Some (extract csv_tokenize (raw_csv app_paths) fs_wide).
Proof.
  assert (Hw : Forall (fun r => (length r <= width wide_header wide_records)%nat)
                 wide_records) by by_computation.
  split; [vm_compute; reflexivity|]. split; [vm_compute; reflexivity|].
  split; [exact Hw|].
  apply (extract_returns_iff csv_tokenize (raw_csv app_paths) fs_wide).
  right. exists wide_file, wide_header, wide_records.
  split; [vm_compute; reflexivity|]. split; [vm_compute; reflexivity | exact Hw].
Defined.

(** [extract] raises on a file of zero bytes and on a record longer than
    the one before it. *)
Example extract_raises :
  extract csv_tokenize (raw_csv app_paths) fs_blank = None /\
  extract csv_tokenize (raw_csv app_paths) fs_ragged = None.
Proof. split; vm_compute; reflexivity. Qed.

Lemma run_pipeline_frame_witness :
  exists fs' res,
    run_pipeline csv_tokenize int_literal app_paths fs_old = Some (fs', res) /\
    raw_table res.1 /\
    files fs' !! curated_csv app_paths = Some (to_csv res.1) /\
    (forall q, q <> curated_csv app_paths -> files fs' !! q = files fs_old !! q) /\
    (forall d, d ∈ dirs fs_old -> d ∈ dirs fs') /\
    (raw_csv app_paths <> curated_csv app_paths ->
     is_Some (files fs_old !! raw_csv app_paths) ->
     extract csv_tokenize (raw_csv app_paths) fs'
     = extract csv_tokenize (raw_csv app_paths) fs_old).
Proof.
  eexists _, _. split; [vm_compute; reflexivity|].
  apply (run_pipeline_frame csv_tokenize int_literal app_paths fs_old).
  vm_compute; reflexivity.
Defined.

Lemma append_then_extract_witness :
  reads_back csv_tokenize /\
  exists df fs',
    extract csv_tokenize (raw_csv app_paths) fs_old = Some df /\
    append_raw_row csv_tokenize app_paths sample_record fs_old = Some fs' /\
    Forall safe_row (rows_text df) /\
    safe_row (record_text sample_record) /\
    exists df',
      extract csv_tokenize (raw_csv app_paths) fs' = Some df' /\
      columns df' = REQUIRED_COLUMNS /\
      rows df'
      = rows df
        ++ [(fun c => Str (cell_text (default NA (sample_record !! c))))
              <$> REQUIRED_COLUMNS].
Proof.
  split; [exact csv_tokenize_reads_back|].
  eexists _, _. split; [vm_compute; reflexivity|].
  split; [vm_compute; reflexivity|].
  split; [by_computation|]. split; [by_computation|].
  apply (append_then_extract csv_tokenize csv_tokenize_reads_back app_paths
           sample_record fs_old).
  - vm_compute; reflexivity.
  - vm_compute; reflexivity.
  - by_computation.
  - by_computation.
Defined.

Lemma recorded_answer_is_curated_witness :
  reads_back csv_tokenize /\
  exists df fs1 fs2 cur m,
    extract csv_tokenize (raw_csv app_paths) fs_old = Some df /\
    Forall safe_row (rows_text df) /\
    safe_row (record_text sample_record) /\
    append_raw_row csv_tokenize app_paths sample_record fs_old = Some fs1 /\
    run_pipeline csv_tokenize int_literal app_paths fs1 = Some (fs2, (cur, m)) /\
    strip (cell_text (default NA (sample_record !! "aluno"))) <> "" /\
    let field := fun c => cell_text (default NA (sample_record !! c)) in
    filter (fun r => aluno r = Str (strip (field "aluno")) /\
                     question_id r = Str (strip (field "question_id")))
           (rows cur)
    = [[Str (field "timestamp"); Str (strip (field "turma"));
        Str (strip (field "aluno")); Str (strip (field "bloco"));
        Str (strip (field "question_id")); Str (strip (field "pergunta"));
        Str (strip (field "tipo")); Str (strip (field "resposta_aluno"));
        Str (strip (field "gabarito"));
        Int (coerce int_literal (Str (field "acertou")))]].
Proof.
  split; [exact csv_tokenize_reads_back|].
  eexists _, _, _, _, _. split; [vm_compute; reflexivity|].
  split; [by_computation|]. split; [by_computation|].
  split; [vm_compute; reflexivity|].
  split; [vm_compute; reflexivity|]. split; [vm_compute; discriminate|].
  eapply (recorded_answer_is_curated csv_tokenize csv_tokenize_reads_back int_literal
            app_paths sample_record fs_old).
  - vm_compute; reflexivity.
  - by_computation.
  - by_computation.
  - vm_compute; reflexivity.
  - vm_compute; reflexivity.
  - vm_compute; discriminate.
Defined.

Lemma sample_answers_safe (i : nat) (q : Question) (c : string) :
  sample_answers !! i = Some (q, Some c) ->
  safe_row (answer_text "Turma A" " ana " "b1" (sample_clock i) (q, c)).
Proof.
  destruct i as [|[|i]]; [| |discriminate]; intros [= <- <-]; by_computation.
Qed.

Lemma submit_records_witness :
  reads_back csv_tokenize /\
  exists fs' feedback total df,
    submit csv_tokenize sample_clock app_paths "Turma A" " ana " "b1" sample_answers
           fs_new
    = Some (Recorded fs' feedback total) /\
    extract csv_tokenize (raw_csv app_paths) fs_new = Some df /\
    Forall safe_row (rows_text df) /\
    (forall (i : nat) (q : Question) (c : string),
       sample_answers !! i = Some (q, Some c) ->
       safe_row (answer_text "Turma A" " ana " "b1" (sample_clock i) (q, c))) /\
    strip " ana " <> "" /\
    exists chosen df',
      sample_answers = (fun qc : Question * string => (qc.1, Some qc.2)) <$> chosen /\
      extract csv_tokenize (raw_csv app_paths) fs' = Some df' /\
      rows_text df'
      = rows_text df
        ++ imap (fun i qc => answer_text "Turma A" " ana " "b1" (sample_clock i) qc)
                chosen /\
      feedback = (fun qc => (qc.1, qc.2, mark qc.1 qc.2)) <$> chosen /\
      total = Z.of_nat (length (filter (fun qc => qc.2 = q_gabarito qc.1) chosen)) /\
      0 <= total <= Z.of_nat (length sample_answers).
Proof.
  split; [exact csv_tokenize_reads_back|].
  eexists _, _, _, _. split; [vm_compute; reflexivity|].
  split; [vm_compute; reflexivity|].
  split; [by_computation|]. split; [exact sample_answers_safe|].
  apply (submit_records csv_tokenize csv_tokenize_reads_back sample_clock app_paths
           "Turma A" " ana " "b1" sample_answers fs_new).
  - vm_compute; reflexivity.
  - vm_compute; reflexivity.
  - by_computation.
  - exact sample_answers_safe.
Defined.

Lemma total_acertos_counts_witness :
  int_literal "0" = Some 0 /\ int_literal "1" = Some 1 /\
  raw_table bits_raw /\
  Forall (fun r => acertou r = Str "0" \/ acertou r = Str "1") (rows bits_raw) /\
  exists cur m,
    transform int_literal bits_raw = Some (cur, m) /\
    linhas_curated m < 2 ^ 63 /\
    Forall (fun r => acertou r = Int 0 \/ acertou r = Int 1) (rows cur) /\
    total_acertos m
    = Z.of_nat (length (filter (fun r => acertou r = Int 1) (rows cur))) /\
    0 <= total_acertos m <= linhas_curated m.
Proof.
  split; [reflexivity|]. split; [reflexivity|].
  split; [split; [reflexivity | repeat constructor]|].
  split; [repeat constructor; (now left) || (now right)|].
  eexists _, _. split; [vm_compute; reflexivity|]. split; [reflexivity|].
  apply (total_acertos_counts int_literal eq_refl eq_refl bits_raw).
  - split; [reflexivity | repeat constructor].
  - repeat constructor; (now left) || (now right).
  - vm_compute; reflexivity.
  - reflexivity.
Defined.

Lemma transform_idempotent_witness :
  raw_table sample_raw /\
  transform int_literal sample_raw = Some (sample_curated, sample_metrics) /\
  transform int_literal sample_curated
  = Some (sample_curated,
          {| linhas_raw := linhas_curated sample_metrics;
             linhas_curated := linhas_curated sample_metrics;
             duplicados_removidos := 0;
             total_acertos := total_acertos sample_metrics |}).
Proof.
  split; [split; [reflexivity | repeat constructor]|].
  split; [vm_compute; reflexivity|].
  apply (transform_idempotent int_literal sample_raw sample_curated sample_metrics).
  - split; [reflexivity | repeat constructor].
  - vm_compute; reflexivity.
Defined.

Lemma transform_raises_iff_witness :
  NoDup (columns (mkDataFrame ["aluno"; "acertou"] [[Str "ana"; Str "1"]])) /\
  (transform int_literal (mkDataFrame ["aluno"; "acertou"] [[Str "ana"; Str "1"]])
   = None <->
   exists c,
     c ∈ ["turma"; "aluno"; "bloco"; "question_id"; "pergunta"; "tipo";
          "resposta_aluno"; "gabarito"; "acertou"] /\
     c ∉ columns (mkDataFrame ["aluno"; "acertou"] [[Str "ana"; Str "1"]])).
Proof.
  assert (Hnd : NoDup (columns (mkDataFrame ["aluno"; "acertou"] [[Str "ana"; Str "1"]]))).
  { apply (@bool_decide_unpack _ (NoDup_dec _)). vm_compute. exact I. }
  split; [exact Hnd|].
  apply (transform_raises_iff int_literal _ Hnd).
Defined.

(** ** When the recorder raises *)

Lemma frame_of_record_ext (row row' : gmap string cell) (cs : list string) :
  (forall c, c ∈ cs -> row !! c = row' !! c) ->
  frame_of_record row cs = frame_of_record row' cs.
Proof.
  intros H. unfold frame_of_record. do 2 f_equal.
  apply Forall_fmap_ext_1, Forall_forall. intros c Hc. now rewrite (H c Hc).
Qed.

(** X17. [append_raw_row] returns exactly when the raw path can be written and
    [extract] returns on it, whatever the record. Only the ten required
    keys of the record are read: two records that agree on them have the
    same effect. *)
Theorem append_raw_row_succeeds_iff
    (tokenize : string -> option (list (list string))) (paths : ETLPaths)
    (row : gmap string cell) (fs : FileSystem) :
  (is_Some (append_raw_row tokenize paths row fs) <->
   writable fs (raw_csv paths) /\ is_Some (extract tokenize (raw_csv paths) fs)) /\
  forall row' : gmap string cell,
    (forall c, c ∈ REQUIRED_COLUMNS -> row !! c = row' !! c) ->
    append_raw_row tokenize paths row' fs = append_raw_row tokenize paths row fs.
Proof.
  split; [split|].
  - intros [fs' H]. pose proof (append_raw_row_proper_path _ _ _ _ _ H) as Hw.
    split; [exact Hw|]. destruct Hw as (Hp & _ & _).
    apply append_raw_row_inv in H as (df & Hx & _).
    rewrite (extract_with_parents _ _ _ Hp) in Hx. eauto.
  - intros [Hw [df Hx]]. pose proof Hw as (Hp & _ & _).
    rewrite <- (extract_with_parents _ _ _ Hp) in Hx.
    rewrite (append_raw_row_writable _ _ row _ _ Hw Hx). eauto.
  - intros row' Hrow. unfold append_raw_row.
    now rewrite (frame_of_record_ext row row' REQUIRED_COLUMNS Hrow).
Qed.

Lemma append_raw_row_succeeds_iff_witness :
  (is_Some (append_raw_row csv_tokenize app_paths sample_record fs_old) <->
   writable fs_old (raw_csv app_paths) /\
   is_Some (extract csv_tokenize (raw_csv app_paths) fs_old)) /\
  append_raw_row csv_tokenize app_paths (<["nota":=Str "10"]> sample_record) fs_old
  = append_raw_row csv_tokenize app_paths sample_record fs_old.
Proof.
  destruct (append_raw_row_succeeds_iff csv_tokenize app_paths sample_record fs_old)
    as [H1 H2].
  split; [exact H1|]. apply H2. intros c Hc.
  repeat (apply elem_of_cons in Hc as [->|Hc]; [vm_compute; reflexivity|]).
  now apply elem_of_nil in Hc.
Defined.

Lemma run_pipeline_succeeds_iff_witness :
  is_Some (extract csv_tokenize (raw_csv app_paths) fs_old) /\
  writable fs_old (curated_csv app_paths) /\
  is_Some (run_pipeline csv_tokenize int_literal app_paths fs_old).
Proof.
  assert (Hx : is_Some (extract csv_tokenize (raw_csv app_paths) fs_old))
    by (eexists; vm_compute; reflexivity).
  assert (Hw : writable fs_old (curated_csv app_paths))
    by (unfold writable; by_computation).
  split; [exact Hx|]. split; [exact Hw|].
  apply (run_pipeline_succeeds_iff csv_tokenize int_literal app_paths fs_old).
  split; [exact Hx | exact Hw].
Defined.
